(** * node-int64: the Int64 value type over an 8-byte big-endian buffer

    A shallow embedding of [src/index.ts] (class [Int64]) and the properties
    of its construction, conversion and comparison methods.

    Conventions of the embedding
    - A [Buffer] is a [list Z] of octets.  Reading [b[i]] is the list lookup
      [b !! i]: [None] is JavaScript's [undefined], which is what an
      out-of-range read of a typed array yields.  Writing [b[i] = v] stores
      [v] modulo 256 and does nothing out of range, as for a typed array.
    - A JavaScript number is a [number]: [NaN], an infinity, or an
      integer-valued double [Num z].  Additions and multiplications round
      to the 53-bit significand of a double ([fl]).  The two divisions of the
      source produce fractions; they are kept as exact rationals
      ([fraction]) until the program truncates or compares them.
    - Methods that mutate [this] return the updated object; methods that can
      throw return a [result]. *)

From Stdlib Require Import ZArith QArith Qround Lia Bool.
From Stdlib Require Import Ascii String.
From stdpp Require Import base list strings.

Local Open Scope Z_scope.

(** ** JavaScript numbers *)

Inductive number : Type :=
| NaN
| Infinity (negative : bool)
| Num (z : Z).

(** Round an integer to the nearest double (ties to even): integers up to
    [2^53] in magnitude are doubles, larger ones keep 53 significant bits. *)
Definition fl (z : Z) : Z :=
  let a := Z.abs z in
  if a <? 2 ^ 53 then z
  else
    let e := Z.log2 a - 52 in
    let q := a / 2 ^ e in
    let r := a mod 2 ^ e in
    let half := 2 ^ (e - 1) in
    let q' := if r <? half then q
              else if half <? r then q + 1
              else if Z.even q then q else q + 1 in
    Z.sgn z * (q' * 2 ^ e).

(** [x + y] on numbers. *)
Definition js_add (x y : number) : number :=
  match x, y with
  | NaN, _ | _, NaN => NaN
  | Infinity s, Infinity t => if Bool.eqb s t then Infinity s else NaN
  | Infinity s, Num _ | Num _, Infinity s => Infinity s
  | Num a, Num b => Num (fl (a + b))
  end.

(** [-x]. *)
Definition js_neg (x : number) : number :=
  match x with
  | NaN => NaN
  | Infinity s => Infinity (negb s)
  | Num a => Num (- a)
  end.

(** [x - y]. *)
Definition js_sub (x y : number) : number := js_add x (js_neg y).

(** [x * y]. *)
Definition js_mul (x y : number) : number :=
  match x, y with
  | NaN, _ | _, NaN => NaN
  | Infinity s, Infinity t => Infinity (xorb s t)
  | Infinity s, Num b => if b =? 0 then NaN else Infinity (xorb s (b <? 0))
  | Num a, Infinity t => if a =? 0 then NaN else Infinity (xorb (a <? 0) t)
  | Num a, Num b => Num (fl (a * b))
  end.

(** [x % y]: the remainder has the sign of the dividend and is exact. *)
Definition js_rem (x y : number) : number :=
  match x, y with
  | NaN, _ | _, NaN => NaN
  | Infinity _, _ => NaN
  | Num a, Infinity _ => Num a
  | Num a, Num b => if b =? 0 then NaN else Num (Z.rem a b)
  end.

(** [Math.abs(x)]. *)
Definition Math_abs (x : number) : number :=
  match x with
  | NaN => NaN
  | Infinity _ => Infinity false
  | Num a => Num (Z.abs a)
  end.

(** [x < y], [x >= y], [x > y], [x === y] on numbers: every comparison with
    [NaN] is false. *)
Definition js_lt (x y : number) : bool :=
  match x, y with
  | NaN, _ | _, NaN => false
  | Infinity s, Infinity t => s && negb t
  | Infinity s, Num _ => s
  | Num _, Infinity t => negb t
  | Num a, Num b => a <? b
  end.

Definition js_gt (x y : number) : bool := js_lt y x.

Definition js_eq (x y : number) : bool :=
  match x, y with
  | NaN, _ | _, NaN => false
  | Infinity s, Infinity t => Bool.eqb s t
  | Num a, Num b => a =? b
  | _, _ => false
  end.

Definition js_ge (x y : number) : bool := js_gt x y || js_eq x y.

(** Truthiness of a number: [0] and [NaN] are falsy. *)
Definition truthy (x : number) : bool :=
  match x with
  | NaN => false
  | Infinity _ => true
  | Num a => negb (a =? 0)
  end.

(** *** 32-bit integer conversions and the bitwise operators *)

Definition wrap_int32 (z : Z) : Z := (z + 2 ^ 31) mod 2 ^ 32 - 2 ^ 31.

Definition ToInt32 (x : number) : Z :=
  match x with
  | Num a => wrap_int32 a
  | _ => 0
  end.

Definition ToUint32 (x : number) : Z :=
  match x with
  | Num a => a mod 2 ^ 32
  | _ => 0
  end.

(** [x & y], [x | y], [x ^ y], [~x]. *)
Definition js_and (x y : number) : number := Num (Z.land (ToInt32 x) (ToInt32 y)).
Definition js_or (x y : number) : number := Num (Z.lor (ToInt32 x) (ToInt32 y)).
Definition js_xor (x y : number) : number := Num (Z.lxor (ToInt32 x) (ToInt32 y)).
Definition js_not (x : number) : number := Num (Z.lnot (ToInt32 x)).

(** [x << k], [x >> k] (sign-propagating) and [x >>> k] (zero-fill), for a
    shift count [k] below 32. *)
Definition js_shl (x : number) (k : Z) : number :=
  Num (wrap_int32 (Z.shiftl (ToInt32 x) k)).
Definition js_sar (x : number) (k : Z) : number :=
  Num (Z.shiftr (ToInt32 x) k).
Definition js_shr (x : number) (k : Z) : number :=
  Num (Z.shiftr (ToUint32 x) k).

(** *** Quotients

    [x / d] for a positive finite divisor [d].  The quotient of two doubles
    is in general not an integer; it is kept as the exact rational.  For the
    divisor [VAL32 = 2^32] the double quotient is this rational exactly
    (scaling by a power of two only changes the exponent).  For the divisor
    [10^11] the double quotient is the rational rounded to 53 bits, and the
    program only takes its [Math.floor]: the dividends there are integers
    below [2^53], so a quotient that is not an integer lies at least
    [10^-11] below the next integer while the rounding error is below
    [10^-11], and the floor of the double is the floor of the rational. *)
Inductive fraction : Type :=
| FNaN
| FInfinity (negative : bool)
| Frac (q : Q).

Definition js_div (x : number) (d : Z) : fraction :=
  match x with
  | NaN => FNaN
  | Infinity s => FInfinity s
  | Num a => Frac (Qmake a 1 / Qmake d 1)
  end.

(** [f > d] for an integer [d]. *)
Definition frac_gt (f : fraction) (d : Z) : bool :=
  match f with
  | FNaN => false
  | FInfinity s => negb s
  | Frac q => negb (Qle_bool q (Qmake d 1))
  end.

(** Truncation towards zero. *)
Definition Qtrunc (q : Q) : Z :=
  if Qnum q <? 0 then Qceiling q else Qfloor q.

(** [f | 0]. *)
Definition frac_or0 (f : fraction) : number :=
  match f with
  | Frac q => Num (wrap_int32 (Qtrunc q))
  | _ => Num 0
  end.

(** [Math.floor(f)]. *)
Definition Math_floor (f : fraction) : number :=
  match f with
  | FNaN => NaN
  | FInfinity s => Infinity s
  | Frac q => Num (Qfloor q)
  end.

(** ** Strings *)

(** A digit's character in [Number.prototype.toString]: lowercase. *)
Definition digit_char (d : Z) : ascii :=
  if d <? 10 then ascii_of_N (Z.to_N (48 + d)) else ascii_of_N (Z.to_N (87 + d)).

Fixpoint digits_of (fuel : nat) (radix z : Z) (acc : string) : string :=
  match fuel with
  | O => acc
  | S fuel' =>
      let acc' := String (digit_char (z mod radix)) acc in
      if z / radix =? 0 then acc' else digits_of fuel' radix (z / radix) acc'
  end.

(** [n.toString(radix)] and [String(n)] for the numbers of this model.  An
    integer is printed positionally, which is JavaScript's output for a
    magnitude below [10^21]; everything the program prints is below [2^64]. *)
Definition Number_toString (n : number) (radix : Z) : string :=
  match n with
  | NaN => "NaN"
  | Infinity false => "Infinity"
  | Infinity true => "-Infinity"
  | Num z =>
      (if z <? 0 then "-" else "") +:+
      digits_of (S (Z.to_nat (Z.log2 (Z.abs z)))) radix (Z.abs z) ""
  end.

Definition String_ (n : number) : string := Number_toString n 10.

(** [s.slice(start, end)] and [s.substr(start, length)]; [None] is an
    omitted argument. *)
Definition js_slice (s : string) (start : Z) (end_ : option Z) : string :=
  let len := Z.of_nat (String.length s) in
  let from := if start <? 0 then Z.max (len + start) 0 else Z.min start len in
  let e := default len end_ in
  let to := if e <? 0 then Z.max (len + e) 0 else Z.min e len in
  substring (Z.to_nat from) (Z.to_nat (Z.max (to - from) 0)) s.

Definition js_substr (s : string) (start : Z) (length_ : option Z) : string :=
  let len := Z.of_nat (String.length s) in
  let from := if start <? 0 then Z.max (len + start) 0 else Z.min start len in
  let n := Z.min (Z.max (default (len - from) length_) 0) (len - from) in
  substring (Z.to_nat from) (Z.to_nat n) s.

(** [s.replace(/^0x/, '')]: the pattern is case-sensitive. *)
Definition replace_0x (s : string) : string :=
  match s with
  | String "0" (String "x" rest) => rest
  | _ => s
  end.

(** The value of a digit character in the given radix, if it is one. *)
Definition digit_value (radix : Z) (c : ascii) : option Z :=
  let n := Z.of_N (N_of_ascii c) in
  let d := if (48 <=? n) && (n <=? 57) then n - 48
           else if (97 <=? n) && (n <=? 122) then n - 87
           else if (65 <=? n) && (n <=? 90) then n - 55
           else radix in
  if d <? radix then Some d else None.

(** The longest prefix of digits of [s], read in the given radix, with the
    number of digits read. *)
Fixpoint read_digits (radix : Z) (s : string) (acc : Z) (count : nat) : Z * nat :=
  match s with
  | EmptyString => (acc, count)
  | String c rest =>
      match digit_value radix c with
      | Some d => read_digits radix rest (acc * radix + d) (S count)
      | None => (acc, count)
      end
  end.

Definition is_white_space (c : ascii) : bool :=
  let n := N_of_ascii c in
  ((9 <=? n) && (n <=? 13))%N || (n =? 32)%N.

Fixpoint trim_start (s : string) : string :=
  match s with
  | String c rest => if is_white_space c then trim_start rest else s
  | EmptyString => s
  end.

(** [parseInt(s, 16)]: leading white space, a sign and a [0x] or [0X]
    prefix are skipped, then the longest run of hexadecimal digits is read;
    [NaN] when there is none. *)
Definition parseInt16 (s : string) : number :=
  let s := trim_start s in
  let '(sign, s) := match s with
                    | String "-" rest => (-1, rest)
                    | String "+" rest => (1, rest)
                    | _ => (1, s)
                    end in
  let s := match s with
           | String "0" (String "x" rest) => rest
           | String "0" (String "X" rest) => rest
           | _ => s
           end in
  let '(v, count) := read_digits 16 s 0 0 in
  match count with
  | O => NaN
  | _ => Num (sign * fl v)
  end.

(** [+s], the conversion of a string to a number, for the strings this
    development needs: the empty string is [0]; an optional sign followed
    by decimal digits only is that integer, rounded to a double when long;
    any other text is taken to [NaN].  (JavaScript also accepts white
    space, fractions, exponents, radix prefixes and [Infinity] here; such
    texts are outside the model, and no statement below applies [+] to
    one.) *)
Definition all_digits (s : string) : bool :=
  let '(_, count) := read_digits 10 s 0 0 in
  (0 <? count)%nat && (count =? String.length s)%nat.

Definition StringToNumber (s : string) : number :=
  match s with
  | EmptyString => Num 0
  | String "-" rest =>
      if all_digits rest then Num (- fl (fst (read_digits 10 rest 0 0))) else NaN
  | String "+" rest =>
      if all_digits rest then Num (fl (fst (read_digits 10 rest 0 0))) else NaN
  | _ => if all_digits s then Num (fl (fst (read_digits 10 s 0 0))) else NaN
  end.


(** ** Buffers *)

(** An element read from a buffer, [b[i]]: an octet or [undefined]. *)
Definition ToNumber (v : option Z) : number :=
  match v with
  | Some z => Num z
  | None => NaN
  end.

(** [v === w] on two elements read from buffers. *)
Definition elem_eq (v w : option Z) : bool :=
  match v, w with
  | Some a, Some b => a =? b
  | None, None => true
  | _, _ => false
  end.

(** [b[i] = v]: the value is converted to an octet; an index outside the
    buffer is ignored. *)
Definition store (b : list Z) (i : nat) (v : number) : list Z :=
  <[i := ToInt32 v mod 256]> b.

(** [Buffer.alloc(n)]: zero-filled. *)
Definition Buffer_alloc (n : nat) : list Z := replicate n 0.

(** ** Errors *)

Inductive exn : Type := RangeError | Error.

Inductive result (A : Type) : Type :=
| Ok (a : A)
| Throw (e : exn).
Arguments Ok {A} a.
Arguments Throw {A} e.

#[global] Instance result_ret : MRet result := fun _ a => Ok a.
#[global] Instance result_bind : MBind result := fun _ _ f r =>
  match r with
  | Ok a => f a
  | Throw e => Throw e
  end.

(** ** Constants of [index.ts] *)

Definition POW2_24 : Z := 2 ^ 24.
Definition POW2_31 : Z := 2 ^ 31.
Definition POW2_32 : Z := 2 ^ 32.
Definition POW10_11 : Z := 10 ^ 11.
Definition VAL32 : Z := 0x100000000.
Definition MAX_INT : Z := 2 ^ 53.

(** [_HEX[i] = (i > 0xF ? '' : '0') + i.toString(16)] for [i] from 0 to
    255; any other index of the table is [undefined]. *)
Definition _HEX (i : option Z) : option string :=
  match i with
  | Some i =>
      if (0 <=? i) && (i <? 256)
      then Some ((if i >? 0xF then "" else "0") +:+ Number_toString (Num i) 16)
      else None
  | None => None
  end.

(** [for (let i = 7; i >= 0; i--)]: the indices in the order visited. *)
Definition from_7_down_to_0 : list nat := [7; 6; 5; 4; 3; 2; 1; 0]%nat.

(** [for (let i = 0; i < 8; i++)]. *)
Definition from_0_up_to_7 : list nat := [0; 1; 2; 3; 4; 5; 6; 7]%nat.

(** ** Int64 *)

Record Int64 : Type := mkInt64 { buffer : list Z; offset : nat }.

(** The arguments of the constructor and of [setValue]: none, one (a
    string, a number, or a value that is neither), or the pair [(hi, lo)]. *)
Inductive argument : Type :=
| Str (s : string)
| Number (n : number)
| Other.

Inductive arguments : Type :=
| Args0
| Args1 (a : argument)
| Args2 (hi lo : number).

(** [_2scomp()]: two's complement in place. *)
Definition _2scomp_step (st : list Z * number) (i : nat) : list Z * number :=
  let '(b, carry) := st in
  let v := js_add (js_xor (ToNumber (b !! i)) (Num 0xff)) carry in
  (store b i (js_and v (Num 0xff)), js_sar v 8).

Definition _2scomp (this : Int64) : Int64 :=
  let b := buffer this in
  let o := offset this in
  let carry := Num 1 in
  let '(b, _) :=
    fold_left _2scomp_step (map (Nat.add o) from_7_down_to_0) (b, carry) in
  mkInt64 b o.

(** The loop of [setValue] that copies [hi] and [lo] to the buffer. *)
Definition copy_bytes_step (o : nat) (hi : number)
    (st : list Z * number) (i : nat) : list Z * number :=
  let '(b, lo) := st in
  (store b (o + i) (js_and lo (Num 0xff)),
   if (i =? 4)%nat then hi else js_shr lo 8).

Definition copy_bytes (this : Int64) (hi lo : number) : Int64 :=
  let b := buffer this in
  let o := offset this in
  let '(b, _) := fold_left (copy_bytes_step o hi) from_7_down_to_0 (b, lo) in
  mkInt64 b o.

(** [setValue(...)].  With no argument [hi] and [lo] are [undefined], which
    the bitwise operators of the copy loop read as [NaN] does. *)
Definition setValue (this : Int64) (args : arguments) : result Int64 :=
  '(negate, hi, lo) ←
    match args with
    | Args1 (Number hi) =>
        let negate := js_lt hi (Num 0) in
        let hi := Math_abs hi in
        let lo := js_rem hi (Num VAL32) in
        let hi := js_div hi VAL32 in
        if frac_gt hi VAL32 then Throw RangeError
        else
          let hi := frac_or0 hi in
          Ok (negate, hi, lo)
    | Args1 (Str hi) =>
        let hi := replace_0x hi in
        let loStr := js_substr hi (-8) None in
        let hi := if (8 <? String.length hi)%nat
                  then js_substr hi 0 (Some (Z.of_nat (String.length hi) - 8))
                  else "" in
        let hi := parseInt16 hi in
        let lo := parseInt16 loStr in
        Ok (false, hi, lo)
    | Args1 Other => Throw Error
    | Args0 => Ok (false, NaN, NaN)
    | Args2 hi lo => Ok (false, hi, lo)
    end;
  let this := copy_bytes this hi lo in
  mret (if negate : bool then _2scomp this else this).

(** [new Int64(buffer, offset)]: the buffer is kept, not copied. *)
Definition Construct_buffer (a1 : list Z) (a2 : nat) : Int64 := mkInt64 a1 a2.

(** [new Int64(...)] for the other argument forms. *)
Definition Construct (args : arguments) : result Int64 :=
  setValue (mkInt64 (Buffer_alloc 8) 0) args.

(** [toNumber(allowImprecise)]. *)
Definition toNumber_step (b : list Z) (o : nat) (negate : number)
    (st : number * number * number) (i : nat) : number * number * number :=
  let '(x, carry, m) := st in
  let v := ToNumber (b !! (o + i)%nat) in
  let '(v, carry) :=
    if truthy negate then
      let v := js_add (js_xor v (Num 0xff)) carry in
      let carry := js_sar v 8 in
      let v := js_and v (Num 0xff) in
      (v, carry)
    else (v, carry) in
  (js_add x (js_mul v m), carry, js_mul m (Num 256)).

Definition toNumber (this : Int64) (allowImprecise : bool) : number :=
  let b := buffer this in
  let o := offset this in
  let negate := js_and (ToNumber (b !! o)) (Num 0x80) in
  let '(x, _, _) :=
    fold_left (toNumber_step b o negate) from_7_down_to_0 (Num 0, Num 1, Num 1) in
  if negb allowImprecise && js_ge x (Num MAX_INT) then
    if truthy negate then Infinity true else Infinity false
  else
    if truthy negate then js_neg x else x.

(** [valueOf()]. *)
Definition valueOf (this : Int64) : number := toNumber this false.

(** [toString(radix)]; the default radix is 10. *)
Definition toString (this : Int64) (radix : Z) : string :=
  Number_toString (valueOf this) radix.

(** [toOctetString(sep)]; [join] prints an [undefined] entry as the empty
    string. *)
Fixpoint join (sep : string) (out : list (option string)) : string :=
  match out with
  | [] => ""
  | [s] => default "" s
  | s :: rest => default "" s +:+ sep +:+ join sep rest
  end.

Definition toOctetString (this : Int64) (sep : string) : string :=
  let b := buffer this in
  let o := offset this in
  let out := map (fun i => _HEX (b !! (o + i)%nat)) from_0_up_to_7 in
  join sep out.

(** [compare(other)]. *)
Fixpoint compare_loop (this other : Int64) (indices : list nat) : number :=
  match indices with
  | [] => Num 0
  | i :: rest =>
      let x := buffer this !! (offset this + i)%nat in
      let y := buffer other !! (offset other + i)%nat in
      if negb (elem_eq x y) then js_sub (ToNumber x) (ToNumber y)
      else compare_loop this other rest
  end.

Definition compare (this other : Int64) : number :=
  let x := ToNumber (buffer this !! offset this) in
  let y := ToNumber (buffer other !! offset other) in
  if negb (js_eq (js_and x (Num 0x80)) (js_and y (Num 0x80))) then js_sub y x
  else compare_loop this other from_0_up_to_7.

(** [equals(other)]. *)
Definition equals (this other : Int64) : bool :=
  js_eq (compare this other) (Num 0).

(** The loop of [toDecimalString] that writes the magnitude of a negative
    value to a scratch buffer. *)
Definition scratch_step (b : list Z) (o : nat)
    (st : list Z * bool) (i : nat) : list Z * bool :=
  let '(buffer, incremented) := st in
  let v := ToNumber (b !! (o + i)%nat) in
  (store buffer i
     (js_and (js_add (js_not v) (if incremented then Num 0 else Num 1)) (Num 0xff)),
   incremented || truthy v).

(** [b[i]] where a number is expected. *)
Definition at_ (b : list Z) (i : nat) : number := ToNumber (b !! i).

(** The test of [toDecimalString]:
    [(!b[o] && !(b[o + 1] & 0xe0)) || (!~b[o] && !~(b[o + 1] & 0xe0))]. *)
Definition magnitude_is_small (b : list Z) (o : nat) : bool :=
  (negb (truthy (at_ b o))
   && negb (truthy (js_and (at_ b (o + 1)%nat) (Num 0xe0))))
  || (negb (truthy (js_not (at_ b o)))
      && negb (truthy (js_not (js_and (at_ b (o + 1)%nat) (Num 0xe0))))).

(** [toDecimalString()]. *)
Definition toDecimalString (this : Int64) : string :=
  let b := buffer this in
  let o := offset this in
  if magnitude_is_small b o then
    (* The magnitude is small enough. *)
    toString this 10
  else
    let negative := js_and (at_ b o) (Num 0x80) in
    let b :=
      if truthy negative then
        (* 2's complement *)
        let incremented := false in
        let buffer := Buffer_alloc 8 in
        let '(buffer, _) :=
          fold_left (scratch_step b o) from_7_down_to_0 (buffer, incremented) in
        buffer
      else b in
    let high2 := js_add (at_ b (o + 1)%nat) (js_shl (at_ b o) 8) in
    (* Lesser 11 digits with exceeding values but is under 53 bits capacity. *)
    let low :=
      js_add
        (js_add
           (js_add
              (js_add
                 (js_add (at_ b (o + 7)%nat) (js_shl (at_ b (o + 6)%nat) 8))
                 (js_shl (at_ b (o + 5)%nat) 16))
              (js_mul (at_ b (o + 4)%nat) (Num POW2_24)))
           (js_mul
              (js_add (at_ b (o + 3)%nat) (js_shl (at_ b (o + 2)%nat) 8))
              (Num POW2_32)))
        (js_mul high2 (Num 74976710656)) in
    (* 12th digit and greater. *)
    let high :=
      js_add (Math_floor (js_div low POW10_11)) (js_mul high2 (Num 2814)) in
    (* Make it exactly 11 with leading zeros. *)
    let lowStr :=
      js_slice ("00000000000" +:+ String_ (js_rem low (Num POW10_11))) (-11) None in
    (if truthy negative then "-" else "") +:+ String_ high +:+ lowStr.

(** [Int64.fromDecimalString(text)]. *)
Definition fromDecimalString (text : string) : result Int64 :=
  let negative :=
    match String.get 0 text with
    | Some "-"%char => true
    | _ => false
    end in
  if (String.length text <? (if negative then 17 else 16))%nat then
    (* The magnitude is smaller than 2^53. *)
    Construct (Args1 (Number (StringToNumber text)))
  else if ((if negative then 20 else 19) <? String.length text)%nat then
    Throw RangeError
  else
    let high5 :=
      StringToNumber (js_slice text (if negative then 1 else 0) (Some (-15))) in
    let low :=
      js_add (StringToNumber (js_slice text (-15) None))
             (js_mul high5 (Num 2764472320)) in
    let high :=
      js_add (Math_floor (js_div low POW2_32)) (js_mul high5 (Num 232830)) in
    let low := js_rem low (Num POW2_32) in
    if js_ge high (Num POW2_31)
       && negb (negative && js_eq high (Num POW2_31) && js_eq low (Num 0))
    then Throw RangeError
    else
      let '(high, low) :=
        if negative then
          (* 2's complement *)
          let high := js_not high in
          let '(high, low) :=
            if js_eq low (Num 0)
            then (js_and (js_add high (Num 1)) (Num 0xffffffff), low)
            else (high, js_add (js_not low) (Num 1)) in
          (js_or (Num 0x80000000) high, low)
        else (high, low) in
      Construct (Args2 high low).

(** ** Copies

    [source.copy(target, targetStart, sourceStart, sourceEnd)] of Node's
    [Buffer], for indices that are non-negative integers (as [offset] is).
    A [sourceStart] beyond the source is a [RangeError]; nothing is copied
    when [targetStart] is at or beyond the end of the target or the source
    range is empty; otherwise the range is cut down to what the source
    holds and to what fits in the target, which never grows.  The result is
    the target after the call. *)
Definition Buffer_copy (source target : list Z)
    (targetStart sourceStart sourceEnd : nat) : result (list Z) :=
  if (length source <? sourceStart)%nat then Throw RangeError
  else if (length target <=? targetStart)%nat || (sourceEnd <=? sourceStart)%nat
  then Ok target
  else
    let nb := Nat.min (Nat.min (sourceEnd - sourceStart)
                               (length target - targetStart))
                      (length source - sourceStart) in
    Ok (take targetStart target
        ++ take nb (drop sourceStart source)
        ++ drop (targetStart + nb) target).

(** [toBuffer(rawBuffer)]: the internal buffer itself when [rawBuffer] is
    set and the offset is 0, a fresh buffer of eight octets otherwise. *)
Definition toBuffer (this : Int64) (rawBuffer : bool) : result (list Z) :=
  if rawBuffer && (offset this =? 0)%nat then Ok (buffer this)
  else
    let out := Buffer_alloc 8 in
    Buffer_copy (buffer this) out 0 (offset this) (offset this + 8).

(** [copy(targetBuffer, targetOffset)]; the result is the target buffer
    after the call. *)
Definition copy (this : Int64) (targetBuffer : list Z) (targetOffset : nat)
    : result (list Z) :=
  Buffer_copy (buffer this) targetBuffer targetOffset
              (offset this) (offset this + 8).

(** [inspect()]: the template literal converts [this] with [toString()]. *)
Definition inspect (this : Int64) : string :=
  "[Int64 value: " +:+ toString this 10 +:+ " octets: "
  +:+ toOctetString this " " +:+ "]".

(** * Specification

    The notions the statements below are phrased in.  None of them is part
    of the program. *)

(** ** Values *)

Definition is_byte (z : Z) : Prop := 0 <= z < 256.

(** The eight octets of the value: [buffer[offset .. offset+8)]. *)
Definition logical (x : Int64) : list Z := take 8 (drop (offset x) (buffer x)).

(** [buffer.length - offset >= 8], and the buffer holds octets. *)
Definition valid (x : Int64) : Prop :=
  (offset x + 8 <= length (buffer x))%nat /\ Forall is_byte (buffer x).

(** Big-endian unsigned value of a list of octets. *)
Definition unsigned (l : list Z) : Z := fold_left (fun acc b => acc * 256 + b) l 0.

(** The signed 64-bit integer encoded by the eight octets, two's complement. *)
Definition int64_value (x : Int64) : Z :=
  let u := unsigned (logical x) in
  if u <? 2 ^ 63 then u else u - 2 ^ 64.

(** The four octets of a 32-bit word, most significant first. *)
Definition be32 (u : Z) : list Z :=
  [u / 2 ^ 24 mod 256; u / 2 ^ 16 mod 256; u / 2 ^ 8 mod 256; u mod 256].

(** The [n] low digits of [u] in a radix, most significant first, and the
    eight hexadecimal digits of a 32-bit word. *)
Fixpoint fixed_digits (radix : Z) (n : nat) (u : Z) : string :=
  match n with
  | O => ""
  | S n' =>
      fixed_digits radix n' (u / radix) +:+ String (digit_char (u mod radix)) ""
  end.

Definition hex32 (u : Z) : string := fixed_digits 16 8 u.

(** Lexicographic comparison of two lists of octets: the difference at the
    first position where they differ, 0 when there is none. *)
Fixpoint first_difference (l1 l2 : list Z) : Z :=
  match l1, l2 with
  | x :: l1', y :: l2' => if x =? y then first_difference l1' l2' else x - y
  | _, _ => 0
  end.

(** The sign bit of the value: bit 7 of its first octet. *)
Definition sign_bit (x : Int64) : bool :=
  match logical x with
  | b0 :: _ => 128 <=? b0
  | [] => false
  end.

(** ** Doubles *)

(** [x] is the double a loop holds where the exact sum is [S]: equal to it
    up to [2^53], and at least [2^53] once the sum is beyond. *)
Definition tracks (x : number) (S : Z) : Prop :=
  exists xz, x = Num xz /\ ((xz = S /\ S <= 2 ^ 53) \/ (2 ^ 53 <= xz /\ 2 ^ 53 < S)).



(** ** Digit strings *)

(** The first [n] characters of a string, and the rest. *)
Fixpoint str_take (n : nat) (s : string) : string :=
  match n, s with
  | S n', String c rest => String c (str_take n' rest)
  | _, _ => ""
  end.

Fixpoint str_drop (n : nat) (s : string) : string :=
  match n, s with
  | S n', String _ rest => str_drop n' rest
  | _, _ => s
  end.

(** Every character is a digit of the radix. *)
Fixpoint digits_only (radix : Z) (s : string) : bool :=
  match s with
  | EmptyString => true
  | String c rest =>
      match digit_value radix c with
      | Some _ => digits_only radix rest
      | None => false
      end
  end.

(** The value of a string of digits, most significant first. *)
Fixpoint digits_value (radix : Z) (s : string) (acc : Z) : Z :=
  match s with
  | EmptyString => acc
  | String c rest =>
      digits_value radix rest (acc * radix + default 0 (digit_value radix c))
  end.

(** How the specification splits hexadecimal digits: the last eight (or
    all, if fewer) are [lo], those before them are [hi]. *)
Definition hi_digits (d : string) : string := str_take (String.length d - 8) d.
Definition lo_digits (d : string) : string := str_drop (String.length d - 8) d.
Definition hex_value (d : string) : Z := digits_value 16 d 0.

(** The prefix of a hexadecimal string: none, [0x] or [0X]. *)
Inductive hex_prefix : Type := NoPrefix | Lower0x | Upper0X.

Definition with_prefix (p : hex_prefix) (d : string) : string :=
  match p with
  | NoPrefix => d
  | Lower0x => String "0" (String "x" d)
  | Upper0X => String "0" (String "X" d)
  end.

(** A decimal numeral: an optional minus sign and decimal digits. *)
Definition numeral (neg : bool) (ds : string) : string :=
  if neg then String "-" ds else ds.

(** [s] is the canonical decimal rendering of [v]: the significant digits
    of the magnitude (a single [0] for zero), behind a minus sign exactly
    when [v] is negative. *)
Definition canonical (s : string) (v : Z) : Prop :=
  exists n : nat,
    (1 <= n)%nat /\ Z.abs v < 10 ^ Z.of_nat n
    /\ (n = 1%nat \/ 10 ^ (Z.of_nat n - 1) <= Z.abs v)
    /\ s = numeral (v <? 0) (fixed_digits 10 n (Z.abs v)).

(** [s] is the rendering of [v] in a radix: the significant digits of the
    magnitude, lowercase, behind a minus sign exactly when [v] is
    negative. *)
Definition canonical_in (radix : Z) (s : string) (v : Z) : Prop :=
  exists n : nat,
    (1 <= n)%nat /\ Z.abs v < radix ^ Z.of_nat n
    /\ (n = 1%nat \/ radix ^ (Z.of_nat n - 1) <= Z.abs v)
    /\ s = numeral (v <? 0) (fixed_digits radix n (Z.abs v)).

(** * Properties *)

(** ** The value a buffer window denotes *)

(** ** Octets *)

Lemma forall_bytes (f : Z -> bool) :
  forallb f (map Z.of_nat (seq 0 256)) = true ->
  forall z, is_byte z -> f z = true.
Proof.
  intros H z Hz. rewrite forallb_forall in H. apply H.
  apply in_map_iff. exists (Z.to_nat z). split; [unfold is_byte in Hz; lia|].
  apply in_seq. unfold is_byte in Hz. lia.
Qed.

Lemma wrap_int32_small z : - 2 ^ 31 <= z < 2 ^ 31 -> wrap_int32 z = z.
Proof.
  intros H. unfold wrap_int32. rewrite Z.mod_small; lia.
Qed.

Lemma wrap_int32_mod z k :
  0 <= k <= 32 -> wrap_int32 z mod 2 ^ k = z mod 2 ^ k.
Proof.
  intros Hk. unfold wrap_int32.
  replace ((z + 2 ^ 31) mod 2 ^ 32 - 2 ^ 31)
    with (z + (- ((z + 2 ^ 31) / 2 ^ 32) * 2 ^ (32 - k)) * 2 ^ k).
  - apply Z.mod_add. apply Z.pow_nonzero; lia.
  - rewrite <- Z.mul_assoc, <- Z.pow_add_r by lia.
    replace (32 - k + k) with 32 by lia.
    pose proof (Z.div_mod (z + 2 ^ 31) (2 ^ 32)). lia.
Qed.

Lemma land_255 z : Z.land z 255 = z mod 256.
Proof. change 255 with (Z.ones 8). rewrite Z.land_ones by lia. reflexivity. Qed.

Lemma js_and_255 z : js_and (Num z) (Num 0xff) = Num (z mod 256).
Proof.
  unfold js_and, ToInt32. rewrite (wrap_int32_small 255) by lia.
  rewrite land_255. f_equal. apply (wrap_int32_mod z 8). lia.
Qed.

Lemma js_shr_8 z : js_shr (Num z) 8 = Num (z mod 2 ^ 32 / 256).
Proof.
  unfold js_shr, ToUint32. rewrite Z.shiftr_div_pow2 by lia. reflexivity.
Qed.

Lemma store_byte b i z :
  store b i (Num (z mod 256)) = <[i := z mod 256]> b.
Proof.
  unfold store, ToInt32. f_equal.
  change 256 with (2 ^ 8). rewrite (wrap_int32_mod _ 8) by lia.
  apply Z.mod_mod. lia.
Qed.

(** ** Windows of a buffer *)

Lemma window_split (b : list Z) (o : nat) :
  (o + 8 <= length b)%nat ->
  exists pre w0 w1 w2 w3 w4 w5 w6 w7 post,
    b = pre ++ [w0; w1; w2; w3; w4; w5; w6; w7] ++ post /\ length pre = o.
Proof.
  intros Hlen. exists (take o b).
  assert (Hd : (length (drop o b) >= 8)%nat) by (rewrite length_drop; lia).
  destruct (drop o b) as [|w0 [|w1 [|w2 [|w3 [|w4 [|w5 [|w6 [|w7 post]]]]]]]] eqn:E;
    simpl in Hd; try lia.
  exists w0, w1, w2, w3, w4, w5, w6, w7, post. split.
  - change ([w0; w1; w2; w3; w4; w5; w6; w7] ++ post)
      with (w0 :: w1 :: w2 :: w3 :: w4 :: w5 :: w6 :: w7 :: post).
    rewrite <- E. symmetry. apply take_drop.
  - rewrite length_take. lia.
Qed.

Lemma valid_window x :
  valid x ->
  exists pre w0 w1 w2 w3 w4 w5 w6 w7 post,
    buffer x = pre ++ [w0; w1; w2; w3; w4; w5; w6; w7] ++ post /\
    length pre = offset x /\
    Forall is_byte [w0; w1; w2; w3; w4; w5; w6; w7].
Proof.
  intros [Hlen Hb].
  destruct (window_split _ _ Hlen)
    as (pre & w0 & w1 & w2 & w3 & w4 & w5 & w6 & w7 & post & E & Hpre).
  exists pre, w0, w1, w2, w3, w4, w5, w6, w7, post.
  split; [exact E|]. split; [exact Hpre|].
  rewrite E in Hb. apply Forall_app in Hb. destruct Hb as [_ Hb].
  apply Forall_app in Hb. destruct Hb as [Hb _]. exact Hb.
Qed.

Lemma lookup_window (pre l : list Z) (i : nat) :
  (pre ++ l) !! (length pre + i)%nat = l !! i.
Proof. induction pre; simpl; auto. Qed.

Lemma lookup_window0 (pre l : list Z) :
  (pre ++ l) !! (length pre) = l !! 0%nat.
Proof. rewrite <- (lookup_window pre l 0). f_equal. lia. Qed.

Lemma insert_window (pre l : list Z) (i : nat) (v : Z) :
  <[(length pre + i)%nat := v]> (pre ++ l) = pre ++ <[i := v]> l.
Proof. induction pre; simpl; [reflexivity|]. f_equal. exact IHpre. Qed.

Lemma logical_window pre w post o :
  length pre = o -> length w = 8%nat ->
  logical (mkInt64 (pre ++ w ++ post) o) = w.
Proof.
  intros Ho Hw. unfold logical. simpl. subst o.
  rewrite drop_app_length. rewrite <- Hw. apply take_app_length.
Qed.

(** ** Octet strings *)

Lemma HEX_byte z : is_byte z -> _HEX (Some z) = Some (fixed_digits 16 2 z).
Proof.
  intros Hz.
  pose (f := fun z => match _HEX (Some z) with
                      | Some s => String.eqb s (fixed_digits 16 2 z)
                      | None => false
                      end).
  assert (H : f z = true) by (apply forall_bytes; [vm_compute; reflexivity|exact Hz]).
  unfold f in H. destruct (_HEX (Some z)) as [s|]; [|discriminate].
  apply String.eqb_eq in H. congruence.
Qed.

Lemma append_cons (c : ascii) (a b : string) :
  String c a +:+ b = String c (a +:+ b).
Proof. reflexivity. Qed.

Lemma append_nil_l (a : string) : "" +:+ a = a.
Proof. reflexivity. Qed.

Lemma append_assoc (a b c : string) : (a +:+ b) +:+ c = a +:+ (b +:+ c).
Proof.
  induction a as [|x a IH]; [reflexivity|].
  rewrite !append_cons, IH. reflexivity.
Qed.

Lemma append_nil_r (a : string) : a +:+ "" = a.
Proof.
  induction a as [|x a IH]; [reflexivity|]. rewrite append_cons, IH. reflexivity.
Qed.

Lemma fixed_digits_app (radix : Z) (n m : nat) (u : Z) :
  0 < radix ->
  fixed_digits radix (n + m) u
  = fixed_digits radix n (u / radix ^ Z.of_nat m)
    +:+ fixed_digits radix m (u mod radix ^ Z.of_nat m).
Proof.
  intros Hr. revert u. induction m as [|m IH]; intros u.
  - rewrite Nat.add_0_r. cbn [fixed_digits Z.of_nat].
    rewrite Z.pow_0_r, Z.div_1_r, append_nil_r. reflexivity.
  - rewrite Nat.add_succ_r. cbn [fixed_digits]. rewrite IH.
    assert (Hp : 0 < radix ^ Z.of_nat m) by (apply Z.pow_pos_nonneg; lia).
    assert (Es : radix ^ Z.of_nat (S m) = radix * radix ^ Z.of_nat m).
    { rewrite Nat2Z.inj_succ, Z.pow_succ_r by lia. reflexivity. }
    rewrite append_assoc, Es. f_equal.
    + f_equal. rewrite Z.div_div by lia. reflexivity.
    + rewrite Z.rem_mul_r by lia.
      rewrite (Z.mul_comm radix), Z.div_add, Z.mod_add by lia.
      rewrite (Z.div_small (u mod radix) radix) by (apply Z.mod_pos_bound; lia).
      rewrite Z.add_0_l, Z.mod_mod by lia. reflexivity.
Qed.

Lemma fixed_digits_mod (radix : Z) (n : nat) (u : Z) :
  0 < radix ->
  fixed_digits radix n (u mod radix ^ Z.of_nat n) = fixed_digits radix n u.
Proof.
  intros Hr. pose proof (fixed_digits_app radix 0 n u Hr) as H.
  cbn [Nat.add] in H. rewrite H. reflexivity.
Qed.

Lemma hex_digits_be32 (u : Z) :
  fixed_digits 16 8 u
  = fixed_digits 16 2 (u / 2 ^ 24 mod 256) +:+ fixed_digits 16 2 (u / 2 ^ 16 mod 256)
    +:+ fixed_digits 16 2 (u / 2 ^ 8 mod 256) +:+ fixed_digits 16 2 (u mod 256).
Proof.
  rewrite (fixed_digits_app 16 6 2 u ltac:(lia) : fixed_digits 16 8 u = _).
  rewrite (fixed_digits_app 16 4 2 _ ltac:(lia) : fixed_digits 16 6 _ = _).
  rewrite (fixed_digits_app 16 2 2 _ ltac:(lia) : fixed_digits 16 4 _ = _).
  rewrite !append_assoc.
  change (16 ^ Z.of_nat 2) with 256.
  rewrite !Z.div_div by lia.
  rewrite <- (fixed_digits_mod 16 2 (u / (256 * (256 * 256))) ltac:(lia)).
  reflexivity.
Qed.

(** ** C4: the pair form *)

Lemma copy_bytes_window pre w0 w1 w2 w3 w4 w5 w6 w7 post o hi lo :
  length pre = o ->
  copy_bytes (mkInt64 (pre ++ [w0; w1; w2; w3; w4; w5; w6; w7] ++ post) o)
             (Num hi) (Num lo)
  = mkInt64 (pre ++ (be32 (hi mod 2 ^ 32) ++ be32 (lo mod 2 ^ 32)) ++ post) o.
Proof.
  intros Ho. subst o. unfold copy_bytes, from_7_down_to_0.
  cbn [buffer offset fold_left copy_bytes_step Nat.eqb].
  rewrite !js_shr_8, !js_and_255, !store_byte, !insert_window.
  f_equal. f_equal.
  cbn [insert list_insert app]. unfold be32. cbn [app].
  pose proof (Z.mod_pos_bound hi (2 ^ 32) ltac:(lia)) as Hh.
  pose proof (Z.mod_pos_bound lo (2 ^ 32) ltac:(lia)) as Hl.
  assert (Ehi : hi mod 256 = hi mod 2 ^ 32 mod 256).
  { change (2 ^ 32) with (256 * 2 ^ 24). rewrite Z.rem_mul_r by lia.
    rewrite Z.mul_comm, Z.mod_add by lia. rewrite Z.mod_mod by lia. reflexivity. }
  assert (Elo : lo mod 256 = lo mod 2 ^ 32 mod 256).
  { change (2 ^ 32) with (256 * 2 ^ 24). rewrite Z.rem_mul_r by lia.
    rewrite Z.mul_comm, Z.mod_add by lia. rewrite Z.mod_mod by lia. reflexivity. }
  rewrite Ehi, Elo.
  generalize dependent (hi mod 2 ^ 32). generalize dependent (lo mod 2 ^ 32).
  intros l Hl _ h Hh _.
  assert (D : forall x, 0 <= x < 2 ^ 32 -> (x / 256) mod 2 ^ 32 = x / 256).
  { intros x Hx. apply Z.mod_small. split; [apply Z.div_pos; lia|].
    apply Z.div_lt_upper_bound; lia. }
  assert (B : forall x, 0 <= x < 2 ^ 32 -> 0 <= x / 256 < 2 ^ 32).
  { intros x Hx. split; [apply Z.div_pos; lia|].
    apply Z.div_lt_upper_bound; lia. }
  rewrite !D by (repeat first [assumption | apply B | apply Z.mod_pos_bound; lia]).
  rewrite !Z.div_div by lia.
  reflexivity.
Qed.

Lemma is_byte_mod z : is_byte (z mod 256).
Proof. unfold is_byte. apply Z.mod_pos_bound. lia. Qed.

Lemma toOctetString_window pre w0 w1 w2 w3 w4 w5 w6 w7 post o :
  length pre = o ->
  Forall is_byte [w0; w1; w2; w3; w4; w5; w6; w7] ->
  toOctetString (mkInt64 (pre ++ [w0; w1; w2; w3; w4; w5; w6; w7] ++ post) o) ""
  = fixed_digits 16 2 w0 +:+ fixed_digits 16 2 w1 +:+ fixed_digits 16 2 w2 +:+ fixed_digits 16 2 w3
    +:+ fixed_digits 16 2 w4 +:+ fixed_digits 16 2 w5 +:+ fixed_digits 16 2 w6 +:+ fixed_digits 16 2 w7.
Proof.
  intros Ho Hw. subst o. unfold toOctetString, from_0_up_to_7.
  cbn [buffer offset map]. rewrite !lookup_window. cbn [lookup list_lookup app].
  repeat match goal with
         | H : Forall _ (_ :: _) |- _ => apply Forall_cons in H; destruct H
         end.
  rewrite !HEX_byte by assumption.
  cbn [join default]. rewrite ?append_nil_l. reflexivity.
Qed.

(** C4. [setValue(hi, lo)], and so [new Int64(hi, lo)], writes octets 0-3 of
    the window as [hi mod 2^32] and octets 4-7 as [lo mod 2^32], big-endian,
    whatever the integers [hi] and [lo] are; [toOctetString()] is then the
    sixteen hexadecimal digits of the two words. *)
Theorem setValue_pair_octets (this : Int64) (hi lo : Z) :
  (offset this + 8 <= length (buffer this))%nat ->
  (exists r, setValue this (Args2 (Num hi) (Num lo)) = Ok r
             /\ offset r = offset this
             /\ length (buffer r) = length (buffer this)
             /\ logical r = be32 (hi mod 2 ^ 32) ++ be32 (lo mod 2 ^ 32)
             /\ toOctetString r "" = hex32 (hi mod 2 ^ 32) +:+ hex32 (lo mod 2 ^ 32))
  /\ (exists c, Construct (Args2 (Num hi) (Num lo)) = Ok c
                /\ offset c = 0%nat
                /\ buffer c = be32 (hi mod 2 ^ 32) ++ be32 (lo mod 2 ^ 32)
                /\ toOctetString c "" = hex32 (hi mod 2 ^ 32) +:+ hex32 (lo mod 2 ^ 32)).
Proof.
  intros Hlen.
  assert (Hoct : forall pre post o, length pre = o ->
    toOctetString
      (mkInt64 (pre ++ (be32 (hi mod 2 ^ 32) ++ be32 (lo mod 2 ^ 32)) ++ post) o) ""
    = hex32 (hi mod 2 ^ 32) +:+ hex32 (lo mod 2 ^ 32)).
  { intros pre post o Ho.
    change (be32 (hi mod 2 ^ 32) ++ be32 (lo mod 2 ^ 32))
      with [hi mod 2 ^ 32 / 2 ^ 24 mod 256; hi mod 2 ^ 32 / 2 ^ 16 mod 256;
            hi mod 2 ^ 32 / 2 ^ 8 mod 256; hi mod 2 ^ 32 mod 256;
            lo mod 2 ^ 32 / 2 ^ 24 mod 256; lo mod 2 ^ 32 / 2 ^ 16 mod 256;
            lo mod 2 ^ 32 / 2 ^ 8 mod 256; lo mod 2 ^ 32 mod 256].
    rewrite (toOctetString_window pre _ _ _ _ _ _ _ _ post o Ho)
      by (repeat constructor; apply is_byte_mod).
    unfold hex32. rewrite !hex_digits_be32, !append_assoc. reflexivity. }
  split.
  - destruct this as [b o]. cbn [buffer offset] in *.
    destruct (window_split b o Hlen)
      as (pre & w0 & w1 & w2 & w3 & w4 & w5 & w6 & w7 & post & E & Hpre).
    subst b. eexists. unfold setValue. cbn [mbind result_bind mret result_ret].
    rewrite (copy_bytes_window _ _ _ _ _ _ _ _ _ _ _ _ _ Hpre).
    split; [reflexivity|]. cbn [buffer offset].
    split; [reflexivity|]. split; [|split].
    + rewrite !length_app. reflexivity.
    + apply logical_window; [exact Hpre|reflexivity].
    + apply Hoct. exact Hpre.
  - eexists. unfold Construct, setValue. cbn [mbind result_bind mret result_ret].
    change (Buffer_alloc 8) with ([] ++ [0; 0; 0; 0; 0; 0; 0; 0] ++ @nil Z).
    rewrite (copy_bytes_window [] _ _ _ _ _ _ _ _ [] 0%nat _ _ eq_refl).
    split; [reflexivity|]. cbn [buffer offset].
    split; [reflexivity|]. split.
    + cbn [app]. rewrite app_nil_r. reflexivity.
    + apply Hoct. reflexivity.
Qed.

Lemma setValue_pair_octets_witness :
  (offset (Construct_buffer (Buffer_alloc 16) 2) + 8
   <= length (buffer (Construct_buffer (Buffer_alloc 16) 2)))%nat
  /\ (exists r, setValue (Construct_buffer (Buffer_alloc 16) 2)
                  (Args2 (Num 0xfffaffff) (Num 0xfffff700)) = Ok r
             /\ logical r = [0xff; 0xfa; 0xff; 0xff; 0xff; 0xff; 0xf7; 0x00]
             /\ toOctetString r "" = "fffafffffffff700").
Proof.
  assert (H : (offset (Construct_buffer (Buffer_alloc 16) 2) + 8
               <= length (buffer (Construct_buffer (Buffer_alloc 16) 2)))%nat)
    by (vm_compute; lia).
  split; [exact H|].
  destruct (setValue_pair_octets _ 0xfffaffff 0xfffff700 H) as [(r & E & _ & _ & L & S) _].
  exists r. split; [exact E|]. split; [exact L|exact S].
Defined.

(** ** Rounding *)

Lemma fl_small z : Z.abs z <= 2 ^ 53 -> fl z = z.
Proof.
  intros H. unfold fl. destruct (Z.abs z <? 2 ^ 53) eqn:E; [reflexivity|].
  apply Z.ltb_ge in E.
  assert (Hz : z = 2 ^ 53 \/ z = - 2 ^ 53) by lia.
  destruct Hz as [-> | ->]; vm_compute; reflexivity.
Qed.

Lemma fl_ge z : 2 ^ 53 <= z -> 2 ^ 53 <= fl z.
Proof.
  intros H. unfold fl. rewrite (Z.abs_eq z) by lia.
  destruct (z <? 2 ^ 53) eqn:E; [exact H|].
  set (e := Z.log2 z - 52).
  assert (Hlog : 53 <= Z.log2 z) by (apply Z.log2_le_pow2; lia).
  assert (He : 1 <= e) by (unfold e; lia).
  assert (Hp : 0 < 2 ^ e) by (apply Z.pow_pos_nonneg; lia).
  assert (Hq : 2 ^ 52 <= z / 2 ^ e).
  { apply Z.div_le_lower_bound; [exact Hp|].
    rewrite Z.mul_comm, <- Z.pow_add_r by lia.
    replace (52 + e) with (Z.log2 z) by (unfold e; lia).
    apply Z.log2_spec. lia. }
  rewrite (proj2 (Z.sgn_pos_iff z)) by lia. rewrite Z.mul_1_l.
  assert (Hq' : forall q', z / 2 ^ e <= q' -> 2 ^ 53 <= q' * 2 ^ e).
  { intros q' Hle. change (2 ^ 53) with (2 ^ 52 * 2 ^ 1).
    apply Z.mul_le_mono_nonneg; try lia.
    apply Z.pow_le_mono_r; lia. }
  repeat match goal with
         | |- context [if ?c then _ else _] => destruct c
         end; apply Hq'; lia.
Qed.

Lemma fl_scaled a j : 0 <= a < 2 ^ 53 -> 0 <= j -> fl (a * 2 ^ j) = a * 2 ^ j.
Proof.
  intros Ha Hj. unfold fl.
  assert (Hpj : 0 < 2 ^ j) by (apply Z.pow_pos_nonneg; lia).
  rewrite (Z.abs_eq (a * 2 ^ j)) by (apply Z.mul_nonneg_nonneg; lia).
  destruct (a * 2 ^ j <? 2 ^ 53) eqn:E; [reflexivity|].
  apply Z.ltb_ge in E.
  assert (Hapos : 0 < a) by (destruct (Z.eq_dec a 0); [subst; simpl in E; lia|lia]).
  rewrite Z.log2_mul_pow2 by lia.
  set (e := j + Z.log2 a - 52).
  assert (Hla : Z.log2 a < 53) by (apply Z.log2_lt_pow2; lia).
  assert (Hej : e <= j) by (unfold e; lia).
  assert (He : 1 <= e).
  { unfold e. destruct (Z.lt_ge_cases (j + Z.log2 a) 53) as [Hlt|]; [|lia].
    exfalso. pose proof (Z.log2_spec a Hapos) as [_ Hup].
    assert (a * 2 ^ j < 2 ^ (Z.succ (Z.log2 a)) * 2 ^ j).
    { apply Z.mul_lt_mono_pos_r; lia. }
    rewrite <- Z.pow_add_r in H by (pose proof (Z.log2_nonneg a); lia).
    assert (2 ^ (Z.succ (Z.log2 a) + j) <= 2 ^ 53) by (apply Z.pow_le_mono_r; lia).
    lia. }
  assert (Hp : 0 < 2 ^ e) by (apply Z.pow_pos_nonneg; lia).
  assert (Hsplit : a * 2 ^ j = a * 2 ^ (j - e) * 2 ^ e).
  { rewrite <- Z.mul_assoc, <- Z.pow_add_r by lia. f_equal. f_equal. lia. }
  assert (Hmod : (a * 2 ^ j) mod 2 ^ e = 0).
  { rewrite Hsplit. apply Z.mod_mul. lia. }
  assert (Hdiv : (a * 2 ^ j) / 2 ^ e = a * 2 ^ (j - e)).
  { rewrite Hsplit. apply Z.div_mul. lia. }
  rewrite Hmod, Hdiv.
  assert (Hhalf : 0 < 2 ^ (e - 1)) by (apply Z.pow_pos_nonneg; lia).
  destruct (0 <? 2 ^ (e - 1)) eqn:F; [|apply Z.ltb_ge in F; lia].
  rewrite (proj2 (Z.sgn_pos_iff _)) by lia.
  rewrite Z.mul_1_l. symmetry. exact Hsplit.
Qed.

Lemma js_add_exact a b : Z.abs (a + b) <= 2 ^ 53 -> js_add (Num a) (Num b) = Num (a + b).
Proof. intros H. cbn [js_add]. rewrite fl_small by exact H. reflexivity. Qed.

Lemma js_sub_exact a b : Z.abs (a - b) <= 2 ^ 53 -> js_sub (Num a) (Num b) = Num (a - b).
Proof.
  intros H. unfold js_sub. cbn [js_neg]. rewrite js_add_exact; [reflexivity|].
  replace (a + - b) with (a - b) by lia. exact H.
Qed.

Lemma js_mul_exact a b : Z.abs (a * b) <= 2 ^ 53 -> js_mul (Num a) (Num b) = Num (a * b).
Proof. intros H. cbn [js_mul]. rewrite fl_small by exact H. reflexivity. Qed.

(** ** Sign bit *)

Lemma js_and_128 z :
  is_byte z -> js_and (Num z) (Num 0x80) = Num (if z <? 128 then 0 else 128).
Proof.
  intros Hz.
  pose (f := fun z => Z.land (ToInt32 (Num z)) (ToInt32 (Num 0x80))
                      =? (if z <? 128 then 0 else 128)).
  assert (H : f z = true) by (apply forall_bytes; [vm_compute; reflexivity|exact Hz]).
  unfold f in H. apply Z.eqb_eq in H. unfold js_and. rewrite H. reflexivity.
Qed.

(** ** C5: comparison *)

Lemma unsigned_window w0 w1 w2 w3 w4 w5 w6 w7 :
  unsigned [w0; w1; w2; w3; w4; w5; w6; w7]
  = w0 * 2 ^ 56 + w1 * 2 ^ 48 + w2 * 2 ^ 40 + w3 * 2 ^ 32
    + w4 * 2 ^ 24 + w5 * 2 ^ 16 + w6 * 2 ^ 8 + w7.
Proof. unfold unsigned. cbn [fold_left]. ring. Qed.

Ltac bytes_of H :=
  repeat match type of H with
         | Forall _ (_ :: _) =>
             let Hb := fresh "Hb" in
             apply Forall_cons in H; destruct H as [Hb H]; unfold is_byte in Hb
         end.

Lemma int64_value_window pre w0 w1 w2 w3 w4 w5 w6 w7 post o :
  length pre = o ->
  Forall is_byte [w0; w1; w2; w3; w4; w5; w6; w7] ->
  int64_value (mkInt64 (pre ++ [w0; w1; w2; w3; w4; w5; w6; w7] ++ post) o)
  = w0 * 2 ^ 56 + w1 * 2 ^ 48 + w2 * 2 ^ 40 + w3 * 2 ^ 32
    + w4 * 2 ^ 24 + w5 * 2 ^ 16 + w6 * 2 ^ 8 + w7
    - (if w0 <? 128 then 0 else 2 ^ 64).
Proof.
  intros Ho Hw. unfold int64_value. rewrite logical_window by auto.
  rewrite unsigned_window. bytes_of Hw.
  destruct (Z.ltb_spec w0 128);
    match goal with |- context [?u <? 2 ^ 63] => destruct (Z.ltb_spec u (2 ^ 63)) end;
    lia.
Qed.

Ltac compare_done :=
  eexists; split; [reflexivity|]; split; [lia|];
  repeat match goal with
         | |- context [128 <=? ?a] => destruct (Z.leb_spec 128 a); try lia
         end;
  cbn [Bool.eqb first_difference]; rewrite ?Z.eqb_refl;
  repeat match goal with
         | |- context [?a =? ?b] => destruct (Z.eqb_spec a b); [contradiction|]
         end;
  reflexivity.

Lemma compare_window pre w0 w1 w2 w3 w4 w5 w6 w7 post o
      pre' v0 v1 v2 v3 v4 v5 v6 v7 post' o' :
  length pre = o -> length pre' = o' ->
  Forall is_byte [w0; w1; w2; w3; w4; w5; w6; w7] ->
  Forall is_byte [v0; v1; v2; v3; v4; v5; v6; v7] ->
  exists c,
    compare (mkInt64 (pre ++ [w0; w1; w2; w3; w4; w5; w6; w7] ++ post) o)
            (mkInt64 (pre' ++ [v0; v1; v2; v3; v4; v5; v6; v7] ++ post') o')
    = Num c
    /\ Z.sgn c
       = Z.sgn (int64_value (mkInt64 (pre ++ [w0; w1; w2; w3; w4; w5; w6; w7] ++ post) o)
                - int64_value (mkInt64 (pre' ++ [v0; v1; v2; v3; v4; v5; v6; v7] ++ post') o'))
    /\ c = if Bool.eqb (128 <=? w0) (128 <=? v0)
           then first_difference [w0; w1; w2; w3; w4; w5; w6; w7]
                                 [v0; v1; v2; v3; v4; v5; v6; v7]
           else v0 - w0.
Proof.
  intros Ho Ho' Hw Hv.
  rewrite !int64_value_window by assumption.
  subst o o'. unfold compare, from_0_up_to_7, compare_loop.
  cbn [buffer offset]. rewrite !lookup_window0, !lookup_window.
  cbn [lookup list_lookup app ToNumber elem_eq].
  assert (Hw0 : is_byte w0) by (inversion Hw; assumption).
  assert (Hv0 : is_byte v0) by (inversion Hv; assumption).
  rewrite (js_and_128 w0 Hw0), (js_and_128 v0 Hv0).
  bytes_of Hw. bytes_of Hv. clear Hw Hv Hw0 Hv0.
  assert (S : forall x y, 0 <= x < 256 -> 0 <= y < 256 ->
                          js_sub (Num x) (Num y) = Num (x - y)).
  { intros x y Hx Hy. apply js_sub_exact. lia. }
  rewrite !S by assumption. clear S.
  destruct (Z.ltb_spec w0 128), (Z.ltb_spec v0 128); cbn [js_eq Z.eqb negb];
    try compare_done;
    repeat (match goal with
            | |- context [?a =? ?b] => destruct (Z.eqb_spec a b)
            end;
            cbn [negb];
            [subst | compare_done]);
    compare_done.
Qed.

(** C5. On valid values [compare] is negative, zero or positive exactly as
    the signed integer encoded by the first operand is less than, equal to
    or greater than the second's: when the sign bits differ it is the
    difference of the first octets, the other's minus this one's, and
    otherwise the difference at the first octet where the two differ.
    Swapping the operands flips the sign, and [equals] holds exactly when
    [compare] is zero. *)
Theorem compare_signed_order (a b : Int64) :
  valid a -> valid b ->
  exists c d,
    compare a b = Num c /\ compare b a = Num d
    /\ (c < 0 <-> int64_value a < int64_value b)
    /\ (c = 0 <-> int64_value a = int64_value b)
    /\ (0 < c <-> int64_value b < int64_value a)
    /\ c = (if Bool.eqb (sign_bit a) (sign_bit b)
            then first_difference (logical a) (logical b)
            else hd 0 (logical b) - hd 0 (logical a))
    /\ Z.sgn d = - Z.sgn c
    /\ (equals a b = true <-> c = 0).
Proof.
  intros Ha Hb.
  destruct (valid_window a Ha)
    as (pre & w0 & w1 & w2 & w3 & w4 & w5 & w6 & w7 & post & E & Hpre & Hw).
  destruct (valid_window b Hb)
    as (pre' & v0 & v1 & v2 & v3 & v4 & v5 & v6 & v7 & post' & E' & Hpre' & Hv).
  destruct a as [ba oa], b as [bb ob]. cbn [buffer offset] in *. subst ba bb.
  destruct (compare_window pre w0 w1 w2 w3 w4 w5 w6 w7 post oa
              pre' v0 v1 v2 v3 v4 v5 v6 v7 post' ob Hpre Hpre' Hw Hv)
    as (c & Ec & Sc & Mc).
  destruct (compare_window pre' v0 v1 v2 v3 v4 v5 v6 v7 post' ob
              pre w0 w1 w2 w3 w4 w5 w6 w7 post oa Hpre' Hpre Hv Hw)
    as (d & Ed & Sd & _).
  exists c, d. unfold equals, sign_bit. rewrite Ec, Ed. cbn [js_eq].
  rewrite !logical_window by (assumption || reflexivity). cbn [hd].
  rewrite Z.eqb_eq.
  repeat split; try assumption; try lia.
Qed.

Lemma compare_signed_order_witness :
  valid (mkInt64 [0x80; 0; 0; 0; 0; 0; 0; 0] 0)
  /\ valid (mkInt64 [0xee; 0x7f; 0xff; 0xff; 0xff; 0xff; 0xff; 0xff; 0xff] 1)
  /\ exists c d,
    compare (mkInt64 [0x80; 0; 0; 0; 0; 0; 0; 0] 0)
            (mkInt64 [0xee; 0x7f; 0xff; 0xff; 0xff; 0xff; 0xff; 0xff; 0xff] 1) = Num c
    /\ compare (mkInt64 [0xee; 0x7f; 0xff; 0xff; 0xff; 0xff; 0xff; 0xff; 0xff] 1)
               (mkInt64 [0x80; 0; 0; 0; 0; 0; 0; 0] 0) = Num d
    /\ c < 0 /\ 0 < d.
Proof.
  assert (Ha : valid (mkInt64 [0x80; 0; 0; 0; 0; 0; 0; 0] 0)).
  { split; [simpl; lia|]. repeat constructor; unfold is_byte; lia. }
  assert (Hb : valid (mkInt64 [0xee; 0x7f; 0xff; 0xff; 0xff; 0xff; 0xff; 0xff; 0xff] 1)).
  { split; [simpl; lia|]. repeat constructor; unfold is_byte; lia. }
  split; [exact Ha|]. split; [exact Hb|].
  destruct (compare_signed_order _ _ Ha Hb)
    as (c & d & Ec & Ed & Hlt & _ & _ & _ & Hs & _).
  exists c, d. split; [exact Ec|]. split; [exact Ed|].
  assert (Hc : c < 0) by (apply Hlt; vm_compute; reflexivity).
  split; [exact Hc|]. lia.
Defined.

(** ** The accumulation loop of [toNumber] *)

Lemma pow256 k : 0 <= k -> 256 ^ k = 2 ^ (8 * k).
Proof. intros Hk. change 256 with (2 ^ 8). rewrite <- Z.pow_mul_r by lia. reflexivity. Qed.

Lemma js_mul_byte_pow byte k :
  is_byte byte -> 0 <= k ->
  js_mul (Num byte) (Num (256 ^ k)) = Num (byte * 256 ^ k).
Proof.
  intros Hb Hk. cbn [js_mul]. rewrite pow256 by exact Hk.
  rewrite fl_scaled; [reflexivity| unfold is_byte in Hb; lia | lia].
Qed.

Lemma js_mul_pow_256 k :
  0 <= k -> js_mul (Num (256 ^ k)) (Num 256) = Num (256 ^ (k + 1)).
Proof.
  intros Hk. cbn [js_mul].
  replace (256 ^ k * 256) with (1 * 2 ^ (8 * (k + 1))).
  - rewrite fl_scaled by lia. rewrite Z.mul_1_l, <- pow256 by lia. reflexivity.
  - rewrite Z.mul_1_l, <- pow256 by lia. rewrite Z.pow_add_r by lia. reflexivity.
Qed.

Lemma tracks_add x S p :
  0 <= S -> 0 <= p -> tracks x S ->
  exists x', js_add x (Num p) = x' /\ tracks x' (S + p).
Proof.
  intros HS Hp (xz & -> & H). eexists. split; [reflexivity|].
  cbn [js_add]. exists (fl (xz + p)). split; [reflexivity|].
  destruct H as [[-> Hle] | [Hx Hge]].
  - destruct (Z.le_gt_cases (S + p) (2 ^ 53)) as [Hs|Hs].
    + left. split; [apply fl_small; lia|exact Hs].
    + right. split; [apply fl_ge; lia|lia].
  - right. split; [apply fl_ge; lia|lia].
Qed.

Lemma complement_octet byte c :
  is_byte byte -> 0 <= c <= 1 ->
  let v := js_add (js_xor (Num byte) (Num 0xff)) (Num c) in
  js_sar v 8 = Num ((255 - byte + c) / 256)
  /\ js_and v (Num 0xff) = Num ((255 - byte + c) mod 256).
Proof.
  intros Hb Hc.
  assert (X : js_xor (Num byte) (Num 0xff) = Num (255 - byte)).
  { pose (f := fun z => Z.lxor (ToInt32 (Num z)) (ToInt32 (Num 0xff)) =? 255 - z).
    assert (H : f byte = true) by (apply forall_bytes; [vm_compute; reflexivity|exact Hb]).
    unfold f in H. apply Z.eqb_eq in H. unfold js_xor. rewrite H. reflexivity. }
  cbv zeta. rewrite X. unfold is_byte in Hb.
  rewrite js_add_exact by lia. split.
  - unfold js_sar, ToInt32. rewrite wrap_int32_small by lia.
    rewrite Z.shiftr_div_pow2 by lia. reflexivity.
  - apply js_and_255.
Qed.

(** One iteration for a non-negative value: the octet is added at its
    place. *)
Lemma toNumber_step_plain b o negate x carry S k i byte :
  truthy negate = false ->
  b !! (o + i)%nat = Some byte -> is_byte byte ->
  0 <= k -> 0 <= S -> tracks x S ->
  exists x',
    toNumber_step b o negate (x, carry, Num (256 ^ k)) i
    = (x', carry, Num (256 ^ (k + 1)))
    /\ tracks x' (S + byte * 256 ^ k).
Proof.
  intros Hn Hb Hbyte Hk HS Hx. unfold toNumber_step. rewrite Hb, Hn.
  cbn [ToNumber]. rewrite js_mul_byte_pow, js_mul_pow_256 by assumption.
  assert (Hp : 0 <= byte * 256 ^ k).
  { unfold is_byte in Hbyte. apply Z.mul_nonneg_nonneg; [lia|].
    apply Z.pow_nonneg. lia. }
  destruct (tracks_add x S _ HS Hp Hx) as (x' & E & T).
  exists x'. rewrite E. split; [reflexivity|exact T].
Qed.

(** One iteration for a negative value: the octet is complemented, with the
    carry of the octets below it.  [U] is the unsigned value of the octets
    already visited. *)
Lemma toNumber_step_negate b o negate x U k i byte :
  truthy negate = true ->
  b !! (o + i)%nat = Some byte -> is_byte byte ->
  0 <= k -> 0 <= U < 256 ^ k ->
  tracks x (if U =? 0 then 0 else 256 ^ k - U) ->
  let U' := byte * 256 ^ k + U in
  exists x',
    toNumber_step b o negate
      (x, Num (if U =? 0 then 1 else 0), Num (256 ^ k)) i
    = (x', Num (if U' =? 0 then 1 else 0), Num (256 ^ (k + 1)))
    /\ tracks x' (if U' =? 0 then 0 else 256 ^ (k + 1) - U')
    /\ 0 <= U' < 256 ^ (k + 1).
Proof.
  intros Hn Hb Hbyte Hk HU Hx U'. unfold toNumber_step. rewrite Hb, Hn.
  cbn [ToNumber].
  set (c := if U =? 0 then 1 else 0).
  assert (Hc : 0 <= c <= 1) by (unfold c; destruct (U =? 0); lia).
  destruct (complement_octet byte c Hbyte Hc) as [Ecarry Ev]. cbv zeta in Ecarry, Ev.
  rewrite Ecarry, Ev.
  rewrite js_mul_byte_pow, js_mul_pow_256 by (try apply is_byte_mod; assumption).
  set (P := 256 ^ k) in *.
  assert (HP : 0 < P) by (apply Z.pow_pos_nonneg; lia).
  assert (HP' : 256 ^ (k + 1) = 256 * P).
  { unfold P. rewrite Z.pow_add_r by lia. lia. }
  rewrite HP'. unfold is_byte in Hbyte.
  assert (Hv : 0 <= (255 - byte + c) mod 256 * P).
  { apply Z.mul_nonneg_nonneg; [|lia]. apply Z.mod_pos_bound. lia. }
  assert (HS : 0 <= (if U =? 0 then 0 else P - U)) by (destruct (U =? 0); lia).
  destruct (tracks_add x _ _ HS Hv Hx) as (x' & E & T).
  exists x'. rewrite E.
  assert (HU' : 0 <= U' < 256 * P) by (unfold U'; fold P; nia).
  assert (Hcases :
    (255 - byte + c) / 256 = (if U' =? 0 then 1 else 0)
    /\ (if U =? 0 then 0 else P - U) + (255 - byte + c) mod 256 * P
       = (if U' =? 0 then 0 else 256 * P - U')).
  { unfold c, U'. fold P.
    destruct (Z.eqb_spec U 0) as [-> | HUn].
    - destruct (Z.eq_dec byte 0) as [-> | Hbn].
      + split; reflexivity.
      + assert (Hprod : 0 < byte * P) by nia.
        destruct (Z.eqb_spec (byte * P + 0) 0); [lia|].
        replace (255 - byte + 1) with (256 - byte) by lia.
        rewrite Z.div_small, Z.mod_small by lia. split; [reflexivity|ring].
    - assert (Hprod : 0 <= byte * P) by nia.
      destruct (Z.eqb_spec (byte * P + U) 0); [lia|].
      rewrite Z.add_0_r, Z.div_small, Z.mod_small by lia. split; [reflexivity|ring]. }
  destruct Hcases as [E1 E2]. rewrite E1. rewrite E2 in T.
  split; [reflexivity|]. split; [exact T|exact HU'].
Qed.

Ltac step_plain Hn w Hw :=
  match goal with
  | T : tracks ?x ?S, HS : 0 <= ?S
    |- context [toNumber_step ?b ?o ?n (?x, ?c, Num (256 ^ ?k)) ?i] =>
      let x' := fresh "x" in
      let E := fresh "E" in
      let T' := fresh "T" in
      let HS' := fresh "HS" in
      destruct (toNumber_step_plain b o n x c S k i w Hn) as (x' & E & T');
      [ rewrite lookup_window; reflexivity
      | exact Hw | lia | exact HS | exact T | ];
      assert (HS' : 0 <= S + w * 256 ^ k)
        by (unfold is_byte in Hw; apply Z.add_nonneg_nonneg;
            [exact HS | apply Z.mul_nonneg_nonneg; [lia | apply Z.pow_nonneg; lia]]);
      rewrite E; clear E T HS
  end.

Ltac step_negate Hn w Hw :=
  match goal with
  | T : tracks ?x (if ?U =? 0 then 0 else _), HU : 0 <= ?U < _
    |- context [toNumber_step ?b ?o ?n (?x, _, Num (256 ^ ?k)) ?i] =>
      let x' := fresh "x" in
      let E := fresh "E" in
      let T' := fresh "T" in
      let HU' := fresh "HU" in
      destruct (toNumber_step_negate b o n x U k i w Hn) as (x' & E & T' & HU');
      [ rewrite lookup_window; reflexivity
      | exact Hw | lia | exact HU | exact T | ];
      cbv zeta in E, T', HU';
      rewrite E; clear E T HU
  end.

(** [toNumber] on a valid window: the loop tracks the magnitude of the
    encoded signed integer, and the result carries its sign. *)
Lemma toNumber_window pre w0 w1 w2 w3 w4 w5 w6 w7 post o allowImprecise :
  length pre = o ->
  Forall is_byte [w0; w1; w2; w3; w4; w5; w6; w7] ->
  let this := mkInt64 (pre ++ [w0; w1; w2; w3; w4; w5; w6; w7] ++ post) o in
  let v := int64_value this in
  exists X,
    tracks (Num X) (Z.abs v)
    /\ toNumber this allowImprecise
       = if negb allowImprecise && js_ge (Num X) (Num MAX_INT)
         then Infinity (v <? 0)
         else Num (if v <? 0 then - X else X).
Proof.
  intros Ho Hw this v.
  assert (Ev : v = w0 * 2 ^ 56 + w1 * 2 ^ 48 + w2 * 2 ^ 40 + w3 * 2 ^ 32
                   + w4 * 2 ^ 24 + w5 * 2 ^ 16 + w6 * 2 ^ 8 + w7
                   - (if w0 <? 128 then 0 else 2 ^ 64))
    by (apply int64_value_window; assumption).
  clearbody v. subst o this. unfold toNumber, from_7_down_to_0.
  cbn [buffer offset fold_left]. rewrite lookup_window0.
  cbn [lookup list_lookup app ToNumber].
  pose proof Hw as Hw'. bytes_of Hw'. clear Hw'.
  assert (B0 : is_byte w0) by (unfold is_byte; lia).
  assert (B1 : is_byte w1) by (unfold is_byte; lia).
  assert (B2 : is_byte w2) by (unfold is_byte; lia).
  assert (B3 : is_byte w3) by (unfold is_byte; lia).
  assert (B4 : is_byte w4) by (unfold is_byte; lia).
  assert (B5 : is_byte w5) by (unfold is_byte; lia).
  assert (B6 : is_byte w6) by (unfold is_byte; lia).
  assert (B7 : is_byte w7) by (unfold is_byte; lia).
  rewrite (js_and_128 w0 B0).
  destruct (Z.ltb_spec w0 128) as [Hs|Hs].
  - (* sign bit clear *)
    assert (Hn : truthy (Num 0) = false) by reflexivity.
    change (Num 0, Num 1, Num 1) with (Num 0, Num 1, Num (256 ^ 0)).
    assert (T : tracks (Num 0) 0) by (exists 0; split; [reflexivity|left; lia]).
    assert (HS : 0 <= 0) by lia.
    step_plain Hn w7 B7. step_plain Hn w6 B6. step_plain Hn w5 B5.
    step_plain Hn w4 B4. step_plain Hn w3 B3. step_plain Hn w2 B2.
    step_plain Hn w1 B1. step_plain Hn w0 B0.
    rewrite Hn.
    match goal with T : tracks _ _ |- _ => destruct T as (X & -> & HX) end.
    assert (Hvpos : 0 <= v) by lia.
    exists X. destruct (Z.ltb_spec v 0); [lia|]. split; [|reflexivity].
    exists X. split; [reflexivity|].
    rewrite Z.abs_eq by lia.
    replace v with (0 + w7 * 256 ^ 0 + w6 * 256 ^ (0 + 1) + w5 * 256 ^ (0 + 1 + 1)
                    + w4 * 256 ^ (0 + 1 + 1 + 1) + w3 * 256 ^ (0 + 1 + 1 + 1 + 1)
                    + w2 * 256 ^ (0 + 1 + 1 + 1 + 1 + 1)
                    + w1 * 256 ^ (0 + 1 + 1 + 1 + 1 + 1 + 1)
                    + w0 * 256 ^ (0 + 1 + 1 + 1 + 1 + 1 + 1 + 1)) by (subst v; lia).
    exact HX.
  - (* sign bit set *)
    assert (Hn : truthy (Num 128) = true) by reflexivity.
    change (Num 0, Num 1, Num 1)
      with (Num 0, Num (if 0 =? 0 then 1 else 0), Num (256 ^ 0)).
    assert (T : tracks (Num 0) (if 0 =? 0 then 0 else 256 ^ 0 - 0))
      by (exists 0; split; [reflexivity|left; cbn; lia]).
    assert (HU : 0 <= 0 < 256 ^ 0) by lia.
    step_negate Hn w7 B7. step_negate Hn w6 B6. step_negate Hn w5 B5.
    step_negate Hn w4 B4. step_negate Hn w3 B3. step_negate Hn w2 B2.
    step_negate Hn w1 B1. step_negate Hn w0 B0.
    rewrite Hn.
    match goal with T : tracks _ _ |- _ => destruct T as (X & -> & HX) end.
    assert (Hvneg : v < 0) by lia.
    exists X. destruct (Z.ltb_spec v 0); [|lia]. split; [|reflexivity].
    exists X. split; [reflexivity|].
    rewrite Z.abs_neq by lia.
    match type of HX with
    | context [if ?U =? 0 then _ else _] =>
        destruct (Z.eqb_spec U 0) as [HU0|HU0]; [exfalso; lia|];
        replace (- v) with (256 ^ (0 + 1 + 1 + 1 + 1 + 1 + 1 + 1 + 1) - U)
          by (subst v; lia)
    end.
    exact HX.
Qed.

(** ** C6: [toNumber(false)] and [valueOf()] *)

(** C6. On a valid value [toNumber(false)], which is [valueOf()], is the
    encoded signed integer when its magnitude is below [2^53], and the
    infinity of its sign when the magnitude is [2^53] or more. *)
Theorem toNumber_exact_or_infinite (this : Int64) :
  valid this ->
  toNumber this false
  = (if Z.abs (int64_value this) <? 2 ^ 53
     then Num (int64_value this)
     else Infinity (int64_value this <? 0))
  /\ valueOf this = toNumber this false.
Proof.
  intros Hv. split; [|reflexivity].
  destruct (valid_window this Hv)
    as (pre & w0 & w1 & w2 & w3 & w4 & w5 & w6 & w7 & post & E & Hpre & Hw).
  destruct this as [b o]. cbn [buffer offset] in *. subst b.
  destruct (toNumber_window pre w0 w1 w2 w3 w4 w5 w6 w7 post o false Hpre Hw)
    as (X & (xz & Exz & HX) & ->).
  injection Exz as <-. cbv zeta in HX.
  set (v := int64_value _) in *. clearbody v.
  unfold js_ge, js_gt, js_lt, js_eq, MAX_INT. cbn [negb andb].
  destruct (Z.ltb_spec (Z.abs v) (2 ^ 53)) as [Hsmall|Hbig].
  - destruct HX as [[-> _] | [_ Hgt]]; [|lia].
    destruct (Z.ltb_spec (2 ^ 53) (Z.abs v)); [lia|].
    destruct (Z.eqb_spec (Z.abs v) (2 ^ 53)); [lia|]. cbn [orb].
    destruct (Z.ltb_spec v 0); f_equal; lia.
  - assert (HXge : 2 ^ 53 <= X) by (destruct HX as [[-> _] | [? _]]; lia).
    destruct (Z.ltb_spec (2 ^ 53) X); [reflexivity|].
    destruct (Z.eqb_spec X (2 ^ 53)); [reflexivity|lia].
Qed.

Lemma toNumber_exact_or_infinite_witness :
  valid (mkInt64 [0x7f; 0xff; 0xfa; 0xff; 0xff; 0xff; 0xff; 0xf7; 0x00; 0x01] 1)
  /\ toNumber (mkInt64 [0x7f; 0xff; 0xfa; 0xff; 0xff; 0xff; 0xff; 0xf7; 0x00; 0x01] 1) false
     = Num (- 0x5000000000900)
  /\ valid (mkInt64 [0x80; 0; 0; 0; 0; 0; 0; 0] 0)
  /\ toNumber (mkInt64 [0x80; 0; 0; 0; 0; 0; 0; 0] 0) false = Infinity true.
Proof.
  assert (Ha : valid (mkInt64 [0x7f; 0xff; 0xfa; 0xff; 0xff; 0xff; 0xff; 0xf7; 0x00; 0x01] 1)).
  { split; [simpl; lia|]. repeat constructor; unfold is_byte; lia. }
  assert (Hb : valid (mkInt64 [0x80; 0; 0; 0; 0; 0; 0; 0] 0)).
  { split; [simpl; lia|]. repeat constructor; unfold is_byte; lia. }
  split; [exact Ha|]. split; [exact (proj1 (toNumber_exact_or_infinite _ Ha))|].
  split; [exact Hb|]. exact (proj1 (toNumber_exact_or_infinite _ Hb)).
Defined.

(** ** Two's complement in place *)

Lemma _2scomp_step_window (pre l : list Z) (i : nat) (byte c : Z) :
  l !! i = Some byte -> is_byte byte -> 0 <= c <= 1 ->
  _2scomp_step (pre ++ l, Num c) (length pre + i)%nat
  = (pre ++ <[i := (255 - byte + c) mod 256]> l, Num ((255 - byte + c) / 256)).
Proof.
  intros Hl Hb Hc. unfold _2scomp_step. rewrite lookup_window, Hl.
  cbn [ToNumber].
  destruct (complement_octet byte c Hb Hc) as [Ecarry Ev]. cbv zeta in Ecarry, Ev.
  rewrite Ecarry, Ev, store_byte, insert_window. reflexivity.
Qed.

Lemma complement_carry_bound byte c :
  is_byte byte -> 0 <= c <= 1 -> 0 <= (255 - byte + c) / 256 <= 1.
Proof. unfold is_byte. intros Hb Hc. Z.div_mod_to_equations. lia. Qed.

Ltac step_2scomp w Hw :=
  match goal with
  | Hc : 0 <= ?c <= 1 |- context [_2scomp_step (?pre ++ ?l, Num ?c) (length ?pre + ?i)%nat] =>
      let Hc' := fresh "Hc" in
      rewrite (_2scomp_step_window pre l i w c eq_refl Hw Hc);
      pose proof (complement_carry_bound w c Hw Hc) as Hc';
      cbn [insert list_insert app];
      let q := fresh "q" in
      let r := fresh "r" in
      let Eq := fresh "Eq" in
      let Hr := fresh "Hr" in
      pose proof (Z.div_mod (255 - w + c) 256 ltac:(lia)) as Eq;
      pose proof (Z.mod_pos_bound (255 - w + c) 256 ltac:(lia)) as Hr;
      set (q := (255 - w + c) / 256) in *;
      set (r := (255 - w + c) mod 256) in *;
      clearbody q r; clear Hc
  end.

Lemma _2scomp_window pre w0 w1 w2 w3 w4 w5 w6 w7 post o :
  length pre = o ->
  Forall is_byte [w0; w1; w2; w3; w4; w5; w6; w7] ->
  exists r0 r1 r2 r3 r4 r5 r6 r7,
    _2scomp (mkInt64 (pre ++ [w0; w1; w2; w3; w4; w5; w6; w7] ++ post) o)
    = mkInt64 (pre ++ [r0; r1; r2; r3; r4; r5; r6; r7] ++ post) o
    /\ Forall is_byte [r0; r1; r2; r3; r4; r5; r6; r7]
    /\ unsigned [r0; r1; r2; r3; r4; r5; r6; r7]
       = (2 ^ 64 - unsigned [w0; w1; w2; w3; w4; w5; w6; w7]) mod 2 ^ 64.
Proof.
  intros Ho Hw. subst o. unfold _2scomp, from_7_down_to_0.
  cbn [buffer offset map fold_left].
  pose proof Hw as Hw'. bytes_of Hw'. clear Hw'.
  assert (B0 : is_byte w0) by (unfold is_byte; lia).
  assert (B1 : is_byte w1) by (unfold is_byte; lia).
  assert (B2 : is_byte w2) by (unfold is_byte; lia).
  assert (B3 : is_byte w3) by (unfold is_byte; lia).
  assert (B4 : is_byte w4) by (unfold is_byte; lia).
  assert (B5 : is_byte w5) by (unfold is_byte; lia).
  assert (B6 : is_byte w6) by (unfold is_byte; lia).
  assert (B7 : is_byte w7) by (unfold is_byte; lia).
  cbn [app].
  assert (Hc : 0 <= 1 <= 1) by lia.
  step_2scomp w7 B7. step_2scomp w6 B6. step_2scomp w5 B5. step_2scomp w4 B4.
  step_2scomp w3 B3. step_2scomp w2 B2. step_2scomp w1 B1. step_2scomp w0 B0.
  do 8 eexists. split; [reflexivity|]. split.
  - repeat (constructor; [unfold is_byte; lia|]). constructor.
  - rewrite !unsigned_window.
    match goal with
    | Hq : 0 <= ?q <= 1 |- ?lhs = _ mod _ =>
        apply (Z.mod_unique_pos _ _ q lhs); lia
    end.
Qed.

(** ** C3: the number form *)

Lemma js_div_VAL32 a :
  0 <= a ->
  frac_gt (js_div (Num a) VAL32) VAL32 = (2 ^ 64 <? a)
  /\ frac_or0 (js_div (Num a) VAL32) = Num (wrap_int32 (a / 2 ^ 32)).
Proof.
  intros Ha. unfold js_div, frac_gt, frac_or0, Qtrunc, VAL32, Qle_bool, Qdiv, Qmult, Qinv.
  cbn [Qnum Qden Pos.mul]. rewrite !Z.mul_1_r. split.
  - change (4294967296 * Z.pos (1 * 4294967296)) with (2 ^ 64).
    destruct (Z.leb_spec a (2 ^ 64)), (Z.ltb_spec (2 ^ 64) a); cbn [negb]; lia.
  - destruct (Z.ltb_spec a 0); [lia|]. reflexivity.
Qed.

Lemma copy_bytes_NaN this hi : copy_bytes this hi NaN = copy_bytes this hi (Num 0).
Proof. reflexivity. Qed.

Lemma copy_bytes_wrap this hi lo :
  (offset this + 8 <= length (buffer this))%nat ->
  copy_bytes this (Num (wrap_int32 hi)) (Num lo) = copy_bytes this (Num hi) (Num lo).
Proof.
  intros Hlen. destruct this as [b o]. cbn [buffer offset] in Hlen.
  destruct (window_split b o Hlen)
    as (pre & w0 & w1 & w2 & w3 & w4 & w5 & w6 & w7 & post & -> & Hpre).
  rewrite !(copy_bytes_window _ _ _ _ _ _ _ _ _ _ _ _ _ Hpre).
  rewrite (wrap_int32_mod hi 32) by lia. reflexivity.
Qed.

(** [setValue(n)] for an integer-valued [n]. *)
Lemma setValue_number this z :
  (offset this + 8 <= length (buffer this))%nat ->
  setValue this (Args1 (Number (Num z)))
  = if 2 ^ 64 <? Z.abs z then Throw RangeError
    else
      let r := copy_bytes this (Num (Z.abs z / 2 ^ 32)) (Num (Z.abs z mod 2 ^ 32)) in
      Ok (if z <? 0 then _2scomp r else r).
Proof.
  intros Hlen. unfold setValue. cbn [Math_abs js_lt].
  destruct (js_div_VAL32 (Z.abs z) (Z.abs_nonneg z)) as [Egt Eor].
  rewrite Egt, Eor.
  destruct (2 ^ 64 <? Z.abs z); [reflexivity|].
  cbn [mbind result_bind mret result_ret js_rem].
  change (VAL32 =? 0) with false. cbv iota.
  unfold VAL32. rewrite Z.rem_mod_nonneg by lia.
  rewrite copy_bytes_wrap by exact Hlen. reflexivity.
Qed.





(** ** C7: number round trip *)

Lemma unsigned_be64 a :
  0 <= a < 2 ^ 64 ->
  unsigned (be32 ((a / 2 ^ 32) mod 2 ^ 32) ++ be32 ((a mod 2 ^ 32) mod 2 ^ 32)) = a.
Proof.
  intros Ha. unfold be32. cbn [app]. rewrite unsigned_window.
  rewrite (Z.mod_small (a / 2 ^ 32)) by (split; [apply Z.div_pos|apply Z.div_lt_upper_bound]; lia).
  rewrite Z.mod_mod by lia.
  pose proof (Z.div_mod a (2 ^ 32) ltac:(lia)) as Ea.
  pose proof (Z.mod_pos_bound a (2 ^ 32) ltac:(lia)) as Hlo.
  assert (Hhi : 0 <= a / 2 ^ 32 < 2 ^ 32)
    by (split; [apply Z.div_pos|apply Z.div_lt_upper_bound]; lia).
  set (h := a / 2 ^ 32) in *. set (l := a mod 2 ^ 32) in *. clearbody h l.
  assert (D : forall x, 0 <= x < 2 ^ 32 ->
    x / 2 ^ 24 mod 256 * 2 ^ 24 + x / 2 ^ 16 mod 256 * 2 ^ 16
    + x / 2 ^ 8 mod 256 * 2 ^ 8 + x mod 256 = x).
  { intros x Hx. Z.div_mod_to_equations. lia. }
  pose proof (D h Hhi). pose proof (D l Hlo). lia.
Qed.

Lemma copy_bytes_window_value pre w0 w1 w2 w3 w4 w5 w6 w7 post o a :
  length pre = o -> 0 <= a < 2 ^ 64 ->
  exists b0 b1 b2 b3 b4 b5 b6 b7,
    copy_bytes (mkInt64 (pre ++ [w0; w1; w2; w3; w4; w5; w6; w7] ++ post) o)
               (Num (a / 2 ^ 32)) (Num (a mod 2 ^ 32))
    = mkInt64 (pre ++ [b0; b1; b2; b3; b4; b5; b6; b7] ++ post) o
    /\ Forall is_byte [b0; b1; b2; b3; b4; b5; b6; b7]
    /\ unsigned [b0; b1; b2; b3; b4; b5; b6; b7] = a.
Proof.
  intros Ho Ha. rewrite (copy_bytes_window _ _ _ _ _ _ _ _ _ _ _ _ _ Ho).
  pose proof (unsigned_be64 a Ha) as Hu. unfold be32 in *. cbn [app] in Hu.
  do 8 eexists. split; [reflexivity|]. split; [|exact Hu].
  repeat (constructor; [apply is_byte_mod|]). constructor.
Qed.

(** [new Int64(n)] holds the two's complement encoding of [n]. *)
Lemma Construct_number_value z :
  - 2 ^ 63 <= z < 2 ^ 63 ->
  exists w0 w1 w2 w3 w4 w5 w6 w7,
    Construct (Args1 (Number (Num z)))
    = Ok (mkInt64 ([] ++ [w0; w1; w2; w3; w4; w5; w6; w7] ++ []) 0)
    /\ Forall is_byte [w0; w1; w2; w3; w4; w5; w6; w7]
    /\ int64_value (mkInt64 ([] ++ [w0; w1; w2; w3; w4; w5; w6; w7] ++ []) 0) = z.
Proof.
  intros Hz. unfold Construct.
  rewrite setValue_number by (simpl; lia).
  destruct (Z.ltb_spec (2 ^ 64) (Z.abs z)); [lia|]. cbv zeta.
  change (Buffer_alloc 8) with ([] ++ [0; 0; 0; 0; 0; 0; 0; 0] ++ @nil Z).
  assert (Ha : 0 <= Z.abs z < 2 ^ 64) by lia.
  destruct (copy_bytes_window_value [] 0 0 0 0 0 0 0 0 [] 0%nat (Z.abs z) eq_refl Ha)
    as (b0 & b1 & b2 & b3 & b4 & b5 & b6 & b7 & E & Hb & Hu).
  rewrite E.
  destruct (Z.ltb_spec z 0) as [Hneg|Hpos].
  - destruct (_2scomp_window [] b0 b1 b2 b3 b4 b5 b6 b7 [] 0%nat eq_refl Hb)
      as (r0 & r1 & r2 & r3 & r4 & r5 & r6 & r7 & E' & Hr & Hur).
    exists r0, r1, r2, r3, r4, r5, r6, r7. rewrite E'.
    split; [reflexivity|]. split; [exact Hr|].
    unfold int64_value. rewrite logical_window by reflexivity.
    rewrite Hur, Hu. rewrite Z.mod_small by lia.
    destruct (Z.ltb_spec (2 ^ 64 - Z.abs z) (2 ^ 63)); lia.
  - exists b0, b1, b2, b3, b4, b5, b6, b7.
    split; [reflexivity|]. split; [exact Hb|].
    unfold int64_value. rewrite logical_window by reflexivity.
    rewrite Hu. destruct (Z.ltb_spec (Z.abs z) (2 ^ 63)); lia.
Qed.

(** C7. For every integer [n] with [-2^53 <= n <= 2^53], and for [10^18],
    the value built from the number [n] converts back to [n] with
    [toNumber(true)]. *)
Theorem Construct_toNumber_roundtrip (n : Z) :
  - 2 ^ 53 <= n <= 2 ^ 53 \/ n = 10 ^ 18 ->
  exists c, Construct (Args1 (Number (Num n))) = Ok c /\ toNumber c true = Num n.
Proof.
  intros [Hn | ->].
  - destruct (Construct_number_value n ltac:(lia))
      as (w0 & w1 & w2 & w3 & w4 & w5 & w6 & w7 & E & Hb & Hv).
    eexists. split; [exact E|].
    destruct (toNumber_window [] w0 w1 w2 w3 w4 w5 w6 w7 [] 0%nat true eq_refl Hb)
      as (X & (xz & Exz & HX) & ->).
    injection Exz as <-. cbv zeta in HX. rewrite Hv in *.
    cbn [negb andb]. f_equal. clear E Hb Hv.
    destruct HX as [[-> _] | [_ Hgt]]; [|lia].
    destruct (Z.ltb_spec n 0); lia.
  - eexists. split; [vm_compute; reflexivity|]. vm_compute. reflexivity.
Qed.

Lemma Construct_toNumber_roundtrip_witness :
  (- 2 ^ 53 <= - 2 ^ 53 <= 2 ^ 53 \/ - 2 ^ 53 = 10 ^ 18)
  /\ exists c, Construct (Args1 (Number (Num (- 2 ^ 53)))) = Ok c
               /\ toNumber c true = Num (- 2 ^ 53).
Proof.
  assert (H : - 2 ^ 53 <= - 2 ^ 53 <= 2 ^ 53 \/ - 2 ^ 53 = 10 ^ 18) by (left; lia).
  split; [exact H|]. exact (Construct_toNumber_roundtrip (- 2 ^ 53) H).
Defined.

(** ** Digit strings *)

Lemma substring_take_drop (n m : nat) (s : string) :
  substring n m s = str_take m (str_drop n s).
Proof.
  revert n m. induction s as [|c s IH]; intros [|n] [|m]; cbn; try reflexivity.
  - f_equal. apply (IH 0%nat m).
  - apply IH.
  - apply IH.
Qed.

Lemma str_drop_S n c s : str_drop (S n) (String c s) = str_drop n s.
Proof. reflexivity. Qed.

Lemma str_take_drop (n : nat) (s : string) : str_take n s +:+ str_drop n s = s.
Proof.
  revert s. induction n as [|n IH]; intros [|c s]; cbn; try reflexivity.
  rewrite append_cons, IH. reflexivity.
Qed.

Lemma str_take_all (n : nat) (s : string) :
  (String.length s <= n)%nat -> str_take n s = s.
Proof.
  revert s. induction n as [|n IH]; intros [|c s] H; cbn in *; try reflexivity; try lia.
  f_equal. apply IH. lia.
Qed.

Lemma str_drop_length (n : nat) (s : string) :
  String.length (str_drop n s) = (String.length s - n)%nat.
Proof.
  revert s. induction n as [|n IH]; intros [|c s]; cbn; try reflexivity; try lia.
  apply IH.
Qed.

Lemma str_take_length (n : nat) (s : string) :
  String.length (str_take n s) = Nat.min n (String.length s).
Proof.
  revert s. induction n as [|n IH]; intros [|c s]; cbn; try reflexivity.
  f_equal. apply IH.
Qed.

Section Digits.

Variable radix : Z.
Hypothesis radix_gt_1 : 1 < radix.

Lemma digits_only_take n s :
  digits_only radix s = true -> digits_only radix (str_take n s) = true.
Proof.
  revert s. induction n as [|n IH]; intros [|c s] H; cbn in *; try reflexivity.
  destruct (digit_value radix c); [apply IH; exact H|discriminate].
Qed.

Lemma digits_only_drop n s :
  digits_only radix s = true -> digits_only radix (str_drop n s) = true.
Proof.
  revert s. induction n as [|n IH]; intros [|c s] H; cbn in *;
    try reflexivity; try exact H.
  destruct (digit_value radix c); [apply IH; exact H|discriminate].
Qed.

Lemma digits_value_app a b acc :
  digits_value radix (a +:+ b) acc
  = digits_value radix b (digits_value radix a acc).
Proof.
  revert acc. induction a as [|c a IH]; intros acc; [reflexivity|].
  rewrite append_cons. cbn [digits_value]. apply IH.
Qed.

Lemma digits_value_acc s acc :
  digits_value radix s acc
  = acc * radix ^ Z.of_nat (String.length s) + digits_value radix s 0.
Proof.
  revert acc. induction s as [|c s IH]; intros acc.
  - cbn. lia.
  - cbn [digits_value String.length]. rewrite IH. rewrite (IH (0 * radix + _)).
    rewrite Nat2Z.inj_succ, Z.pow_succ_r by lia. ring.
Qed.

Lemma digit_value_bound c d :
  digit_value radix c = Some d -> 0 <= d < radix.
Proof.
  unfold digit_value. intros H.
  set (n := Z.of_N (N_of_ascii c)) in *.
  assert (Hn : 0 <= n) by (unfold n; lia).
  clearbody n.
  destruct (Z.leb_spec 48 n), (Z.leb_spec n 57), (Z.leb_spec 97 n),
    (Z.leb_spec n 122), (Z.leb_spec 65 n), (Z.leb_spec n 90);
    cbn [andb] in H;
    match type of H with
    | (if ?x <? ?r then _ else _) = _ =>
        destruct (Z.ltb_spec x r); [injection H as <-|discriminate]
    end; lia.
Qed.

Lemma digits_value_bound s :
  digits_only radix s = true ->
  0 <= digits_value radix s 0 < radix ^ Z.of_nat (String.length s).
Proof.
  induction s as [|c s IH]; intros H.
  - cbn. lia.
  - cbn [digits_only] in H. cbn [digits_value String.length].
    destruct (digit_value radix c) as [d|] eqn:E; [|discriminate].
    specialize (IH H). rewrite digits_value_acc.
    pose proof (digit_value_bound c d E) as Hd.
    change (default 0 (Some d)) with d. rewrite Z.mul_0_l, Z.add_0_l.
    rewrite Nat2Z.inj_succ, Z.pow_succ_r by lia.
    set (P := radix ^ Z.of_nat (String.length s)) in *.
    assert (HP : 0 < P) by (apply Z.pow_pos_nonneg; lia).
    assert (H1 : (d + 1) * P <= radix * P) by (apply Z.mul_le_mono_nonneg_r; lia).
    assert (H2 : 0 <= d * P) by (apply Z.mul_nonneg_nonneg; lia).
    lia.
Qed.

(** On a string of digits [read_digits] reads everything. *)
Lemma read_digits_digits s acc count :
  digits_only radix s = true ->
  read_digits radix s acc count
  = (digits_value radix s acc, (count + String.length s)%nat).
Proof.
  revert acc count. induction s as [|c s IH]; intros acc count H.
  - cbn. f_equal. lia.
  - cbn [digits_only] in H. cbn [read_digits digits_value String.length].
    destruct (digit_value radix c) as [d|]; [|discriminate].
    rewrite IH by exact H. change (default 0 (Some d)) with d. f_equal. lia.
Qed.

End Digits.

(** ** C8: the string form *)

(** What [parseInt] makes of a string of hexadecimal digits. *)
Lemma read_hex_digits (s : string) :
  digits_only 16 s = true ->
  (let '(v, count) := read_digits 16 s 0 0 in
   match count with
   | O => NaN
   | _ => Num (1 * fl v)
   end) = match s with
          | EmptyString => NaN
          | _ => Num (fl (digits_value 16 s 0))
          end.
Proof.
  intros Hs. rewrite read_digits_digits by exact Hs.
  destruct s as [|c r]; [reflexivity|].
  cbn [String.length Nat.add]. rewrite Z.mul_1_l. reflexivity.
Qed.

Lemma parseInt16_digits (s : string) :
  digits_only 16 s = true ->
  parseInt16 s = match s with
                 | EmptyString => NaN
                 | _ => Num (fl (digits_value 16 s 0))
                 end.
Proof.
  intros H. destruct s as [|c r]; [reflexivity|].
  assert (Hr : digits_only 16 r = true).
  { cbn [digits_only] in H. destruct (digit_value 16 c); [exact H|discriminate]. }
  pose proof (read_hex_digits (String c r) H) as Hgen. cbv beta iota in Hgen.
  rewrite <- Hgen. clear Hgen.
  unfold parseInt16.
  destruct c as [[] [] [] [] [] [] [] []];
    try (cbn in H; discriminate H); try reflexivity.
  (* the digit 0: the rest does not start with x or X *)
  destruct r as [|c2 r2]; [reflexivity|].
  destruct c2 as [[] [] [] [] [] [] [] []];
    try (cbn in Hr; discriminate Hr); reflexivity.
Qed.

(** [parseInt] skips an uppercase prefix itself. *)
Lemma parseInt16_upper_prefix (r : string) :
  digits_only 16 r = true ->
  parseInt16 (String "0" (String "X" r)) = parseInt16 r.
Proof.
  intros H. rewrite (parseInt16_digits r H).
  rewrite <- (read_hex_digits r H). reflexivity.
Qed.

Lemma replace_0x_digits (s : string) :
  digits_only 16 s = true -> replace_0x s = s.
Proof.
  intros H. destruct s as [|c r]; [reflexivity|].
  assert (Hr : digits_only 16 r = true).
  { cbn [digits_only] in H. destruct (digit_value 16 c); [exact H|discriminate]. }
  destruct c as [[] [] [] [] [] [] [] []]; try reflexivity.
  destruct r as [|c2 r2]; [reflexivity|].
  destruct c2 as [[] [] [] [] [] [] [] []];
    try (cbn in Hr; discriminate Hr); reflexivity.
Qed.

Lemma js_substr_last8 (s : string) :
  js_substr s (-8) None = str_drop (String.length s - 8) s.
Proof.
  unfold js_substr. cbn [default].
  change (-8 <? 0) with true. cbv iota.
  rewrite substring_take_drop.
  replace (Z.to_nat (Z.max (Z.of_nat (String.length s) + -8) 0))
    with (String.length s - 8)%nat by lia.
  apply str_take_all. rewrite str_drop_length. lia.
Qed.

Lemma js_substr_before_last8 (s : string) :
  (8 < String.length s)%nat ->
  js_substr s 0 (Some (Z.of_nat (String.length s) - 8))
  = str_take (String.length s - 8) s.
Proof.
  intros H. unfold js_substr. cbn [from_option id].
  change (0 <? 0) with false. cbv iota.
  rewrite substring_take_drop.
  replace (Z.to_nat (Z.min 0 (Z.of_nat (String.length s)))) with 0%nat by lia.
  replace (Z.to_nat _) with (String.length s - 8)%nat by lia.
  destruct s; reflexivity.
Qed.

Lemma copy_bytes_NaN_hi this lo : copy_bytes this NaN lo = copy_bytes this (Num 0) lo.
Proof. reflexivity. Qed.

Lemma unsigned_be32_pair h l :
  0 <= h < 2 ^ 32 -> 0 <= l < 2 ^ 32 ->
  unsigned (be32 h ++ be32 l) = h * 2 ^ 32 + l.
Proof.
  intros Hh Hl.
  pose proof (unsigned_be64 (h * 2 ^ 32 + l) ltac:(lia)) as H.
  rewrite Z.div_add_l, (Z.div_small l), Z.add_0_r in H by lia.
  rewrite Z.add_comm, Z.mod_add, (Z.mod_small l) in H by lia.
  rewrite !Z.mod_small in H by lia. rewrite Z.add_comm. exact H.
Qed.

Lemma lo_digits_bound d :
  digits_only 16 d = true -> 0 <= hex_value (lo_digits d) < 2 ^ 32.
Proof.
  intros H. unfold hex_value, lo_digits.
  pose proof (digits_value_bound 16 ltac:(lia) (str_drop (String.length d - 8) d)
                (digits_only_drop 16 _ d H)) as [H0 H1].
  split; [exact H0|].
  eapply Z.lt_le_trans; [exact H1|].
  change (2 ^ 32) with (16 ^ 8). apply Z.pow_le_mono_r; [lia|].
  rewrite str_drop_length. lia.
Qed.

Lemma hi_digits_bound d :
  digits_only 16 d = true -> (String.length d <= 16)%nat ->
  0 <= hex_value (hi_digits d) < 2 ^ 32.
Proof.
  intros H Hlen. unfold hex_value, hi_digits.
  pose proof (digits_value_bound 16 ltac:(lia) (str_take (String.length d - 8) d)
                (digits_only_take 16 _ d H)) as [H0 H1].
  split; [exact H0|].
  eapply Z.lt_le_trans; [exact H1|].
  change (2 ^ 32) with (16 ^ 8). apply Z.pow_le_mono_r; [lia|].
  rewrite str_take_length. lia.
Qed.

Lemma hex_value_split d :
  digits_only 16 d = true ->
  hex_value d
  = hex_value (hi_digits d) * 16 ^ Z.of_nat (String.length (lo_digits d))
    + hex_value (lo_digits d).
Proof.
  intros H. unfold hex_value, hi_digits, lo_digits.
  rewrite <- (str_take_drop (String.length d - 8) d) at 1.
  rewrite digits_value_app, digits_value_acc. reflexivity.
Qed.

Lemma str_take_SS n c1 c2 s :
  str_take (S (S n)) (String c1 (String c2 s)) = String c1 (String c2 (str_take n s)).
Proof. reflexivity. Qed.

(** The two strings [setValue] hands to [parseInt], for a string of
    hexadecimal digits behind one of the prefixes: they are read as the
    digits before the last eight and as the last eight digits.  The
    uppercase prefix is not removed by [replace]; it reaches [parseInt]
    whole, and is skipped there, unless exactly seven digits follow it. *)
Lemma string_form_parts (p : hex_prefix) (d : string) :
  digits_only 16 d = true ->
  (p = Upper0X -> String.length d <> 7%nat) ->
  let hi := replace_0x (with_prefix p d) in
  parseInt16 (if (8 <? String.length hi)%nat
              then js_substr hi 0 (Some (Z.of_nat (String.length hi) - 8))
              else "")
  = parseInt16 (hi_digits d)
  /\ parseInt16 (js_substr hi (-8) None) = parseInt16 (lo_digits d).
Proof.
  intros Hd Hp.
  assert (Plain : replace_0x (with_prefix p d) = d ->
    parseInt16 (if (8 <? String.length d)%nat
                then js_substr d 0 (Some (Z.of_nat (String.length d) - 8))
                else "")
    = parseInt16 (hi_digits d)
    /\ parseInt16 (js_substr d (-8) None) = parseInt16 (lo_digits d)).
  { intros _. rewrite js_substr_last8. split; [|reflexivity]. f_equal.
    unfold hi_digits. destruct (Nat.ltb_spec 8 (String.length d)) as [Hl|Hl].
    - apply js_substr_before_last8. exact Hl.
    - replace (String.length d - 8)%nat with 0%nat by lia. destruct d; reflexivity. }
  destruct p; cbv zeta.
  - rewrite (replace_0x_digits d Hd : replace_0x (with_prefix NoPrefix d) = d).
    apply Plain. apply replace_0x_digits. exact Hd.
  - change (replace_0x (with_prefix Lower0x d)) with d. apply Plain. reflexivity.
  - change (replace_0x (with_prefix Upper0X d)) with (String "0" (String "X" d)).
    specialize (Hp eq_refl). rewrite js_substr_last8.
    set (s := String "0" (String "X" d)).
    assert (Ls : String.length s = S (S (String.length d))) by reflexivity.
    destruct (Nat.ltb_spec 8 (String.length s)) as [Hl|Hl].
    + (* eight digits or more: the prefix stays with the high digits *)
      rewrite (js_substr_before_last8 s Hl). rewrite Ls.
      replace (S (S (String.length d)) - 8)%nat
        with (S (S (String.length d - 8))) by lia.
      unfold s. rewrite str_take_SS, !str_drop_S. split; [|reflexivity].
      apply parseInt16_upper_prefix. apply digits_only_take. exact Hd.
    + (* six digits or fewer: the prefix stays with the low digits *)
      rewrite Ls.
      replace (S (S (String.length d)) - 8)%nat with 0%nat by lia.
      unfold hi_digits, lo_digits.
      replace (String.length d - 8)%nat with 0%nat by lia.
      split; [destruct d; reflexivity|].
      unfold s. cbn [str_drop]. rewrite parseInt16_upper_prefix by exact Hd.
      destruct d; reflexivity.
Qed.

(** C8, as the code has it.  For a string of hexadecimal digits, bare or
    behind [0x], or behind [0X] when the digits are not exactly seven, the
    last eight digits (or all, if fewer) are stored as the low word and the
    digits before them as the high word (none: 0), read as unsigned
    hexadecimal and not negated; with at most sixteen digits the eight
    octets are the value of the digits, so sixteen digits starting with
    [8] to [f] encode a negative value. *)
Theorem setValue_hex_string (this : Int64) (p : hex_prefix) (d : string) :
  (offset this + 8 <= length (buffer this))%nat ->
  digits_only 16 d = true ->
  (p = Upper0X -> String.length d <> 7%nat) ->
  exists r,
    setValue this (Args1 (Str (with_prefix p d))) = Ok r
    /\ offset r = offset this
    /\ logical r
       = be32 (fl (hex_value (hi_digits d)) mod 2 ^ 32) ++ be32 (hex_value (lo_digits d))
    /\ ((String.length d <= 16)%nat ->
        unsigned (logical r) = hex_value d
        /\ int64_value r = if hex_value d <? 2 ^ 63 then hex_value d
                           else hex_value d - 2 ^ 64).
Proof.
  intros Hlen Hd Hp.
  destruct (string_form_parts p d Hd Hp) as [Ehi Elo]. cbv zeta in Ehi, Elo.
  unfold setValue. rewrite Ehi, Elo.
  rewrite (parseInt16_digits (hi_digits d)) by (apply digits_only_take; exact Hd).
  rewrite (parseInt16_digits (lo_digits d)) by (apply digits_only_drop; exact Hd).
  fold (hex_value (hi_digits d)). fold (hex_value (lo_digits d)).
  pose proof (lo_digits_bound d Hd) as Hlo.
  cbn [mbind result_bind mret result_ret].
  assert (Ecopy :
    copy_bytes this
      match hi_digits d with
      | EmptyString => NaN
      | _ => Num (fl (hex_value (hi_digits d)))
      end
      match lo_digits d with
      | EmptyString => NaN
      | _ => Num (fl (hex_value (lo_digits d)))
      end
    = copy_bytes this (Num (fl (hex_value (hi_digits d)))) (Num (hex_value (lo_digits d)))).
  { rewrite (fl_small (hex_value (lo_digits d))) by lia.
    destruct (hi_digits d) eqn:Eh, (lo_digits d) eqn:El;
      try reflexivity;
      first [ apply copy_bytes_NaN_hi | apply copy_bytes_NaN
            | rewrite copy_bytes_NaN, copy_bytes_NaN_hi; reflexivity ]. }
  rewrite Ecopy. clear Ecopy.
  destruct this as [b o]. cbn [buffer offset] in *.
  destruct (window_split b o Hlen)
    as (pre & w0 & w1 & w2 & w3 & w4 & w5 & w6 & w7 & post & -> & Hpre).
  rewrite (copy_bytes_window _ _ _ _ _ _ _ _ _ _ _ _ _ Hpre).
  eexists. split; [reflexivity|]. cbn [offset]. split; [reflexivity|].
  unfold int64_value.
  rewrite logical_window by (exact Hpre || reflexivity).
  rewrite (Z.mod_small (hex_value (lo_digits d))) by lia.
  split; [reflexivity|].
  intros H16. pose proof (hi_digits_bound d Hd H16) as Hhi.
  rewrite fl_small by lia. rewrite Z.mod_small by lia.
  rewrite unsigned_be32_pair by lia.
  assert (E : hex_value (hi_digits d) * 2 ^ 32 + hex_value (lo_digits d) = hex_value d).
  { rewrite (hex_value_split d Hd).
    destruct (Nat.le_gt_cases (String.length d) 8) as [Hs|Hs].
    - assert (E0 : hi_digits d = "").
      { unfold hi_digits. replace (String.length d - 8)%nat with 0%nat by lia.
        destruct d; reflexivity. }
      rewrite E0. reflexivity.
    - assert (E8 : String.length (lo_digits d) = 8%nat).
      { unfold lo_digits. rewrite str_drop_length. lia. }
      rewrite E8. reflexivity. }
  rewrite E. split; reflexivity.
Qed.

Lemma setValue_hex_string_witness :
  (offset (mkInt64 (Buffer_alloc 8) 0) + 8 <= length (buffer (mkInt64 (Buffer_alloc 8) 0)))%nat
  /\ digits_only 16 "FFFFFFFFFFFFFFFF" = true
  /\ (Lower0x = Upper0X -> String.length "FFFFFFFFFFFFFFFF" <> 7%nat)
  /\ exists r, Construct (Args1 (Str "0xFFFFFFFFFFFFFFFF")) = Ok r
               /\ logical r = [255; 255; 255; 255; 255; 255; 255; 255]
               /\ int64_value r = -1.
Proof.
  assert (H : (offset (mkInt64 (Buffer_alloc 8) 0) + 8
               <= length (buffer (mkInt64 (Buffer_alloc 8) 0)))%nat) by (simpl; lia).
  assert (Hd : digits_only 16 "FFFFFFFFFFFFFFFF" = true) by reflexivity.
  assert (Hp : Lower0x = Upper0X -> String.length "FFFFFFFFFFFFFFFF" <> 7%nat)
    by discriminate.
  split; [exact H|]. split; [exact Hd|]. split; [exact Hp|].
  destruct (setValue_hex_string _ Lower0x "FFFFFFFFFFFFFFFF" H Hd Hp)
    as (r & E & _ & L & U).
  exists r. split; [exact E|]. split; [exact L|].
  exact (proj2 (U ltac:(simpl; lia))).
Defined.

(** The claim with the uppercase prefix fails on [0X1234567]: the code
    stores zero, the claim the word [0x01234567]. *)
Lemma uppercase_prefix_counterexample :
  with_prefix Upper0X "1234567" = "0X1234567"
  /\ digits_only 16 "1234567" = true
  /\ exists r,
       Construct (Args1 (Str "0X1234567")) = Ok r
       /\ logical r = [0; 0; 0; 0; 0; 0; 0; 0]
       /\ be32 (fl (hex_value (hi_digits "1234567")) mod 2 ^ 32)
          ++ be32 (hex_value (lo_digits "1234567"))
          = [0; 0; 0; 0; 0x01; 0x23; 0x45; 0x67]
       /\ logical r
          <> be32 (fl (hex_value (hi_digits "1234567")) mod 2 ^ 32)
             ++ be32 (hex_value (lo_digits "1234567")).
Proof.
  split; [reflexivity|]. split; [reflexivity|].
  eexists. split; [vm_compute; reflexivity|].
  split; [vm_compute; reflexivity|].
  split; [vm_compute; reflexivity|].
  vm_compute. discriminate.
Qed.

(** ** C9: range errors of [fromDecimalString] *)

Lemma numeral_length neg ds :
  String.length (numeral neg ds)
  = (String.length ds + (if neg then 1 else 0))%nat.
Proof. destruct neg; cbn [numeral String.length]; lia. Qed.

Lemma numeral_negative neg ds :
  digits_only 10 ds = true ->
  match String.get 0 (numeral neg ds) with
  | Some "-"%char => true
  | _ => false
  end = neg.
Proof.
  intros H. destruct neg; [reflexivity|]. cbn [numeral].
  destruct ds as [|c r]; [reflexivity|].
  destruct c as [[] [] [] [] [] [] [] []]; try reflexivity.
  cbn in H. discriminate H.
Qed.

Lemma all_digits_digits s :
  digits_only 10 s = true ->
  all_digits s = match s with EmptyString => false | _ => true end.
Proof.
  intros H. unfold all_digits. rewrite read_digits_digits by exact H.
  cbn [Nat.add]. destruct s as [|c r]; [reflexivity|].
  cbn [String.length]. rewrite Nat.eqb_refl. reflexivity.
Qed.

Lemma StringToNumber_digits s :
  digits_only 10 s = true ->
  StringToNumber s = Num (fl (digits_value 10 s 0)).
Proof.
  intros H. destruct s as [|c r]; [reflexivity|].
  assert (E : StringToNumber (String c r)
              = if all_digits (String c r)
                then Num (fl (fst (read_digits 10 (String c r) 0 0)))
                else NaN).
  { destruct c as [[] [] [] [] [] [] [] []]; try reflexivity;
      cbn in H; discriminate H. }
  rewrite E, all_digits_digits by exact H.
  rewrite read_digits_digits by exact H. reflexivity.
Qed.

Lemma StringToNumber_minus_digits s :
  digits_only 10 s = true ->
  StringToNumber (String "-" s)
  = match s with
    | EmptyString => NaN
    | _ => Num (- fl (digits_value 10 s 0))
    end.
Proof.
  intros H. cbn [StringToNumber]. rewrite all_digits_digits by exact H.
  rewrite read_digits_digits by exact H. destruct s; reflexivity.
Qed.

Lemma js_slice_high neg ds :
  (15 <= String.length ds)%nat ->
  js_slice (numeral neg ds) (if neg then 1 else 0) (Some (-15))
  = str_take (String.length ds - 15) ds.
Proof.
  intros H. unfold js_slice. rewrite numeral_length. cbn [from_option id].
  change (-15 <? 0) with true. cbv iota.
  rewrite substring_take_drop.
  destruct neg; cbn [numeral].
  - change (1 <? 0) with false. cbv iota.
    replace (Z.to_nat (Z.min 1 _)) with 1%nat by lia.
    replace (Z.to_nat _) with (String.length ds - 15)%nat by lia.
    reflexivity.
  - change (0 <? 0) with false. cbv iota.
    replace (Z.to_nat (Z.min 0 _)) with 0%nat by lia.
    replace (Z.to_nat _) with (String.length ds - 15)%nat by lia.
    destruct ds; reflexivity.
Qed.

Lemma js_slice_low neg ds :
  (15 <= String.length ds)%nat ->
  js_slice (numeral neg ds) (-15) None = str_drop (String.length ds - 15) ds.
Proof.
  intros H. unfold js_slice. rewrite numeral_length. cbn [from_option id].
  change (-15 <? 0) with true. cbv iota.
  set (len := Z.of_nat (String.length ds + (if neg then 1 else 0))).
  assert (Hlen : 15 <= len) by (unfold len; lia).
  destruct (Z.ltb_spec len 0); [lia|].
  rewrite substring_take_drop.
  replace (Z.to_nat (Z.max (len + -15) 0))
    with (String.length ds - 15 + (if neg then 1 else 0))%nat
    by (unfold len; destruct neg; lia).
  assert (E : str_drop (String.length ds - 15 + (if neg then 1 else 0)) (numeral neg ds)
              = str_drop (String.length ds - 15) ds).
  { destruct neg; cbn [numeral].
    - rewrite Nat.add_1_r. apply str_drop_S.
    - rewrite Nat.add_0_r. reflexivity. }
  rewrite E. apply str_take_all. rewrite str_drop_length. unfold len. lia.
Qed.

Lemma Math_floor_div_POW2_32 a :
  Math_floor (js_div (Num a) POW2_32) = Num (a / 2 ^ 32).
Proof.
  unfold Math_floor, js_div, POW2_32, Qdiv, Qmult, Qinv, Qfloor.
  cbn [Qnum Qden Pos.mul]. rewrite Z.mul_1_r. reflexivity.
Qed.



Lemma digits_value_pow_bound s k :
  digits_only 10 s = true -> (String.length s <= k)%nat ->
  0 <= digits_value 10 s 0 < 10 ^ Z.of_nat k.
Proof.
  intros H Hk. pose proof (digits_value_bound 10 ltac:(lia) s H) as [H0 H1].
  split; [exact H0|]. eapply Z.lt_le_trans; [exact H1|].
  apply Z.pow_le_mono_r; lia.
Qed.



Lemma js_ge_Num a b : js_ge (Num a) (Num b) = (b <=? a).
Proof.
  unfold js_ge, js_gt, js_lt, js_eq.
  destruct (Z.ltb_spec b a), (Z.eqb_spec a b), (Z.leb_spec b a); cbn [orb]; lia.
Qed.

(** Sixteen to nineteen digits: the limbs [high] and [low] the code
    computes are the quotient and remainder of the magnitude by [2^32]. *)
Lemma fromDecimalString_mid_form neg ds :
  digits_only 10 ds = true ->
  (16 <= String.length ds <= 19)%nat ->
  let M := digits_value 10 ds 0 in
  let high := M / 2 ^ 32 in
  let low := M mod 2 ^ 32 in
  fromDecimalString (numeral neg ds)
  = if (2 ^ 31 <=? high) && negb (neg && (high =? 2 ^ 31) && (low =? 0))
    then Throw RangeError
    else
      let '(h, l) :=
        if neg then
          let h := js_not (Num high) in
          let '(h, l) :=
            if low =? 0
            then (js_and (js_add h (Num 1)) (Num 0xffffffff), Num low)
            else (h, js_add (js_not (Num low)) (Num 1)) in
          (js_or (Num 0x80000000) h, l)
        else (Num high, Num low) in
      Construct (Args2 h l).
Proof.
  intros H Hn M high low. unfold fromDecimalString.
  rewrite numeral_negative by exact H. rewrite numeral_length.
  assert (T1 : (String.length ds + (if neg then 1 else 0) <? (if neg then 17 else 16))%nat
               = false) by (destruct neg; apply Nat.ltb_ge; lia).
  assert (T2 : ((if neg then 20 else 19) <? String.length ds + (if neg then 1 else 0))%nat
               = false) by (destruct neg; apply Nat.ltb_ge; lia).
  rewrite T1, T2.
  rewrite js_slice_high, js_slice_low by lia.
  set (A := str_take (String.length ds - 15) ds).
  set (B := str_drop (String.length ds - 15) ds).
  assert (HA : digits_only 10 A = true) by (apply digits_only_take; exact H).
  assert (HB : digits_only 10 B = true) by (apply digits_only_drop; exact H).
  rewrite (StringToNumber_digits A HA), (StringToNumber_digits B HB).
  assert (LB : String.length B = 15%nat) by (unfold B; rewrite str_drop_length; lia).
  pose proof (digits_value_pow_bound A 4 HA
                ltac:(unfold A; rewrite str_take_length; lia)) as BA.
  pose proof (digits_value_pow_bound B 15 HB ltac:(lia)) as BB.
  change (10 ^ Z.of_nat 4) with 10000 in BA.
  change (10 ^ Z.of_nat 15) with 1000000000000000 in BB.
  assert (EM : M = digits_value 10 A 0 * 10 ^ 15 + digits_value 10 B 0).
  { unfold M. rewrite <- (str_take_drop (String.length ds - 15) ds) at 1.
    fold A B. rewrite digits_value_app, digits_value_acc, LB. reflexivity. }
  set (vA := digits_value 10 A 0) in *. set (vB := digits_value 10 B 0) in *.
  unfold high, low. clearbody vA vB M. clear T1 T2 HA HB LB A B H Hn high low.
  rewrite (fl_small vA), (fl_small vB) by lia.
  rewrite (js_mul_exact vA 2764472320) by lia.
  rewrite js_add_exact by lia.
  rewrite Math_floor_div_POW2_32.
  rewrite (js_mul_exact vA 232830) by lia.
  set (low := vB + vA * 2764472320).
  assert (Hlow : 0 <= low < 2 ^ 53) by (unfold low; lia).
  assert (Hq : 0 <= low / 2 ^ 32 < 2 ^ 21).
  { split; [apply Z.div_pos; lia|apply Z.div_lt_upper_bound; lia]. }
  rewrite js_add_exact by lia.
  cbn [js_rem]. change (POW2_32 =? 0) with false. cbv iota.
  unfold POW2_32, POW2_31. rewrite Z.rem_mod_nonneg by lia.
  assert (EM' : M = vA * 232830 * 2 ^ 32 + low) by (unfold low; lia).
  assert (Ehigh : M / 2 ^ 32 = low / 2 ^ 32 + vA * 232830).
  { rewrite EM'. rewrite Z.div_add_l by lia. lia. }
  assert (Elow : M mod 2 ^ 32 = low mod 2 ^ 32).
  { rewrite EM'. rewrite Z.add_comm. apply Z.mod_add. lia. }
  rewrite Ehigh, Elow. rewrite js_ge_Num. cbn [js_eq].
  destruct ((2 ^ 31 <=? low / 2 ^ 32 + vA * 232830)
            && negb (neg && (low / 2 ^ 32 + vA * 232830 =? 2 ^ 31)
                     && (low mod 2 ^ 32 =? 0))); [reflexivity|].
  destruct neg; [|reflexivity].
  destruct (low mod 2 ^ 32 =? 0); reflexivity.
Qed.





(** ** C1, C2, C10: [toDecimalString] on negative values *)

(** The second disjunct of the small-magnitude test reads
    [!~b[o] && !~(b[o + 1] & 0xe0)].  The complement of an octet is never
    zero, so [!~b[o]] is false for every octet and the disjunct never
    holds: only values whose top eleven bits are all 0 are delegated. *)
Lemma not_of_octet_truthy z : is_byte z -> truthy (js_not (Num z)) = true.
Proof.
  intros Hz. apply (forall_bytes (fun z => truthy (js_not (Num z)))); [|exact Hz].
  vm_compute. reflexivity.
Qed.

(** C2 at the value -1 (eight octets [0xff]): the top eleven bits are all
    1 and [toString()] is ["-1"], but [toDecimalString()] takes the
    limb-splitting branch and returns ["-000000000001"]. *)
Theorem toDecimalString_minus_one_not_delegated :
  let x := mkInt64 [255; 255; 255; 255; 255; 255; 255; 255] 0 in
  valid x
  /\ int64_value x = -1
  /\ toString x 10 = "-1"
  /\ toDecimalString x = "-000000000001".
Proof.
  cbv zeta. split; [|split; [|split]]; try (vm_compute; reflexivity).
  split; [simpl; lia|]. repeat constructor; unfold is_byte; lia.
Qed.

(** C1 at the canonical numeral ["-1"]: it is read back as
    ["-000000000001"]. *)
Theorem decimal_roundtrip_minus_one :
  exists c,
    fromDecimalString "-1" = Ok c
    /\ buffer c = [255; 255; 255; 255; 255; 255; 255; 255]
    /\ offset c = 0%nat
    /\ toDecimalString c = "-000000000001"
    /\ toDecimalString c <> "-1".
Proof.
  eexists. split; [vm_compute; reflexivity|].
  split; [reflexivity|]. split; [reflexivity|].
  split; [vm_compute; reflexivity|]. vm_compute. discriminate.
Qed.

(** C10 at the value -1 held at offset 1 of a nine-octet buffer: the
    scratch magnitude buffer has eight octets and is indexed from the
    original offset, so index 8 is read outside it and the result is
    ["-NaN00000000NaN"]; the same eight octets at offset 0 give
    ["-000000000001"]. *)
Theorem toDecimalString_offset_scratch :
  let x := mkInt64 [0; 255; 255; 255; 255; 255; 255; 255; 255] 1 in
  let y := mkInt64 [255; 255; 255; 255; 255; 255; 255; 255] 0 in
  valid x /\ valid y
  /\ logical x = logical y
  /\ Buffer_alloc 8 !! (offset x + 7)%nat = None
  /\ toDecimalString x = "-NaN00000000NaN"
  /\ toDecimalString y = "-000000000001".
Proof.
  cbv zeta.
  split; [split; [simpl; lia|repeat constructor; unfold is_byte; lia]|].
  split; [split; [simpl; lia|repeat constructor; unfold is_byte; lia]|].
  split; [reflexivity|]. split; [reflexivity|].
  split; vm_compute; reflexivity.
Qed.

(** The extent of the two defects.  No value with the sign bit set is
    delegated to [toString()]; and at an offset other than 0 every such
    value reads the scratch buffer past its end. *)
Lemma negative_not_delegated (x : Int64) :
  valid x -> sign_bit x = true ->
  magnitude_is_small (buffer x) (offset x) = false.
Proof.
  intros Hv Hs.
  destruct (valid_window x Hv)
    as (pre & w0 & w1 & w2 & w3 & w4 & w5 & w6 & w7 & post & E & Hpre & Hw).
  destruct x as [b o]. cbn [buffer offset] in *. subst b.
  unfold sign_bit in Hs. rewrite logical_window in Hs by (assumption || reflexivity).
  apply Z.leb_le in Hs.
  assert (B0 : is_byte w0) by (inversion Hw; assumption).
  unfold magnitude_is_small, at_. subst o. rewrite lookup_window0.
  cbn [lookup list_lookup app ToNumber].
  rewrite (not_of_octet_truthy w0 B0). cbn [truthy negb andb orb].
  destruct (Z.eqb_spec w0 0); [lia|]. reflexivity.
Qed.

Lemma scratch_length b o indices st :
  length (fst (fold_left (scratch_step b o) indices st)) = length (fst st).
Proof.
  revert st. induction indices as [|i indices IH]; intros [buf inc]; [reflexivity|].
  cbn [fold_left]. rewrite IH. unfold scratch_step, store. cbn [fst].
  apply length_insert.
Qed.

Lemma negative_at_offset (x : Int64) :
  valid x -> sign_bit x = true -> (1 <= offset x)%nat ->
  toDecimalString x = "-NaN00000000NaN".
Proof.
  intros Hv Hs Ho. unfold toDecimalString.
  rewrite (negative_not_delegated x Hv Hs).
  destruct (valid_window x Hv)
    as (pre & w0 & w1 & w2 & w3 & w4 & w5 & w6 & w7 & post & E & Hpre & Hw).
  destruct x as [b o]. cbn [buffer offset] in *. subst b.
  unfold sign_bit in Hs. rewrite logical_window in Hs by (assumption || reflexivity).
  apply Z.leb_le in Hs.
  assert (B0 : is_byte w0) by (inversion Hw; assumption).
  assert (En : js_and (at_ (pre ++ [w0; w1; w2; w3; w4; w5; w6; w7] ++ post) o) (Num 128)
               = Num 128).
  { unfold at_. subst o. rewrite lookup_window0. cbn [lookup list_lookup app ToNumber].
    rewrite (js_and_128 w0 B0). destruct (Z.ltb_spec w0 128); [lia|reflexivity]. }
  rewrite En. cbn [truthy Z.eqb negb].
  pose proof (scratch_length (pre ++ [w0; w1; w2; w3; w4; w5; w6; w7] ++ post) o
                from_7_down_to_0 (Buffer_alloc 8, false)) as Hlen.
  destruct (fold_left _ from_7_down_to_0 (Buffer_alloc 8, false)) as [scratch inc].
  cbn [fst] in Hlen.
  assert (E7 : at_ scratch (o + 7) = NaN).
  { unfold at_. rewrite lookup_ge_None_2; [reflexivity|].
    rewrite Hlen. cbn. lia. }
  rewrite E7. reflexivity.
Qed.

(** ** Decimal rendering *)

Lemma append_length (a b : string) :
  String.length (a +:+ b) = (String.length a + String.length b)%nat.
Proof.
  induction a as [|c a IH]; [reflexivity|].
  rewrite append_cons. cbn [String.length]. rewrite IH. reflexivity.
Qed.

Lemma fixed_digits_length radix n u : String.length (fixed_digits radix n u) = n.
Proof.
  revert u. induction n as [|n IH]; intros u; [reflexivity|].
  cbn [fixed_digits]. rewrite append_length, IH. cbn [String.length]. lia.
Qed.

Lemma digits_only_app radix a b :
  digits_only radix (a +:+ b) = digits_only radix a && digits_only radix b.
Proof.
  induction a as [|c a IH]; [reflexivity|].
  rewrite append_cons. cbn [digits_only].
  destruct (digit_value radix c); [exact IH|reflexivity].
Qed.

Lemma digit_value_digit_char d :
  0 <= d < 10 -> digit_value 10 (digit_char d) = Some d.
Proof.
  intros Hd.
  assert (H : d = 0 \/ d = 1 \/ d = 2 \/ d = 3 \/ d = 4 \/ d = 5 \/ d = 6
              \/ d = 7 \/ d = 8 \/ d = 9) by lia.
  repeat (destruct H as [-> | H]; [reflexivity|]). subst d. reflexivity.
Qed.

Lemma fixed_digits_only n u : digits_only 10 (fixed_digits 10 n u) = true.
Proof.
  revert u. induction n as [|n IH]; intros u; [reflexivity|].
  cbn [fixed_digits]. rewrite digits_only_app, IH. cbn [digits_only andb].
  rewrite digit_value_digit_char by (apply Z.mod_pos_bound; lia). reflexivity.
Qed.

Lemma fixed_digits_value n u :
  digits_value 10 (fixed_digits 10 n u) 0 = u mod 10 ^ Z.of_nat n.
Proof.
  revert u. induction n as [|n IH]; intros u.
  - cbn. rewrite Z.mod_1_r. reflexivity.
  - cbn [fixed_digits]. rewrite digits_value_app, IH. cbn [digits_value].
    rewrite digit_value_digit_char by (apply Z.mod_pos_bound; lia).
    change (default 0 (Some (u mod 10))) with (u mod 10).
    rewrite Nat2Z.inj_succ, Z.pow_succ_r by lia.
    assert (Hp : 0 < 10 ^ Z.of_nat n) by (apply Z.pow_pos_nonneg; lia).
    rewrite (Z.rem_mul_r u 10 (10 ^ Z.of_nat n)) by lia. lia.
Qed.

(** [digits_of] prints exactly the significant digits, given enough fuel. *)
Lemma digits_of_fixed (n fuel : nat) (z : Z) (acc : string) :
  (1 <= n <= fuel)%nat ->
  0 <= z < 10 ^ Z.of_nat n ->
  (n = 1%nat \/ 10 ^ (Z.of_nat n - 1) <= z) ->
  digits_of fuel 10 z acc = fixed_digits 10 n z +:+ acc.
Proof.
  revert fuel z acc. induction n as [|n IH]; intros fuel z acc Hn Hz Hlow; [lia|].
  destruct fuel as [|fuel]; [lia|].
  cbn [digits_of fixed_digits]. rewrite append_assoc, append_cons, append_nil_l.
  destruct n as [|n].
  - (* one digit *)
    change (10 ^ Z.of_nat 1) with 10 in Hz.
    rewrite (Z.div_small z 10) by lia. reflexivity.
  - assert (Hpow : 10 ^ (Z.of_nat (S (S n)) - 1) = 10 ^ Z.of_nat (S n))
      by (f_equal; lia).
    destruct Hlow as [Hlow|Hlow]; [lia|]. rewrite Hpow in Hlow.
    assert (Hp : 0 < 10 ^ Z.of_nat n) by (apply Z.pow_pos_nonneg; lia).
    assert (E1 : 10 ^ Z.of_nat (S n) = 10 * 10 ^ Z.of_nat n)
      by (rewrite Nat2Z.inj_succ, Z.pow_succ_r by lia; reflexivity).
    assert (E2 : 10 ^ Z.of_nat (S (S n)) = 10 * 10 ^ Z.of_nat (S n))
      by (rewrite (Nat2Z.inj_succ (S n)), Z.pow_succ_r by lia; reflexivity).
    assert (Hq : 10 ^ Z.of_nat n <= z / 10 < 10 ^ Z.of_nat (S n)).
    { split.
      - apply Z.div_le_lower_bound; lia.
      - apply Z.div_lt_upper_bound; lia. }
    destruct (Z.eqb_spec (z / 10) 0) as [E0|_]; [lia|].
    apply IH.
    + lia.
    + lia.
    + right. replace (Z.of_nat (S n) - 1) with (Z.of_nat n) by lia. lia.
Qed.

(** Every non-negative integer has a number of decimal digits. *)
Lemma digit_count_bounded (m : nat) (z : Z) :
  0 <= z < 10 ^ Z.of_nat m ->
  exists n, (1 <= n)%nat /\ z < 10 ^ Z.of_nat n
            /\ (n = 1%nat \/ 10 ^ (Z.of_nat n - 1) <= z).
Proof.
  induction m as [|m IH]; intros Hz.
  - exists 1%nat. change (10 ^ Z.of_nat 0) with 1 in Hz. split; [lia|].
    split; [change (10 ^ Z.of_nat 1) with 10; lia|left; reflexivity].
  - destruct (Z.lt_ge_cases z (10 ^ Z.of_nat m)) as [Hlt|Hge].
    + apply IH. lia.
    + destruct m as [|m].
      * exists 1%nat. split; [lia|]. split; [lia|left; reflexivity].
      * exists (S (S m)). split; [lia|]. split; [lia|]. right.
        replace (Z.of_nat (S (S m)) - 1) with (Z.of_nat (S m)) by lia. exact Hge.
Qed.

Lemma digit_count (z : Z) :
  0 <= z ->
  exists n, (1 <= n <= S (Z.to_nat (Z.log2 z)))%nat /\ z < 10 ^ Z.of_nat n
            /\ (n = 1%nat \/ 10 ^ (Z.of_nat n - 1) <= z).
Proof.
  intros Hz.
  assert (Hm : 0 <= z < 10 ^ Z.of_nat (S (Z.to_nat (Z.log2 z)))).
  { split; [exact Hz|].
    destruct (Z.eq_dec z 0) as [->|Hnz]; [cbn; lia|].
    pose proof (Z.log2_spec z ltac:(lia)) as [_ Hup].
    pose proof (Z.log2_nonneg z) as Hl.
    rewrite Nat2Z.inj_succ, Z2Nat.id by lia.
    eapply Z.lt_le_trans; [exact Hup|].
    apply Z.pow_le_mono_l. lia. }
  destruct (digit_count_bounded _ z Hm) as (n & H1 & H2 & H3).
  exists n. split; [|split; assumption]. split; [exact H1|].
  destruct H3 as [->|H3]; [lia|].
  destruct (Z.eq_dec z 0) as [->|Hnz].
  - assert (0 < 10 ^ (Z.of_nat n - 1)) by (apply Z.pow_pos_nonneg; lia). lia.
  - assert (Hlog : Z.of_nat n - 1 <= Z.log2 z).
    { apply Z.log2_le_pow2; [lia|].
      eapply Z.le_trans; [|exact H3]. apply Z.pow_le_mono_l. lia. }
    lia.
Qed.

(** [String(v)] of an integer is its sign and its significant digits. *)
Lemma String_Num (v : Z) :
  exists n, (1 <= n)%nat /\ Z.abs v < 10 ^ Z.of_nat n
            /\ (n = 1%nat \/ 10 ^ (Z.of_nat n - 1) <= Z.abs v)
            /\ String_ (Num v) = numeral (v <? 0) (fixed_digits 10 n (Z.abs v)).
Proof.
  destruct (digit_count (Z.abs v) (Z.abs_nonneg v)) as (n & Hn & Hlt & Hlow).
  exists n. split; [lia|]. split; [exact Hlt|]. split; [exact Hlow|].
  unfold String_, Number_toString.
  rewrite (digits_of_fixed n _ (Z.abs v) "") by (try split; lia || assumption).
  rewrite append_nil_r. unfold numeral. destruct (v <? 0); reflexivity.
Qed.

(** ** The value [fromDecimalString] builds *)

Lemma Construct_pair_value h l :
  exists w0 w1 w2 w3 w4 w5 w6 w7,
    Construct (Args2 (Num h) (Num l))
    = Ok (mkInt64 ([] ++ [w0; w1; w2; w3; w4; w5; w6; w7] ++ []) 0)
    /\ Forall is_byte [w0; w1; w2; w3; w4; w5; w6; w7]
    /\ unsigned [w0; w1; w2; w3; w4; w5; w6; w7]
       = h mod 2 ^ 32 * 2 ^ 32 + l mod 2 ^ 32.
Proof.
  unfold Construct, setValue. cbn [mbind result_bind mret result_ret].
  change (Buffer_alloc 8) with ([] ++ [0; 0; 0; 0; 0; 0; 0; 0] ++ @nil Z).
  rewrite (copy_bytes_window [] _ _ _ _ _ _ _ _ [] 0%nat _ _ eq_refl).
  pose proof (unsigned_be32_pair (h mod 2 ^ 32) (l mod 2 ^ 32)
                ltac:(apply Z.mod_pos_bound; lia) ltac:(apply Z.mod_pos_bound; lia)) as Hu.
  unfold be32 in *. cbn [app] in Hu.
  do 8 eexists. split; [reflexivity|]. split; [|exact Hu].
  repeat (constructor; [apply is_byte_mod|]). constructor.
Qed.

(** Setting the sign bit of a negative 32-bit integer changes nothing. *)
Lemma lor_sign_bit x : - 2 ^ 31 <= x < 0 -> Z.lor (- 2 ^ 31) x = x.
Proof.
  intros Hx. apply Z.bits_inj'. intros n Hn. rewrite Z.lor_spec.
  destruct (Z.lt_ge_cases n 31) as [Hlt|Hge].
  - change (- 2 ^ 31) with (Z.shiftl (-1) 31).
    rewrite Z.shiftl_spec_low by lia. reflexivity.
  - assert (Hb : Z.testbit x n = true).
    { apply Z.bits_above_log2_neg; [lia|].
      destruct (Z.eq_dec (Z.pred (- x)) 0) as [E|E].
      - rewrite E. cbn. lia.
      - eapply Z.lt_le_trans; [|exact Hge].
        apply Z.log2_lt_pow2; lia. }
    rewrite Hb. apply orb_true_r.
Qed.

Lemma js_or_sign x : - 2 ^ 31 <= x < 0 -> js_or (Num 0x80000000) (Num x) = Num x.
Proof.
  intros Hx. unfold js_or, ToInt32. rewrite (wrap_int32_small x) by lia.
  change (wrap_int32 2147483648) with (- 2 ^ 31).
  rewrite lor_sign_bit by exact Hx. reflexivity.
Qed.

Lemma js_not_small x : - 2 ^ 31 <= x < 2 ^ 31 -> js_not (Num x) = Num (- x - 1).
Proof.
  intros Hx. unfold js_not, ToInt32. rewrite wrap_int32_small by lia.
  unfold Z.lnot. apply f_equal. lia.
Qed.

Lemma js_and_all_ones x :
  - 2 ^ 31 <= x < 2 ^ 31 -> js_and (Num x) (Num 0xffffffff) = Num x.
Proof.
  intros Hx. unfold js_and, ToInt32. rewrite wrap_int32_small by lia.
  change (wrap_int32 4294967295) with (-1). rewrite Z.land_m1_r. reflexivity.
Qed.

(** The pair handed to the constructor for a negative numeral: the two's
    complement of [high * 2^32 + low], as two 32-bit words. *)
Lemma negative_pair_value high low :
  0 <= low < 2 ^ 32 ->
  (0 <= high < 2 ^ 31 \/ (high = 2 ^ 31 /\ low = 0)) ->
  0 < high * 2 ^ 32 + low ->
  exists H L,
    (let high := js_not (Num high) in
     let '(high, low) :=
       if low =? 0
       then (js_and (js_add high (Num 1)) (Num 0xffffffff), Num low)
       else (high, js_add (js_not (Num low)) (Num 1)) in
     (js_or (Num 0x80000000) high, low)) = (Num H, Num L)
    /\ H mod 2 ^ 32 * 2 ^ 32 + L mod 2 ^ 32 = 2 ^ 64 - (high * 2 ^ 32 + low).
Proof.
  intros Hlow Hhigh Hpos. cbv zeta.
  destruct Hhigh as [Hhigh | [-> ->]].
  - rewrite (js_not_small high) by lia.
    destruct (Z.eqb_spec low 0) as [-> | Hnz]; cbv iota.
    + rewrite js_add_exact by lia.
      rewrite js_and_all_ones by lia.
      rewrite js_or_sign by lia.
      eexists _, _. split; [reflexivity|].
      replace (- high - 1 + 1) with (- high) by lia.
      rewrite Z.mod_0_l by lia.
      replace (- high) with (2 ^ 32 - high + (-1) * 2 ^ 32) by lia.
      rewrite Z.mod_add, Z.mod_small by lia. lia.
    + unfold js_not, ToInt32.
      assert (Ew : wrap_int32 low = low \/ wrap_int32 low = low - 2 ^ 32).
      { unfold wrap_int32.
        destruct (Z.lt_ge_cases low (2 ^ 31)).
        - left. rewrite Z.mod_small by lia. lia.
        - right. replace (low + 2 ^ 31) with (low - 2 ^ 31 + 1 * 2 ^ 32) by lia.
          rewrite Z.mod_add, Z.mod_small by lia. lia. }
      assert (Hw : - 2 ^ 31 <= wrap_int32 low < 2 ^ 31).
      { unfold wrap_int32.
        pose proof (Z.mod_pos_bound (low + 2 ^ 31) (2 ^ 32) ltac:(lia)). lia. }
      unfold Z.lnot. rewrite js_add_exact by lia.
      rewrite js_or_sign by lia.
      eexists _, _. split; [reflexivity|].
      replace (- high - 1) with (2 ^ 32 - high - 1 + (-1) * 2 ^ 32) by lia.
      rewrite Z.mod_add, Z.mod_small by lia.
      assert (EL : (Z.pred (- wrap_int32 low) + 1) mod 2 ^ 32 = 2 ^ 32 - low).
      { destruct Ew as [-> | ->].
        - replace (Z.pred (- low) + 1) with (2 ^ 32 - low + (-1) * 2 ^ 32) by lia.
          rewrite Z.mod_add, Z.mod_small by lia. reflexivity.
        - replace (Z.pred (- (low - 2 ^ 32)) + 1) with (2 ^ 32 - low) by lia.
          apply Z.mod_small. lia. }
      rewrite EL. lia.
  - eexists _, _. split; [vm_compute; reflexivity|]. vm_compute. reflexivity.
Qed.

(** The value decoded from a decimal numeral of one to nineteen digits
    whose value fits in 64 bits.  (A negative numeral of sixteen or more
    zeros is left out: the code turns it into the minimum value.) *)
Lemma fromDecimalString_value (neg : bool) (ds : string) :
  digits_only 10 ds = true ->
  (1 <= String.length ds <= 19)%nat ->
  let M := digits_value 10 ds 0 in
  let v := if neg then - M else M in
  (neg = true -> 0 < M) ->
  - 2 ^ 63 <= v < 2 ^ 63 ->
  exists w0 w1 w2 w3 w4 w5 w6 w7,
    fromDecimalString (numeral neg ds)
    = Ok (mkInt64 ([] ++ [w0; w1; w2; w3; w4; w5; w6; w7] ++ []) 0)
    /\ Forall is_byte [w0; w1; w2; w3; w4; w5; w6; w7]
    /\ int64_value (mkInt64 ([] ++ [w0; w1; w2; w3; w4; w5; w6; w7] ++ []) 0) = v.
Proof.
  intros H Hn M v Hpos Hv.
  pose proof (digits_value_pow_bound ds 19 H ltac:(lia)) as HM19. fold M in HM19.
  destruct (Nat.lt_ge_cases (String.length ds) 16) as [Hs | Hm].
  - (* up to fifteen digits: through the number *)
    pose proof (digits_value_pow_bound ds 15 H ltac:(lia)) as HM.
    change (10 ^ Z.of_nat 15) with (10 ^ 15) in HM. fold M in HM.
    assert (E : fromDecimalString (numeral neg ds)
                = Construct (Args1 (Number (Num v)))).
    { unfold fromDecimalString.
      rewrite numeral_negative by exact H. rewrite numeral_length.
      destruct neg.
      - destruct (Nat.ltb_spec (String.length ds + 1) 17); [|lia].
        cbn [numeral]. rewrite StringToNumber_minus_digits by exact H.
        destruct ds as [|c r]; [simpl in Hn; lia|].
        fold M. rewrite fl_small by lia. reflexivity.
      - destruct (Nat.ltb_spec (String.length ds + 0) 16); [|lia].
        cbn [numeral]. rewrite StringToNumber_digits by exact H.
        fold M. rewrite fl_small by lia. reflexivity. }
    rewrite E. apply Construct_number_value. exact Hv.
  - (* sixteen to nineteen digits: through the pair *)
    pose proof (fromDecimalString_mid_form neg ds H ltac:(lia)) as E.
    cbv zeta in E. fold M in E. rewrite E. clear E.
    assert (Hlow : 0 <= M mod 2 ^ 32 < 2 ^ 32) by (apply Z.mod_pos_bound; lia).
    assert (Hhigh : 0 <= M / 2 ^ 32) by (apply Z.div_pos; lia).
    pose proof (Z.div_mod M (2 ^ 32) ltac:(lia)) as EM.
    assert (Hc : (2 ^ 31 <=? M / 2 ^ 32)
                 && negb (neg && (M / 2 ^ 32 =? 2 ^ 31) && (M mod 2 ^ 32 =? 0))
                 = false).
    { destruct (Z.leb_spec (2 ^ 31) (M / 2 ^ 32)) as [Hge|]; [|reflexivity].
      cbn [andb]. apply negb_false_iff.
      destruct neg; [|unfold v in Hv; lia]. unfold v in Hv. cbn [andb].
      apply andb_true_iff. split; [apply Z.eqb_eq|apply Z.eqb_eq]; lia. }
    rewrite Hc.
    destruct neg.
    + assert (Hh : 0 <= M / 2 ^ 32 < 2 ^ 31
                   \/ (M / 2 ^ 32 = 2 ^ 31 /\ M mod 2 ^ 32 = 0)).
      { unfold v in Hv. lia. }
      destruct (negative_pair_value (M / 2 ^ 32) (M mod 2 ^ 32) Hlow Hh
                  ltac:(specialize (Hpos eq_refl); lia)) as (Hw & Lw & Ep & Ev).
      cbv zeta in Ep |- *. rewrite Ep. cbv iota beta.
      destruct (Construct_pair_value Hw Lw)
        as (w0 & w1 & w2 & w3 & w4 & w5 & w6 & w7 & E & Hb & Hu).
      exists w0, w1, w2, w3, w4, w5, w6, w7.
      split; [exact E|]. split; [exact Hb|].
      unfold int64_value. rewrite logical_window by reflexivity.
      rewrite Hu, Ev. unfold v in *. specialize (Hpos eq_refl).
      destruct (Z.ltb_spec (2 ^ 64 - (M / 2 ^ 32 * 2 ^ 32 + M mod 2 ^ 32))
                           (2 ^ 63)); lia.
    + destruct (Construct_pair_value (M / 2 ^ 32) (M mod 2 ^ 32))
        as (w0 & w1 & w2 & w3 & w4 & w5 & w6 & w7 & E & Hb & Hu).
      exists w0, w1, w2, w3, w4, w5, w6, w7.
      split; [exact E|]. split; [exact Hb|].
      unfold int64_value. rewrite logical_window by reflexivity.
      rewrite Hu. unfold v in *.
      assert (Hh : M / 2 ^ 32 < 2 ^ 31) by (apply Z.div_lt_upper_bound; lia).
      rewrite (Z.mod_small (M / 2 ^ 32)) by lia.
      rewrite Z.mod_mod by lia.
      destruct (Z.ltb_spec (M / 2 ^ 32 * 2 ^ 32 + M mod 2 ^ 32) (2 ^ 63)); lia.
Qed.

(** ** Decimal rendering, by digit count *)

(** The number of significant digits of a magnitude is unique. *)
Lemma digit_count_unique (z : Z) (n n' : nat) :
  (1 <= n)%nat -> z < 10 ^ Z.of_nat n ->
  (n = 1%nat \/ 10 ^ (Z.of_nat n - 1) <= z) ->
  (1 <= n')%nat -> z < 10 ^ Z.of_nat n' ->
  (n' = 1%nat \/ 10 ^ (Z.of_nat n' - 1) <= z) ->
  n = n'.
Proof.
  intros H1 H2 H3 H1' H2' H3'.
  destruct (Nat.lt_trichotomy n n') as [Hlt | [E | Hgt]]; [|exact E|]; exfalso.
  - destruct H3' as [-> | H3']; [lia|].
    assert (10 ^ Z.of_nat n <= 10 ^ (Z.of_nat n' - 1))
      by (apply Z.pow_le_mono_r; lia). lia.
  - destruct H3 as [-> | H3]; [lia|].
    assert (10 ^ Z.of_nat n' <= 10 ^ (Z.of_nat n - 1))
      by (apply Z.pow_le_mono_r; lia). lia.
Qed.

Lemma String_Num_fixed (v : Z) (n : nat) :
  (1 <= n)%nat -> Z.abs v < 10 ^ Z.of_nat n ->
  (n = 1%nat \/ 10 ^ (Z.of_nat n - 1) <= Z.abs v) ->
  String_ (Num v) = numeral (v <? 0) (fixed_digits 10 n (Z.abs v)).
Proof.
  intros H1 H2 H3.
  destruct (String_Num v) as (n' & H1' & H2' & H3' & E).
  rewrite (digit_count_unique (Z.abs v) n n') by assumption. exact E.
Qed.

(** A number of twelve digits or more is its leading digits followed by
    its last eleven. *)
Lemma decimal_join (h l : Z) :
  1 <= h -> 0 <= l < 10 ^ 11 ->
  String_ (Num h) +:+ fixed_digits 10 11 l = String_ (Num (h * 10 ^ 11 + l)).
Proof.
  intros Hh Hl.
  destruct (String_Num h) as (n & H1 & H2 & H3 & E).
  rewrite Z.abs_eq in H2, H3, E by lia.
  destruct (Z.ltb_spec h 0); [lia|]. cbn [numeral] in E. rewrite E.
  assert (Hp : 1 <= 10 ^ (Z.of_nat n - 1)) by (apply Z.pow_le_mono_r with (b := 0); lia).
  assert (Hlow : 10 ^ (Z.of_nat n - 1) <= h).
  { destruct H3 as [-> | H3]; [change (10 ^ (Z.of_nat 1 - 1)) with 1; lia|exact H3]. }
  assert (E10 : 10 ^ Z.of_nat (n + 11) = 10 ^ Z.of_nat n * 10 ^ 11).
  { rewrite Nat2Z.inj_add, Z.pow_add_r by lia. reflexivity. }
  assert (E10' : 10 ^ (Z.of_nat (n + 11) - 1) = 10 ^ (Z.of_nat n - 1) * 10 ^ 11).
  { replace (Z.of_nat (n + 11) - 1) with (Z.of_nat n - 1 + 11) by lia.
    rewrite Z.pow_add_r by lia. reflexivity. }
  rewrite (String_Num_fixed (h * 10 ^ 11 + l) (n + 11)).
  - destruct (Z.ltb_spec (h * 10 ^ 11 + l) 0); [lia|]. cbn [numeral].
    rewrite Z.abs_eq by lia.
    rewrite (fixed_digits_app 10 n 11) by lia.
    change (10 ^ Z.of_nat 11) with (10 ^ 11).
    rewrite Z.div_add_l by lia. rewrite (Z.div_small l) by lia.
    rewrite Z.add_0_r.
    rewrite Z.add_comm, Z.mod_add by lia. rewrite Z.mod_small by lia.
    reflexivity.
  - lia.
  - rewrite Z.abs_eq by lia. rewrite E10. nia.
  - right. rewrite Z.abs_eq by lia. rewrite E10'. nia.
Qed.

(** ** The low eleven digits *)

Lemma str_drop_app (a b : string) : str_drop (String.length a) (a +:+ b) = b.
Proof.
  induction a as [|c a IH]; [reflexivity|].
  rewrite append_cons. cbn [String.length str_drop]. exact IH.
Qed.

Lemma js_slice_last (k : nat) (s : string) :
  (1 <= k <= String.length s)%nat ->
  js_slice s (- Z.of_nat k) None = str_drop (String.length s - k) s.
Proof.
  intros H. unfold js_slice. cbn [from_option id].
  destruct (Z.ltb_spec (- Z.of_nat k) 0); [|lia].
  set (len := Z.of_nat (String.length s)).
  destruct (Z.ltb_spec len 0); [lia|].
  rewrite substring_take_drop.
  replace (Z.to_nat (Z.max (len + - Z.of_nat k) 0))
    with (String.length s - k)%nat by (unfold len; lia).
  apply str_take_all. rewrite str_drop_length. unfold len. lia.
Qed.

(** Left-padding with eleven zeros and keeping the last eleven characters
    gives the eleven digits. *)
Lemma pad_eleven (l : Z) (n : nat) :
  (1 <= n <= 11)%nat -> 0 <= l < 10 ^ Z.of_nat n ->
  js_slice ("00000000000" +:+ fixed_digits 10 n l) (-11) None
  = fixed_digits 10 11 l.
Proof.
  intros Hn Hl.
  change (-11) with (- Z.of_nat 11).
  rewrite js_slice_last
    by (rewrite append_length, fixed_digits_length; simpl; lia).
  rewrite append_length, fixed_digits_length.
  change (String.length "00000000000") with 11%nat.
  replace (11 + n - 11)%nat with n by lia.
  change "00000000000" with (fixed_digits 10 11 0).
  replace 11%nat with (n + (11 - n))%nat at 1 by lia.
  rewrite (fixed_digits_app 10 n (11 - n) 0) by lia.
  rewrite Z.div_0_l, Z.mod_0_l by (apply Z.pow_nonzero; lia).
  rewrite append_assoc.
  rewrite <- (fixed_digits_length 10 n 0) at 1.
  rewrite str_drop_app.
  replace 11%nat with ((11 - n) + n)%nat at 2 by lia.
  rewrite (fixed_digits_app 10 (11 - n) n l) by lia.
  rewrite Z.div_small, Z.mod_small by lia. reflexivity.
Qed.

Lemma low_digits (l : Z) :
  0 <= l < 10 ^ 11 ->
  js_slice ("00000000000" +:+ String_ (Num l)) (-11) None = fixed_digits 10 11 l.
Proof.
  intros Hl.
  destruct (String_Num l) as (n & H1 & H2 & H3 & E).
  rewrite Z.abs_eq in H2, H3, E by lia.
  destruct (Z.ltb_spec l 0); [lia|]. cbn [numeral] in E. rewrite E.
  apply pad_eleven; [|lia].
  split; [exact H1|].
  destruct H3 as [-> | H3]; [lia|].
  destruct (Nat.le_gt_cases n 11) as [Hle | Hgt]; [exact Hle|exfalso].
  assert (10 ^ 11 <= 10 ^ (Z.of_nat n - 1)) by (apply Z.pow_le_mono_r; lia).
  lia.
Qed.

(** ** The limbs of [toDecimalString] *)

Lemma js_shl_octet (z k : Z) :
  is_byte z -> 0 <= k <= 16 -> js_shl (Num z) k = Num (z * 2 ^ k).
Proof.
  intros Hz Hk. unfold is_byte in Hz. unfold js_shl, ToInt32.
  assert (Hp : 0 < 2 ^ k <= 2 ^ 16).
  { split; [apply Z.pow_pos_nonneg; lia|apply Z.pow_le_mono_r; lia]. }
  rewrite (wrap_int32_small z) by lia.
  rewrite Z.shiftl_mul_pow2 by lia.
  change (2 ^ 16) with 65536 in Hp.
  rewrite wrap_int32_small by nia. reflexivity.
Qed.

Lemma Math_floor_div_POW10_11 a :
  Math_floor (js_div (Num a) POW10_11) = Num (a / 10 ^ 11).
Proof.
  unfold Math_floor, js_div, POW10_11, Qdiv, Qmult, Qinv, Qfloor.
  cbn [Qnum Qden Pos.mul]. rewrite Z.mul_1_r. reflexivity.
Qed.

(** With [2^48 = 2814 * 10^11 + 74976710656], the two limbs are the
    quotient and the remainder of the magnitude by [10^11]; every
    intermediate sum is below [2^53], hence exact. *)
Lemma limbs m0 m1 m2 m3 m4 m5 m6 m7 :
  Forall is_byte [m0; m1; m2; m3; m4; m5; m6; m7] ->
  let m := unsigned [m0; m1; m2; m3; m4; m5; m6; m7] in
  let high2 := js_add (Num m1) (js_shl (Num m0) 8) in
  let low :=
    js_add
      (js_add
         (js_add
            (js_add
               (js_add (Num m7) (js_shl (Num m6) 8))
               (js_shl (Num m5) 16))
            (js_mul (Num m4) (Num POW2_24)))
         (js_mul (js_add (Num m3) (js_shl (Num m2) 8)) (Num POW2_32)))
      (js_mul high2 (Num 74976710656)) in
  let high := js_add (Math_floor (js_div low POW10_11)) (js_mul high2 (Num 2814)) in
  high = Num (m / 10 ^ 11)
  /\ js_rem low (Num POW10_11) = Num (m mod 10 ^ 11).
Proof.
  intros Hb. cbv zeta. rewrite unsigned_window.
  pose proof Hb as Hb'. bytes_of Hb'.
  rewrite !js_shl_octet by (unfold is_byte; lia).
  unfold POW2_24, POW2_32.
  repeat first [rewrite js_add_exact by lia | rewrite js_mul_exact by lia].
  rewrite Math_floor_div_POW10_11.
  set (L := m7 + m6 * 2 ^ 8 + m5 * 2 ^ 16 + m4 * 2 ^ 24
            + (m3 + m2 * 2 ^ 8) * 2 ^ 32 + (m1 + m0 * 2 ^ 8) * 74976710656).
  assert (HL : 0 <= L < 2 ^ 53) by (unfold L; lia).
  assert (Hq : 0 <= L / 10 ^ 11 < 2 ^ 52).
  { split; [apply Z.div_pos; lia|apply Z.div_lt_upper_bound; lia]. }
  rewrite js_add_exact by lia.
  assert (EM : m0 * 2 ^ 56 + m1 * 2 ^ 48 + m2 * 2 ^ 40 + m3 * 2 ^ 32
               + m4 * 2 ^ 24 + m5 * 2 ^ 16 + m6 * 2 ^ 8 + m7
               = (m1 + m0 * 2 ^ 8) * 2814 * 10 ^ 11 + L) by (unfold L; lia).
  rewrite EM. split.
  - rewrite Z.div_add_l by lia. f_equal. lia.
  - cbn [js_rem]. unfold POW10_11. change (10 ^ 11 =? 0) with false. cbv iota.
    rewrite Z.rem_mod_nonneg by lia.
    rewrite Z.add_comm, Z.mod_add by lia. reflexivity.
Qed.

(** ** The scratch magnitude of a negative value *)

(** One iteration: [incremented] is false exactly while a carry of 1 is
    still to be added, so the loop is a two's complement with carry. *)
Lemma scratch_step_carry (b buf : list Z) (o i : nat) (w c : Z) :
  b !! (o + i)%nat = Some w -> is_byte w -> 0 <= c <= 1 ->
  scratch_step b o (buf, c =? 0) i
  = (<[i := (255 - w + c) mod 256]> buf, (255 - w + c) / 256 =? 0).
Proof.
  intros Hl Hw Hc. unfold is_byte in Hw. unfold scratch_step. rewrite Hl.
  cbn [ToNumber truthy].
  rewrite (js_not_small w) by lia.
  assert (Ec : (if c =? 0 then Num 0 else Num 1) = Num c).
  { destruct (Z.eqb_spec c 0) as [-> | ]; [reflexivity|].
    replace c with 1 by lia. reflexivity. }
  rewrite Ec. rewrite js_add_exact by lia. rewrite js_and_255.
  replace ((- w - 1 + c) mod 256) with ((255 - w + c) mod 256).
  2: { replace (255 - w + c) with (- w - 1 + c + 1 * 256) by lia.
       apply Z.mod_add. lia. }
  rewrite store_byte. f_equal.
  destruct (Z.eqb_spec w 0) as [-> | Hnz]; cbn [negb].
  - rewrite orb_false_r.
    destruct (Z.eqb_spec c 0) as [-> | ]; [reflexivity|].
    replace c with 1 by lia. reflexivity.
  - rewrite orb_true_r. symmetry. apply Z.eqb_eq.
    apply Z.div_small. lia.
Qed.

Ltac step_scratch w Hw :=
  match goal with
  | Hc : 0 <= ?c <= 1
    |- context [scratch_step ?b ?o (?buf, ?c =? 0) ?i] =>
      let Hc' := fresh "Hc" in
      rewrite (scratch_step_carry b buf o i w c eq_refl Hw Hc);
      pose proof (complement_carry_bound w c Hw Hc) as Hc';
      cbn [insert list_insert];
      let q := fresh "q" in
      let r := fresh "r" in
      let Eq := fresh "Eq" in
      let Hr := fresh "Hr" in
      pose proof (Z.div_mod (255 - w + c) 256 ltac:(lia)) as Eq;
      pose proof (Z.mod_pos_bound (255 - w + c) 256 ltac:(lia)) as Hr;
      set (q := (255 - w + c) / 256) in *;
      set (r := (255 - w + c) mod 256) in *;
      clearbody q r; clear Hc
  end.

(** At offset 0 the scratch buffer holds the magnitude of the value. *)
Lemma scratch_window w0 w1 w2 w3 w4 w5 w6 w7 post :
  Forall is_byte [w0; w1; w2; w3; w4; w5; w6; w7] ->
  0 < unsigned [w0; w1; w2; w3; w4; w5; w6; w7] ->
  exists r0 r1 r2 r3 r4 r5 r6 r7 inc,
    fold_left (scratch_step ([w0; w1; w2; w3; w4; w5; w6; w7] ++ post) 0)
              from_7_down_to_0 (Buffer_alloc 8, false)
    = ([r0; r1; r2; r3; r4; r5; r6; r7], inc)
    /\ Forall is_byte [r0; r1; r2; r3; r4; r5; r6; r7]
    /\ unsigned [r0; r1; r2; r3; r4; r5; r6; r7]
       = 2 ^ 64 - unsigned [w0; w1; w2; w3; w4; w5; w6; w7].
Proof.
  intros Hw Hpos. unfold from_7_down_to_0.
  change (Buffer_alloc 8) with [0; 0; 0; 0; 0; 0; 0; 0].
  change false with (1 =? 0).
  cbn [fold_left].
  pose proof Hw as Hw'. bytes_of Hw'. clear Hw'.
  assert (B0 : is_byte w0) by (unfold is_byte; lia).
  assert (B1 : is_byte w1) by (unfold is_byte; lia).
  assert (B2 : is_byte w2) by (unfold is_byte; lia).
  assert (B3 : is_byte w3) by (unfold is_byte; lia).
  assert (B4 : is_byte w4) by (unfold is_byte; lia).
  assert (B5 : is_byte w5) by (unfold is_byte; lia).
  assert (B6 : is_byte w6) by (unfold is_byte; lia).
  assert (B7 : is_byte w7) by (unfold is_byte; lia).
  rewrite unsigned_window in Hpos.
  assert (Hc : 0 <= 1 <= 1) by lia.
  step_scratch w7 B7. step_scratch w6 B6. step_scratch w5 B5. step_scratch w4 B4.
  step_scratch w3 B3. step_scratch w2 B2. step_scratch w1 B1. step_scratch w0 B0.
  do 9 eexists. split; [reflexivity|]. split.
  - repeat (constructor; [unfold is_byte; lia|]). constructor.
  - rewrite !unsigned_window. lia.
Qed.

(** ** What [toDecimalString] returns *)

Lemma js_and_224_truthy z :
  is_byte z -> truthy (js_and (Num z) (Num 0xe0)) = negb (z <? 32).
Proof.
  intros Hz.
  pose (f := fun z => Bool.eqb (truthy (js_and (Num z) (Num 0xe0))) (negb (z <? 32))).
  assert (H : f z = true) by (apply forall_bytes; [vm_compute; reflexivity|exact Hz]).
  unfold f in H. apply eqb_prop in H. exact H.
Qed.

(** The test on a window: true exactly when the first eleven bits are 0. *)
Lemma magnitude_is_small_window pre w0 w1 w2 w3 w4 w5 w6 w7 post :
  Forall is_byte [w0; w1; w2; w3; w4; w5; w6; w7] ->
  magnitude_is_small (pre ++ [w0; w1; w2; w3; w4; w5; w6; w7] ++ post) (length pre)
  = (w0 =? 0) && (w1 <? 32).
Proof.
  intros Hw.
  assert (B0 : is_byte w0) by (inversion Hw; assumption).
  assert (B1 : is_byte w1) by (inversion Hw as [|? ? ? Hw']; inversion Hw'; assumption).
  unfold magnitude_is_small, at_. rewrite lookup_window0, lookup_window.
  cbn [lookup list_lookup app ToNumber].
  rewrite (not_of_octet_truthy w0 B0), (js_and_224_truthy w1 B1).
  cbn [truthy negb andb]. rewrite orb_false_r, !negb_involutive. reflexivity.
Qed.

(** [valueOf()] of a value of magnitude below [2^53]. *)
Lemma valueOf_small (x : Int64) :
  valid x -> Z.abs (int64_value x) < 2 ^ 53 -> valueOf x = Num (int64_value x).
Proof.
  intros Hv Hs.
  destruct (valid_window x Hv)
    as (pre & w0 & w1 & w2 & w3 & w4 & w5 & w6 & w7 & post & E & Hpre & Hw).
  destruct x as [b o]. cbn [buffer offset] in *. subst b. unfold valueOf.
  destruct (toNumber_window pre w0 w1 w2 w3 w4 w5 w6 w7 post o false Hpre Hw)
    as (X & (xz & Exz & HX) & ->).
  injection Exz as <-. cbv zeta in HX.
  set (v := int64_value _) in *. clearbody v.
  destruct HX as [[-> _] | [_ Hgt]]; [|lia].
  unfold js_ge, js_gt, js_lt, js_eq, MAX_INT. cbn [negb andb].
  destruct (Z.ltb_spec (2 ^ 53) (Z.abs v)); [lia|].
  destruct (Z.eqb_spec (Z.abs v) (2 ^ 53)); [lia|]. cbn [orb].
  destruct (Z.ltb_spec v 0); f_equal; lia.
Qed.

Lemma String_negative (m : Z) :
  0 < m -> String_ (Num (- m)) = "-" +:+ String_ (Num m).
Proof.
  intros Hm. unfold String_, Number_toString. rewrite Z.abs_opp.
  destruct (Z.ltb_spec (- m) 0); [|lia]. destruct (Z.ltb_spec m 0); [lia|].
  rewrite append_nil_l. reflexivity.
Qed.

Ltac octets Hw :=
  let Hw' := fresh "Hw" in
  pose proof Hw as Hw'; bytes_of Hw'; clear Hw'.

(** A value without the sign bit prints as its decimal rendering, at any
    offset: through [toString()] below [2^53], through the limbs above. *)
Lemma toDecimalString_nonnegative (x : Int64) :
  valid x -> 0 <= int64_value x ->
  toDecimalString x = String_ (Num (int64_value x)).
Proof.
  intros Hv Hpos.
  destruct (valid_window x Hv)
    as (pre & w0 & w1 & w2 & w3 & w4 & w5 & w6 & w7 & post & E & Hpre & Hw).
  pose proof (int64_value_window pre w0 w1 w2 w3 w4 w5 w6 w7 post (offset x) Hpre Hw)
    as Ev.
  destruct x as [b o]. cbn [buffer offset] in *. subst b o.
  octets Hw.
  assert (H0 : w0 < 128) by (destruct (Z.ltb_spec w0 128); lia).
  destruct (Z.ltb_spec w0 128); [|lia]. rewrite Z.sub_0_r in Ev.
  unfold toDecimalString. cbn [buffer offset].
  rewrite magnitude_is_small_window by exact Hw.
  destruct (Z.eqb_spec w0 0) as [-> | Hnz];
    [destruct (Z.ltb_spec w1 32) as [Hlt | Hge]|]; cbn [andb].
  - (* delegated *)
    unfold toString. rewrite valueOf_small by (exact Hv || lia). reflexivity.
  - (* limbs *)
    set (b := pre ++ [0; w1; w2; w3; w4; w5; w6; w7] ++ post).
    assert (A0 : at_ b (length pre) = Num 0)
      by (unfold at_, b; rewrite lookup_window0; reflexivity).
    assert (A : forall k wk, [0; w1; w2; w3; w4; w5; w6; w7] !! k = Some wk ->
                             at_ b (length pre + k) = Num wk).
    { intros k wk Hk. unfold at_, b. rewrite lookup_window.
      rewrite (lookup_app_l_Some _ _ _ _ Hk). reflexivity. }
    rewrite A0.
    change (truthy (js_and (Num 0) (Num 128))) with false. cbv iota.
    rewrite !A0, !(A 1%nat w1), !(A 2%nat w2), !(A 3%nat w3), !(A 4%nat w4),
      !(A 5%nat w5), !(A 6%nat w6), !(A 7%nat w7) by reflexivity.
    destruct (limbs 0 w1 w2 w3 w4 w5 w6 w7 Hw) as [Eh El]. cbv zeta in Eh, El.
    cbv zeta. rewrite Eh, El. rewrite unsigned_window, <- Ev.
    set (v := int64_value _) in *.
    assert (Hq : 1 <= v / 10 ^ 11) by (apply Z.div_le_lower_bound; lia).
    pose proof (Z.mod_pos_bound v (10 ^ 11) ltac:(lia)) as Hr.
    rewrite low_digits by exact Hr. rewrite append_nil_l.
    rewrite decimal_join by assumption. f_equal. f_equal.
    pose proof (Z.div_mod v (10 ^ 11) ltac:(lia)). lia.
  - set (b := pre ++ [w0; w1; w2; w3; w4; w5; w6; w7] ++ post).
    assert (A0 : at_ b (length pre) = Num w0)
      by (unfold at_, b; rewrite lookup_window0; reflexivity).
    assert (A : forall k wk, [w0; w1; w2; w3; w4; w5; w6; w7] !! k = Some wk ->
                             at_ b (length pre + k) = Num wk).
    { intros k wk Hk. unfold at_, b. rewrite lookup_window.
      rewrite (lookup_app_l_Some _ _ _ _ Hk). reflexivity. }
    rewrite A0. rewrite (js_and_128 w0) by (unfold is_byte; lia).
    destruct (Z.ltb_spec w0 128); [|lia].
    change (truthy (Num 0)) with false. cbv iota.
    rewrite !A0, !(A 1%nat w1), !(A 2%nat w2), !(A 3%nat w3), !(A 4%nat w4),
      !(A 5%nat w5), !(A 6%nat w6), !(A 7%nat w7) by reflexivity.
    destruct (limbs w0 w1 w2 w3 w4 w5 w6 w7 Hw) as [Eh El]. cbv zeta in Eh, El.
    cbv zeta. rewrite Eh, El. rewrite unsigned_window, <- Ev.
    set (v := int64_value _) in *.
    assert (Hq : 1 <= v / 10 ^ 11) by (apply Z.div_le_lower_bound; lia).
    pose proof (Z.mod_pos_bound v (10 ^ 11) ltac:(lia)) as Hr.
    rewrite low_digits by exact Hr. rewrite append_nil_l.
    rewrite decimal_join by assumption. f_equal. f_equal.
    pose proof (Z.div_mod v (10 ^ 11) ltac:(lia)). lia.
Qed.

(** A value with the sign bit set, held at offset 0, prints as a minus
    sign, the quotient of its magnitude by [10^11] and the eleven digits of
    the remainder: the quotient is printed even when it is 0. *)
Lemma toDecimalString_negative (x : Int64) :
  valid x -> int64_value x < 0 -> offset x = 0%nat ->
  let m := - int64_value x in
  toDecimalString x
  = "-" +:+ String_ (Num (m / 10 ^ 11)) +:+ fixed_digits 10 11 (m mod 10 ^ 11).
Proof.
  intros Hv Hneg Ho m.
  destruct (valid_window x Hv)
    as (pre & w0 & w1 & w2 & w3 & w4 & w5 & w6 & w7 & post & E & Hpre & Hw).
  pose proof (int64_value_window pre w0 w1 w2 w3 w4 w5 w6 w7 post (offset x) Hpre Hw)
    as Ev.
  destruct x as [b o]. cbn [buffer offset] in *. subst b o.
  destruct pre as [|? ?]; [|discriminate Hpre]. clear Hpre. cbn [app] in *.
  change (w0 :: w1 :: w2 :: w3 :: w4 :: w5 :: w6 :: w7 :: post)
    with ([w0; w1; w2; w3; w4; w5; w6; w7] ++ post) in *.
  octets Hw.
  assert (H0 : 128 <= w0) by (destruct (Z.ltb_spec w0 128); lia).
  destruct (Z.ltb_spec w0 128); [lia|].
  unfold toDecimalString. cbn [buffer offset].
  rewrite (magnitude_is_small_window [] w0 w1 w2 w3 w4 w5 w6 w7 post Hw
           : magnitude_is_small ([w0; w1; w2; w3; w4; w5; w6; w7] ++ post) 0 = _).
  destruct (Z.eqb_spec w0 0); [lia|]. cbn [andb].
  set (b := [w0; w1; w2; w3; w4; w5; w6; w7] ++ post).
  assert (A0 : at_ b 0 = Num w0) by reflexivity.
  rewrite A0. rewrite (js_and_128 w0) by (unfold is_byte; lia).
  destruct (Z.ltb_spec w0 128); [lia|].
  change (truthy (Num 128)) with true. cbv iota.
  assert (Hu : 0 < unsigned [w0; w1; w2; w3; w4; w5; w6; w7])
    by (rewrite unsigned_window; lia).
  destruct (scratch_window w0 w1 w2 w3 w4 w5 w6 w7 post Hw Hu)
    as (r0 & r1 & r2 & r3 & r4 & r5 & r6 & r7 & inc & Es & Hr & Eu).
  fold b in Es. rewrite Es. cbv iota beta.
  change (at_ [r0; r1; r2; r3; r4; r5; r6; r7] 0) with (Num r0).
  change (at_ [r0; r1; r2; r3; r4; r5; r6; r7] (0 + 1)) with (Num r1).
  change (at_ [r0; r1; r2; r3; r4; r5; r6; r7] (0 + 2)) with (Num r2).
  change (at_ [r0; r1; r2; r3; r4; r5; r6; r7] (0 + 3)) with (Num r3).
  change (at_ [r0; r1; r2; r3; r4; r5; r6; r7] (0 + 4)) with (Num r4).
  change (at_ [r0; r1; r2; r3; r4; r5; r6; r7] (0 + 5)) with (Num r5).
  change (at_ [r0; r1; r2; r3; r4; r5; r6; r7] (0 + 6)) with (Num r6).
  change (at_ [r0; r1; r2; r3; r4; r5; r6; r7] (0 + 7)) with (Num r7).
  destruct (limbs r0 r1 r2 r3 r4 r5 r6 r7 Hr) as [Eh El]. cbv zeta in Eh, El.
  cbv zeta. rewrite Eh, El. rewrite Eu, unsigned_window.
  assert (Em : 2 ^ 64 - (w0 * 2 ^ 56 + w1 * 2 ^ 48 + w2 * 2 ^ 40 + w3 * 2 ^ 32
                         + w4 * 2 ^ 24 + w5 * 2 ^ 16 + w6 * 2 ^ 8 + w7) = m)
    by (unfold m; lia).
  rewrite Em.
  rewrite low_digits by (apply Z.mod_pos_bound; lia).
  reflexivity.
Qed.

(** From [-10^11] down, the rendering is the decimal rendering of the
    value. *)
Lemma toDecimalString_negative_large (x : Int64) :
  valid x -> int64_value x <= - 10 ^ 11 -> offset x = 0%nat ->
  toDecimalString x = String_ (Num (int64_value x)).
Proof.
  intros Hv Hneg Ho.
  pose proof (toDecimalString_negative x Hv ltac:(lia) Ho) as E. cbv zeta in E.
  rewrite E. set (m := - int64_value x) in *.
  replace (int64_value x) with (- m) by (unfold m; lia).
  rewrite String_negative by lia. f_equal.
  assert (Hq : 1 <= m / 10 ^ 11) by (apply Z.div_le_lower_bound; lia).
  pose proof (Z.mod_pos_bound m (10 ^ 11) ltac:(lia)) as Hr.
  rewrite decimal_join by assumption. f_equal. f_equal.
  pose proof (Z.div_mod m (10 ^ 11) ltac:(lia)). lia.
Qed.

(** Between [-10^11] and 0 it is not: a [0] and eleven digits follow the
    sign, thirteen characters where the rendering has at most twelve. *)
Lemma toDecimalString_negative_small (x : Int64) :
  valid x -> - 10 ^ 11 < int64_value x < 0 -> offset x = 0%nat ->
  toDecimalString x = "-0" +:+ fixed_digits 10 11 (- int64_value x)
  /\ toDecimalString x <> String_ (Num (int64_value x)).
Proof.
  intros Hv Hneg Ho.
  pose proof (toDecimalString_negative x Hv ltac:(lia) Ho) as E. cbv zeta in E.
  set (m := - int64_value x) in *.
  rewrite Z.div_small, Z.mod_small in E by lia.
  assert (E' : toDecimalString x = "-0" +:+ fixed_digits 10 11 m).
  { rewrite E. reflexivity. }
  split; [exact E'|].
  intros Hx. apply (f_equal String.length) in Hx.
  rewrite E', append_length, fixed_digits_length in Hx.
  destruct (String_Num (int64_value x)) as (n & H1 & H2 & H3 & En).
  rewrite En, numeral_length, fixed_digits_length in Hx.
  assert (Hn : (n <= 11)%nat).
  { destruct H3 as [-> | H3]; [lia|].
    destruct (Nat.le_gt_cases n 11) as [Hle | Hgt]; [exact Hle|exfalso].
    assert (10 ^ 11 <= 10 ^ (Z.of_nat n - 1)) by (apply Z.pow_le_mono_r; lia).
    lia. }
  cbn [String.length] in Hx. destruct (int64_value x <? 0); lia.
Qed.

(** ** The decimal round trip, value by value *)

Lemma canonical_String (v : Z) : canonical (String_ (Num v)) v.
Proof.
  destruct (String_Num v) as (n & H1 & H2 & H3 & E).
  exists n. auto.
Qed.

Lemma canonical_unique (s : string) (v : Z) :
  canonical s v -> s = String_ (Num v).
Proof.
  intros (n & H1 & H2 & H3 & ->). symmetry. apply String_Num_fixed; assumption.
Qed.

(** The extent of the defect behind C1 and C2.  For every signed 64-bit
    integer [v], [fromDecimalString] of its canonical rendering is the value
    [v]; [toDecimalString] of that returns the rendering when [v >= 0] or
    [v <= -10^11], and a string with a [0] and padding zeros after the sign
    when [-10^11 < v < 0]. *)
Lemma decimal_roundtrip_extent (s : string) (v : Z) :
  canonical s v -> - 2 ^ 63 <= v < 2 ^ 63 ->
  exists c,
    fromDecimalString s = Ok c
    /\ valid c /\ offset c = 0%nat /\ int64_value c = v
    /\ (0 <= v \/ v <= - 10 ^ 11 -> toDecimalString c = s)
    /\ (- 10 ^ 11 < v < 0 ->
        toDecimalString c = "-0" +:+ fixed_digits 10 11 (- v)
        /\ toDecimalString c <> s).
Proof.
  intros Hc Hv. pose proof (canonical_unique s v Hc) as Es.
  destruct Hc as (n & H1 & H2 & H3 & E).
  assert (Hn : (n <= 19)%nat).
  { destruct H3 as [-> | H3]; [lia|].
    destruct (Nat.le_gt_cases n 19) as [Hle | Hgt]; [exact Hle|exfalso].
    assert (10 ^ 19 <= 10 ^ (Z.of_nat n - 1)) by (apply Z.pow_le_mono_r; lia).
    lia. }
  set (ds := fixed_digits 10 n (Z.abs v)) in *.
  assert (Hd : digits_only 10 ds = true) by apply fixed_digits_only.
  assert (Hl : String.length ds = n) by apply fixed_digits_length.
  assert (HM : digits_value 10 ds 0 = Z.abs v).
  { unfold ds. rewrite fixed_digits_value. apply Z.mod_small. lia. }
  destruct (fromDecimalString_value (v <? 0) ds Hd ltac:(lia))
    as (w0 & w1 & w2 & w3 & w4 & w5 & w6 & w7 & Ef & Hb & Ev).
  { rewrite HM. intros Hneg. apply Z.ltb_lt in Hneg. lia. }
  { rewrite HM. destruct (Z.ltb_spec v 0); lia. }
  rewrite HM in Ev.
  assert (Ev' : (if v <? 0 then - Z.abs v else Z.abs v) = v)
    by (destruct (Z.ltb_spec v 0); lia).
  rewrite Ev' in Ev. clear Ev'.
  set (c := mkInt64 ([] ++ [w0; w1; w2; w3; w4; w5; w6; w7] ++ []) 0) in *.
  assert (Hvalid : valid c).
  { split; [cbn; lia|]. exact Hb. }
  exists c. rewrite E. split; [exact Ef|]. split; [exact Hvalid|].
  split; [reflexivity|]. split; [exact Ev|]. rewrite <- E, Es, <- Ev. split.
  - intros [Hpos | Hneg].
    + apply toDecimalString_nonnegative; assumption.
    + apply toDecimalString_negative_large; [assumption|assumption|reflexivity].
  - intros Hneg. apply toDecimalString_negative_small;
      [assumption|assumption|reflexivity].
Qed.

(** * Further properties of the class *)

(** ** [setValue] writes the eight octets of the window and nothing else *)

(** A half that is [NaN] or infinite is written as 0 is. *)
Lemma copy_bytes_finite (this : Int64) (hi lo : number) :
  exists h l, copy_bytes this hi lo = copy_bytes this (Num h) (Num l).
Proof.
  destruct hi as [|s|h], lo as [|s'|l];
    [exists 0, 0|exists 0, 0|exists 0, l|exists 0, 0|exists 0, 0|exists 0, l
    |exists h, 0|exists h, 0|exists h, l]; reflexivity.
Qed.

Lemma written_window pre w0 w1 w2 w3 w4 w5 w6 w7 post o (negate : bool) hi lo :
  length pre = o ->
  let this := mkInt64 (pre ++ [w0; w1; w2; w3; w4; w5; w6; w7] ++ post) o in
  exists r0 r1 r2 r3 r4 r5 r6 r7,
    (if negate then _2scomp (copy_bytes this hi lo) else copy_bytes this hi lo)
    = mkInt64 (pre ++ [r0; r1; r2; r3; r4; r5; r6; r7] ++ post) o
    /\ Forall is_byte [r0; r1; r2; r3; r4; r5; r6; r7].
Proof.
  intros Ho this.
  destruct (copy_bytes_finite this hi lo) as (h & l & ->). unfold this.
  rewrite (copy_bytes_window _ _ _ _ _ _ _ _ _ _ _ _ _ Ho).
  assert (Hbytes : exists b0 b1 b2 b3 b4 b5 b6 b7,
            be32 (h mod 2 ^ 32) ++ be32 (l mod 2 ^ 32)
            = [b0; b1; b2; b3; b4; b5; b6; b7]
            /\ Forall is_byte [b0; b1; b2; b3; b4; b5; b6; b7]).
  { do 8 eexists. split; [reflexivity|].
    repeat (constructor; [apply is_byte_mod|]). constructor. }
  destruct Hbytes as (b0 & b1 & b2 & b3 & b4 & b5 & b6 & b7 & -> & Hb).
  destruct negate.
  - destruct (_2scomp_window pre b0 b1 b2 b3 b4 b5 b6 b7 post o Ho Hb)
      as (r0 & r1 & r2 & r3 & r4 & r5 & r6 & r7 & E & Hr & _).
    exists r0, r1, r2, r3, r4, r5, r6, r7. split; [exact E|exact Hr].
  - exists b0, b1, b2, b3, b4, b5, b6, b7. split; [reflexivity|exact Hb].
Qed.

Lemma setValue_window pre w0 w1 w2 w3 w4 w5 w6 w7 post o args r :
  length pre = o ->
  setValue (mkInt64 (pre ++ [w0; w1; w2; w3; w4; w5; w6; w7] ++ post) o) args = Ok r ->
  exists r0 r1 r2 r3 r4 r5 r6 r7,
    r = mkInt64 (pre ++ [r0; r1; r2; r3; r4; r5; r6; r7] ++ post) o
    /\ Forall is_byte [r0; r1; r2; r3; r4; r5; r6; r7].
Proof.
  intros Ho E.
  assert (G : forall (negate : bool) hi lo,
    Ok (if negate
        then _2scomp (copy_bytes
               (mkInt64 (pre ++ [w0; w1; w2; w3; w4; w5; w6; w7] ++ post) o) hi lo)
        else copy_bytes
               (mkInt64 (pre ++ [w0; w1; w2; w3; w4; w5; w6; w7] ++ post) o) hi lo)
    = Ok r ->
    exists r0 r1 r2 r3 r4 r5 r6 r7,
      r = mkInt64 (pre ++ [r0; r1; r2; r3; r4; r5; r6; r7] ++ post) o
      /\ Forall is_byte [r0; r1; r2; r3; r4; r5; r6; r7]).
  { intros negate hi lo Er. injection Er as <-.
    destruct (written_window pre w0 w1 w2 w3 w4 w5 w6 w7 post o negate hi lo Ho)
      as (r0 & r1 & r2 & r3 & r4 & r5 & r6 & r7 & Ew & Hw).
    exists r0, r1, r2, r3, r4, r5, r6, r7. split; [exact Ew|exact Hw]. }
  unfold setValue in E.
  destruct args as [|[s|n|]|hi lo]; cbn [mbind result_bind mret result_ret] in E.
  - exact (G false _ _ E).
  - exact (G false _ _ E).
  - destruct (frac_gt (js_div (Math_abs n) VAL32) VAL32); [discriminate E|].
    cbn [mbind result_bind mret result_ret] in E. exact (G _ _ _ E).
  - discriminate E.
  - exact (G false _ _ E).
Qed.

Lemma setValue_keeps_valid (this : Int64) (args : arguments) (r : Int64) :
  valid this -> setValue this args = Ok r -> valid r.
Proof.
  intros Hv E.
  destruct (valid_window this Hv)
    as (pre & w0 & w1 & w2 & w3 & w4 & w5 & w6 & w7 & post & Eb & Hpre & Hw).
  destruct Hv as [Hlen Hall].
  destruct this as [b o]. cbn [buffer offset] in *. subst b.
  destruct (setValue_window pre w0 w1 w2 w3 w4 w5 w6 w7 post o args r Hpre E)
    as (r0 & r1 & r2 & r3 & r4 & r5 & r6 & r7 & -> & Hr).
  apply Forall_app in Hall. destruct Hall as [Hp Hrest].
  apply Forall_app in Hrest. destruct Hrest as [_ Hpost].
  split.
  - cbn [buffer offset]. rewrite !length_app in *. cbn [length] in *. lia.
  - cbn [buffer]. apply Forall_app. split; [exact Hp|].
    apply Forall_app. split; [exact Hr|exact Hpost].
Qed.

(** X1. On a valid value, a [setValue] that returns writes only the eight
    octets of the window: the offset and the length of the buffer are kept,
    the octets before the offset and from [offset + 8] on are untouched,
    and the value stays valid. *)
Theorem setValue_frame (this : Int64) (args : arguments) (r : Int64) :
  valid this -> setValue this args = Ok r ->
  offset r = offset this
  /\ length (buffer r) = length (buffer this)
  /\ take (offset this) (buffer r) = take (offset this) (buffer this)
  /\ drop (offset this + 8) (buffer r) = drop (offset this + 8) (buffer this)
  /\ valid r.
Proof.
  intros Hv E.
  destruct (valid_window this Hv)
    as (pre & w0 & w1 & w2 & w3 & w4 & w5 & w6 & w7 & post & Eb & Hpre & Hw).
  destruct Hv as [Hlen Hall].
  destruct this as [b o]. cbn [buffer offset] in *. subst b.
  destruct (setValue_window pre w0 w1 w2 w3 w4 w5 w6 w7 post o args r Hpre E)
    as (r0 & r1 & r2 & r3 & r4 & r5 & r6 & r7 & -> & Hr).
  cbn [buffer offset]. subst o.
  apply Forall_app in Hall. destruct Hall as [Hp Hrest].
  apply Forall_app in Hrest. destruct Hrest as [_ Hpost].
  split; [reflexivity|]. split.
  { rewrite !length_app. reflexivity. }
  split.
  { rewrite !take_app_length. reflexivity. }
  split.
  { replace (length pre + 8)%nat
      with (length (pre ++ [r0; r1; r2; r3; r4; r5; r6; r7]))
      by (rewrite length_app; reflexivity).
    rewrite (app_assoc pre [r0; r1; r2; r3; r4; r5; r6; r7] post).
    rewrite drop_app_length.
    replace (length (pre ++ [r0; r1; r2; r3; r4; r5; r6; r7]))
      with (length (pre ++ [w0; w1; w2; w3; w4; w5; w6; w7]))
      by (rewrite !length_app; reflexivity).
    rewrite (app_assoc pre [w0; w1; w2; w3; w4; w5; w6; w7] post).
    rewrite drop_app_length. reflexivity. }
  split.
  - cbn [buffer offset]. rewrite !length_app in *. cbn [length] in *. lia.
  - cbn [buffer]. apply Forall_app. split; [exact Hp|].
    apply Forall_app. split; [exact Hr|exact Hpost].
Qed.

Lemma setValue_frame_witness :
  let this := mkInt64 [9; 1; 2; 3; 4; 5; 6; 7; 8; 10] 1 in
  let r := mkInt64 [9; 255; 255; 255; 255; 255; 255; 255; 254; 10] 1 in
  valid this
  /\ setValue this (Args1 (Number (Num (-2)))) = Ok r
  /\ offset r = offset this
  /\ length (buffer r) = length (buffer this)
  /\ take (offset this) (buffer r) = take (offset this) (buffer this)
  /\ drop (offset this + 8) (buffer r) = drop (offset this + 8) (buffer this)
  /\ valid r.
Proof.
  intros this r.
  assert (Hv : valid this).
  { split; [cbn; lia|]. repeat (constructor; [unfold is_byte; lia|]). constructor. }
  assert (E : setValue this (Args1 (Number (Num (-2)))) = Ok r)
    by (vm_compute; reflexivity).
  split; [exact Hv|]. split; [exact E|].
  exact (setValue_frame this (Args1 (Number (Num (-2)))) r Hv E).
Defined.

(** ** Two's complement in place, twice *)

(** Eight octets are determined by their big-endian value. *)
Lemma unsigned_inj w0 w1 w2 w3 w4 w5 w6 w7 v0 v1 v2 v3 v4 v5 v6 v7 :
  Forall is_byte [w0; w1; w2; w3; w4; w5; w6; w7] ->
  Forall is_byte [v0; v1; v2; v3; v4; v5; v6; v7] ->
  unsigned [w0; w1; w2; w3; w4; w5; w6; w7]
  = unsigned [v0; v1; v2; v3; v4; v5; v6; v7] ->
  [w0; w1; w2; w3; w4; w5; w6; w7] = [v0; v1; v2; v3; v4; v5; v6; v7].
Proof.
  intros Hw Hv E. rewrite !unsigned_window in E.
  bytes_of Hw. bytes_of Hv.
  assert (w7 = v7) by lia. subst v7.
  assert (w6 = v6) by lia. subst v6.
  assert (w5 = v5) by lia. subst v5.
  assert (w4 = v4) by lia. subst v4.
  assert (w3 = v3) by lia. subst v3.
  assert (w2 = v2) by lia. subst v2.
  assert (w1 = v1) by lia. subst v1.
  assert (w0 = v0) by lia. subst v0.
  reflexivity.
Qed.

(** X2. [_2scomp()] on a valid value negates the encoded integer, except
    the minimum [-2^63], which it leaves as it is; applied twice it
    restores every octet of the buffer. *)
Theorem _2scomp_involutive (x : Int64) :
  valid x ->
  _2scomp (_2scomp x) = x
  /\ valid (_2scomp x)
  /\ int64_value (_2scomp x)
     = (if int64_value x =? - 2 ^ 63 then - 2 ^ 63 else - int64_value x).
Proof.
  intros Hv.
  destruct (valid_window x Hv)
    as (pre & w0 & w1 & w2 & w3 & w4 & w5 & w6 & w7 & post & Eb & Hpre & Hw).
  destruct Hv as [Hlen Hall].
  destruct x as [b o]. cbn [buffer offset] in *. subst b.
  destruct (_2scomp_window pre w0 w1 w2 w3 w4 w5 w6 w7 post o Hpre Hw)
    as (r0 & r1 & r2 & r3 & r4 & r5 & r6 & r7 & E & Hr & Eu).
  destruct (_2scomp_window pre r0 r1 r2 r3 r4 r5 r6 r7 post o Hpre Hr)
    as (s0 & s1 & s2 & s3 & s4 & s5 & s6 & s7 & E' & Hs & Eu').
  rewrite E, E'.
  assert (Bw : 0 <= unsigned [w0; w1; w2; w3; w4; w5; w6; w7] < 2 ^ 64).
  { rewrite unsigned_window. octets Hw. lia. }
  assert (Br : 0 <= unsigned [r0; r1; r2; r3; r4; r5; r6; r7] < 2 ^ 64).
  { rewrite unsigned_window. octets Hr. lia. }
  set (u := unsigned [w0; w1; w2; w3; w4; w5; w6; w7]) in *.
  set (u' := unsigned [r0; r1; r2; r3; r4; r5; r6; r7]) in *.
  assert (Eu2 : u' = if u =? 0 then 0 else 2 ^ 64 - u).
  { rewrite Eu. destruct (Z.eqb_spec u 0) as [-> | Hnz]; [reflexivity|].
    apply Z.mod_small. lia. }
  split; [|split].
  - f_equal. f_equal. f_equal.
    apply unsigned_inj; [exact Hs|exact Hw|].
    rewrite Eu'. fold u. rewrite Eu2.
    destruct (Z.eqb_spec u 0) as [-> | Hnz]; [reflexivity|].
    replace (2 ^ 64 - (2 ^ 64 - u)) with u by lia. apply Z.mod_small. lia.
  - split.
    + cbn [buffer offset]. rewrite !length_app in *. cbn [length] in *. lia.
    + cbn [buffer]. apply Forall_app in Hall. destruct Hall as [Hp Hrest].
      apply Forall_app in Hrest. destruct Hrest as [_ Hpost].
      apply Forall_app. split; [exact Hp|].
      apply Forall_app. split; [exact Hr|exact Hpost].
  - unfold int64_value. rewrite !logical_window by (assumption || reflexivity).
    fold u u'. rewrite Eu2.
    destruct (Z.eqb_spec u 0) as [-> | Hnz]; [reflexivity|].
    destruct (Z.ltb_spec u (2 ^ 63)), (Z.ltb_spec (2 ^ 64 - u) (2 ^ 63));
      match goal with |- context [?a =? ?b] => destruct (Z.eqb_spec a b) end; lia.
Qed.

Lemma _2scomp_involutive_witness :
  let x := mkInt64 [7; 0; 0; 0; 0; 0; 0; 1; 0; 9] 1 in
  valid x
  /\ _2scomp x = mkInt64 [7; 255; 255; 255; 255; 255; 255; 255; 0; 9] 1
  /\ _2scomp (_2scomp x) = x
  /\ int64_value (_2scomp x) = - int64_value x.
Proof.
  intros x.
  assert (Hv : valid x).
  { split; [cbn; lia|]. repeat (constructor; [unfold is_byte; lia|]). constructor. }
  destruct (_2scomp_involutive x Hv) as (E2 & _ & Ev).
  split; [exact Hv|]. split; [vm_compute; reflexivity|]. split; [exact E2|].
  rewrite Ev. vm_compute. reflexivity.
Defined.

(** ** The number form, value by value *)

Lemma copy_bytes_window_unsigned pre w0 w1 w2 w3 w4 w5 w6 w7 post o h l :
  length pre = o ->
  exists b0 b1 b2 b3 b4 b5 b6 b7,
    copy_bytes (mkInt64 (pre ++ [w0; w1; w2; w3; w4; w5; w6; w7] ++ post) o)
               (Num h) (Num l)
    = mkInt64 (pre ++ [b0; b1; b2; b3; b4; b5; b6; b7] ++ post) o
    /\ Forall is_byte [b0; b1; b2; b3; b4; b5; b6; b7]
    /\ unsigned [b0; b1; b2; b3; b4; b5; b6; b7]
       = h mod 2 ^ 32 * 2 ^ 32 + l mod 2 ^ 32.
Proof.
  intros Ho. rewrite (copy_bytes_window _ _ _ _ _ _ _ _ _ _ _ _ _ Ho).
  pose proof (unsigned_be32_pair (h mod 2 ^ 32) (l mod 2 ^ 32)
                ltac:(apply Z.mod_pos_bound; lia) ltac:(apply Z.mod_pos_bound; lia)) as Hu.
  unfold be32 in *. cbn [app] in Hu.
  do 8 eexists. split; [reflexivity|]. split; [|exact Hu].
  repeat (constructor; [apply is_byte_mod|]). constructor.
Qed.

(** X3. [setValue(n)], and so [new Int64(n)], for an integer [n] of
    magnitude up to [2^64]: nothing is thrown and the eight octets hold
    [n] modulo [2^64].  The value is [n] itself inside the signed 64-bit
    range; from [2^63] to [2^64] and below [-2^63] the number is accepted
    and wraps around. *)
Theorem setValue_number_wraps (this : Int64) (z : Z) :
  valid this -> Z.abs z <= 2 ^ 64 ->
  exists r,
    setValue this (Args1 (Number (Num z))) = Ok r
    /\ unsigned (logical r) = z mod 2 ^ 64
    /\ int64_value r = (z + 2 ^ 63) mod 2 ^ 64 - 2 ^ 63
    /\ (- 2 ^ 63 <= z < 2 ^ 63 -> int64_value r = z).
Proof.
  intros Hv Hz.
  destruct (valid_window this Hv)
    as (pre & w0 & w1 & w2 & w3 & w4 & w5 & w6 & w7 & post & Eb & Hpre & Hw).
  destruct Hv as [Hlen _].
  destruct this as [b o]. cbn [buffer offset] in *. subst b.
  rewrite setValue_number by exact Hlen.
  destruct (Z.ltb_spec (2 ^ 64) (Z.abs z)); [lia|]. cbv zeta.
  set (a := Z.abs z) in *.
  destruct (copy_bytes_window_unsigned pre w0 w1 w2 w3 w4 w5 w6 w7 post o
              (a / 2 ^ 32) (a mod 2 ^ 32) Hpre)
    as (b0 & b1 & b2 & b3 & b4 & b5 & b6 & b7 & E & Hb & Hu).
  rewrite E.
  assert (Ea : a / 2 ^ 32 mod 2 ^ 32 * 2 ^ 32 + a mod 2 ^ 32 mod 2 ^ 32
               = a mod 2 ^ 64).
  { rewrite Z.mod_mod by lia.
    change (2 ^ 64) with (2 ^ 32 * 2 ^ 32). rewrite Z.rem_mul_r by lia. lia. }
  rewrite Ea in Hu.
  assert (Hval : forall u, 0 <= u < 2 ^ 64 -> u = z mod 2 ^ 64 ->
            (if u <? 2 ^ 63 then u else u - 2 ^ 64)
            = (z + 2 ^ 63) mod 2 ^ 64 - 2 ^ 63).
  { intros u Bu Eu.
    pose proof (Z.div_mod z (2 ^ 64) ltac:(lia)) as Dz.
    rewrite <- Eu in Dz.
    destruct (Z.ltb_spec u (2 ^ 63)).
    - replace (z + 2 ^ 63) with (u + 2 ^ 63 + (z / 2 ^ 64) * 2 ^ 64) by lia.
      rewrite Z.mod_add, Z.mod_small by lia. lia.
    - replace (z + 2 ^ 63) with (u - 2 ^ 63 + (z / 2 ^ 64 + 1) * 2 ^ 64) by lia.
      rewrite Z.mod_add, Z.mod_small by lia. lia. }
  assert (Hin : - 2 ^ 63 <= z < 2 ^ 63 -> (z + 2 ^ 63) mod 2 ^ 64 - 2 ^ 63 = z).
  { intros Hr. rewrite Z.mod_small by lia. lia. }
  destruct (Z.ltb_spec z 0) as [Hneg | Hpos].
  - destruct (_2scomp_window pre b0 b1 b2 b3 b4 b5 b6 b7 post o Hpre Hb)
      as (r0 & r1 & r2 & r3 & r4 & r5 & r6 & r7 & E' & Hr & Hur).
    rewrite E'. eexists. split; [reflexivity|].
    assert (Eu : unsigned [r0; r1; r2; r3; r4; r5; r6; r7] = z mod 2 ^ 64).
    { rewrite Hur, Hu. replace z with (- a) by (unfold a; lia).
      pose proof (Z.mod_pos_bound a (2 ^ 64) ltac:(lia)) as Ba.
      pose proof (Z.div_mod a (2 ^ 64) ltac:(lia)) as Da.
      destruct (Z.eqb_spec (a mod 2 ^ 64) 0) as [E0 | Hnz].
      - rewrite E0. change ((2 ^ 64 - 0) mod 2 ^ 64) with 0.
        apply Z.mod_unique_pos with (q := - (a / 2 ^ 64)); lia.
      - rewrite (Z.mod_small (2 ^ 64 - a mod 2 ^ 64)) by lia.
        apply Z.mod_unique_pos with (q := - (a / 2 ^ 64) - 1); lia. }
    assert (Bu : 0 <= unsigned [r0; r1; r2; r3; r4; r5; r6; r7] < 2 ^ 64)
      by (rewrite Eu; apply Z.mod_pos_bound; lia).
    unfold int64_value. rewrite logical_window by (assumption || reflexivity).
    split; [exact Eu|]. split; [apply Hval; assumption|].
    intros Hr'. rewrite Hval by assumption. apply Hin. exact Hr'.
  - eexists. split; [reflexivity|].
    assert (Eu : unsigned [b0; b1; b2; b3; b4; b5; b6; b7] = z mod 2 ^ 64).
    { rewrite Hu. replace z with a by (unfold a; lia). reflexivity. }
    assert (Bu : 0 <= unsigned [b0; b1; b2; b3; b4; b5; b6; b7] < 2 ^ 64)
      by (rewrite Eu; apply Z.mod_pos_bound; lia).
    unfold int64_value. rewrite logical_window by (assumption || reflexivity).
    split; [exact Eu|]. split; [apply Hval; assumption|].
    intros Hr'. rewrite Hval by assumption. apply Hin. exact Hr'.
Qed.

Lemma setValue_number_wraps_witness :
  let this := mkInt64 (Buffer_alloc 8) 0 in
  valid this /\ Z.abs (2 ^ 63) <= 2 ^ 64
  /\ exists r,
       setValue this (Args1 (Number (Num (2 ^ 63)))) = Ok r
       /\ int64_value r = - 2 ^ 63.
Proof.
  intros this.
  assert (Hv : valid this).
  { split; [cbn; lia|]. repeat (constructor; [unfold is_byte; lia|]). constructor. }
  assert (Hz : Z.abs (2 ^ 63) <= 2 ^ 64) by (vm_compute; discriminate).
  split; [exact Hv|]. split; [exact Hz|].
  destruct (setValue_number_wraps this (2 ^ 63) Hv Hz) as (r & E & _ & Ev & _).
  exists r. split; [exact E|]. rewrite Ev. reflexivity.
Defined.

(** ** [toNumber(true)] *)

(** X4. With [allowImprecise] set, [toNumber] of a valid value is always a
    finite number of the sign of the encoded integer: the integer itself up
    to a magnitude of [2^53] (included), and a number of magnitude at least
    [2^53] beyond.  It agrees with [toNumber(false)] wherever that one is
    finite. *)
Theorem toNumber_imprecise (x : Int64) :
  valid x ->
  let v := int64_value x in
  exists X,
    toNumber x true = Num X
    /\ (Z.abs v <= 2 ^ 53 -> X = v)
    /\ (2 ^ 53 < Z.abs v -> 2 ^ 53 <= Z.abs X)
    /\ Z.sgn X = Z.sgn v
    /\ (Z.abs v < 2 ^ 53 -> toNumber x false = Num X).
Proof.
  intros Hv v.
  destruct (valid_window x Hv)
    as (pre & w0 & w1 & w2 & w3 & w4 & w5 & w6 & w7 & post & E & Hpre & Hw).
  destruct x as [b o]. cbn [buffer offset] in *. subst b.
  destruct (toNumber_window pre w0 w1 w2 w3 w4 w5 w6 w7 post o true Hpre Hw)
    as (X & (xz & Exz & HX) & Et).
  destruct (toNumber_window pre w0 w1 w2 w3 w4 w5 w6 w7 post o false Hpre Hw)
    as (X' & (xz' & Exz' & HX') & Ef).
  injection Exz as <-. injection Exz' as <-. cbv zeta in HX, HX', Et, Ef.
  fold v in HX, HX', Et, Ef. cbn [negb andb] in Et, Ef.
  exists (if v <? 0 then - X else X). split; [exact Et|].
  split; [|split; [|split]].
  - intros Hs. destruct HX as [[-> _] | [_ Hgt]]; [|lia].
    destruct (Z.ltb_spec v 0); lia.
  - intros Hb. destruct HX as [[-> _] | [Hge _]]; destruct (Z.ltb_spec v 0); lia.
  - destruct HX as [[-> _] | [Hge Hgt]]; destruct (Z.ltb_spec v 0); lia.
  - intros Hs. rewrite Ef.
    destruct HX as [[-> _] | [_ Hgt]]; [|lia].
    destruct HX' as [[-> _] | [_ Hgt]]; [|lia].
    unfold js_ge, js_gt, js_lt, js_eq, MAX_INT.
    destruct (Z.ltb_spec (2 ^ 53) (Z.abs v)); [lia|].
    destruct (Z.eqb_spec (Z.abs v) (2 ^ 53)); [lia|]. reflexivity.
Qed.

Lemma toNumber_imprecise_witness :
  let x := mkInt64 [0x00; 0x20; 0; 0; 0; 0; 0; 0] 0 in
  valid x
  /\ int64_value x = 2 ^ 53
  /\ toNumber x true = Num (2 ^ 53)
  /\ toNumber x false = Infinity false.
Proof.
  intros x.
  assert (Hv : valid x).
  { split; [cbn; lia|]. repeat (constructor; [unfold is_byte; lia|]). constructor. }
  assert (Ev : int64_value x = 2 ^ 53) by (vm_compute; reflexivity).
  split; [exact Hv|]. split; [exact Ev|].
  destruct (toNumber_imprecise x Hv) as (X & Et & Hsmall & _).
  cbv zeta in Hsmall. rewrite Ev in Hsmall.
  split; [|vm_compute; reflexivity].
  rewrite Et. f_equal. apply Hsmall. vm_compute. discriminate.
Defined.

(** ** A window that runs past the end of the buffer *)

Lemma toNumber_loop_NaN b o negate indices carry m :
  fst (fst (fold_left (toNumber_step b o negate) indices (NaN, carry, m))) = NaN.
Proof.
  revert carry m. induction indices as [|i indices IH]; intros carry m; [reflexivity|].
  cbn [fold_left]. unfold toNumber_step at 2.
  destruct (if truthy negate then _ else _) as [v c]. cbn [js_add]. apply IH.
Qed.

(** X5. No method checks that the buffer holds eight octets from the
    offset.  When it does not and the first octet of the window is absent
    or has its sign bit clear, the missing last octet is read as
    [undefined]: [toNumber], with either flag, and [valueOf()] return [NaN],
    and [toString(radix)] is ["NaN"] for a radix from 2 to 36. *)
Theorem toNumber_short_buffer (x : Int64) (allowImprecise : bool) (radix : Z) :
  Forall is_byte (buffer x) ->
  (length (buffer x) < offset x + 8)%nat ->
  sign_bit x = false ->
  2 <= radix <= 36 ->
  toNumber x allowImprecise = NaN
  /\ valueOf x = NaN
  /\ toString x radix = "NaN".
Proof.
  intros Hall Hlen Hs _.
  assert (G : forall a, toNumber x a = NaN).
  { intros a. destruct x as [b o]. cbn [buffer offset] in *.
    unfold toNumber. cbn [buffer offset].
    assert (En : truthy (js_and (ToNumber (b !! o)) (Num 128)) = false).
    { destruct (b !! o) as [w0|] eqn:E0; [|reflexivity].
      cbn [ToNumber].
      assert (B0 : is_byte w0).
      { exact (Forall_lookup_1 _ _ _ _ Hall E0). }
      rewrite (js_and_128 w0 B0).
      unfold sign_bit, logical in Hs. cbn [buffer offset] in Hs.
      assert (Ed : drop o b !! 0%nat = Some w0)
        by (rewrite lookup_drop, Nat.add_0_r; exact E0).
      destruct (drop o b) as [|d rest]; [discriminate Ed|].
      injection Ed as ->. cbn [take] in Hs.
      apply Z.leb_gt in Hs. destruct (Z.ltb_spec w0 128); [reflexivity|lia]. }
    unfold from_7_down_to_0. cbn [fold_left].
    unfold toNumber_step at 8.
    rewrite (lookup_ge_None_2 b (o + 7)) by lia.
    rewrite En. cbn [ToNumber js_mul js_add].
    pose proof (toNumber_loop_NaN b o (js_and (ToNumber (b !! o)) (Num 128))
                  [6; 5; 4; 3; 2; 1; 0]%nat (Num 1) (js_mul (Num 1) (Num 256))) as HN.
    cbn [fold_left] in HN.
    destruct (toNumber_step b o _ _ 0%nat) as [[x' c'] m'] eqn:Ex.
    cbn [fst] in HN. subst x'.
    unfold js_ge, js_gt. cbn [js_lt js_eq orb]. rewrite andb_false_r.
    reflexivity. }
  split; [apply G|]. split; [apply G|].
  unfold toString, valueOf. rewrite G. reflexivity.
Qed.

Lemma toNumber_short_buffer_witness :
  let x := mkInt64 [1; 2; 3; 4; 5; 6; 7; 8] 1 in
  Forall is_byte (buffer x)
  /\ (length (buffer x) < offset x + 8)%nat
  /\ sign_bit x = false
  /\ toNumber x true = NaN
  /\ toString x 16 = "NaN".
Proof.
  intros x.
  assert (Hall : Forall is_byte (buffer x))
    by (repeat (constructor; [unfold is_byte; lia|]); constructor).
  assert (Hlen : (length (buffer x) < offset x + 8)%nat) by (cbn; lia).
  assert (Hs : sign_bit x = false) by reflexivity.
  destruct (toNumber_short_buffer x true 16 Hall Hlen Hs ltac:(lia))
    as (Et & _ & Es).
  split; [exact Hall|]. split; [exact Hlen|]. split; [exact Hs|].
  split; [exact Et|exact Es].
Defined.

(** ** [valueOf()] and [toString()] *)

Lemma valueOf_value (x : Int64) :
  valid x ->
  valueOf x = if Z.abs (int64_value x) <? 2 ^ 53
              then Num (int64_value x)
              else Infinity (int64_value x <? 0).
Proof.
  intros Hv.
  destruct (Z.ltb_spec (Z.abs (int64_value x)) (2 ^ 53)) as [Hs | Hb].
  - apply valueOf_small; assumption.
  - destruct (valid_window x Hv)
      as (pre & w0 & w1 & w2 & w3 & w4 & w5 & w6 & w7 & post & E & Hpre & Hw).
    destruct x as [b o]. cbn [buffer offset] in *. subst b. unfold valueOf.
    destruct (toNumber_window pre w0 w1 w2 w3 w4 w5 w6 w7 post o false Hpre Hw)
      as (X & (xz & Exz & HX) & ->).
    injection Exz as <-. cbv zeta in HX.
    set (v := int64_value _) in *. clearbody v.
    assert (HXge : 2 ^ 53 <= X) by (destruct HX as [[-> _] | [? _]]; lia).
    unfold js_ge, js_gt, js_lt, js_eq, MAX_INT. cbn [negb andb].
    destruct (Z.ltb_spec (2 ^ 53) X); [reflexivity|].
    destruct (Z.eqb_spec X (2 ^ 53)); [reflexivity|lia].
Qed.

(** ** Digits in any radix *)

Section RadixDigits.

Variable radix : Z.
Hypothesis radix_range : 2 <= radix <= 36.

Lemma digit_value_digit_char_radix d :
  0 <= d < radix -> digit_value radix (digit_char d) = Some d.
Proof.
  intros Hd.
  pose (f := fun z => if z <? 36
                      then match digit_value 36 (digit_char z) with
                           | Some d' => d' =? z
                           | None => false
                           end
                      else true).
  assert (H : f d = true)
    by (apply forall_bytes; [vm_compute; reflexivity|unfold is_byte; lia]).
  unfold f in H. destruct (Z.ltb_spec d 36) as [_|]; [|lia].
  revert H. unfold digit_value.
  set (n := Z.of_N (N_of_ascii (digit_char d))).
  destruct ((48 <=? n) && (n <=? 57)).
  - destruct (Z.ltb_spec (n - 48) 36); [|discriminate].
    intros E. apply Z.eqb_eq in E. rewrite E.
    destruct (Z.ltb_spec d radix); [reflexivity|lia].
  - destruct ((97 <=? n) && (n <=? 122)).
    + destruct (Z.ltb_spec (n - 87) 36); [|discriminate].
      intros E. apply Z.eqb_eq in E. rewrite E.
      destruct (Z.ltb_spec d radix); [reflexivity|lia].
    + destruct ((65 <=? n) && (n <=? 90)).
      * destruct (Z.ltb_spec (n - 55) 36); [|discriminate].
        intros E. apply Z.eqb_eq in E. rewrite E.
        destruct (Z.ltb_spec d radix); [reflexivity|lia].
      * destruct (Z.ltb_spec 36 36); [lia|discriminate].
Qed.

Lemma fixed_digits_only_radix n u :
  digits_only radix (fixed_digits radix n u) = true.
Proof.
  revert u. induction n as [|n IH]; intros u; [reflexivity|].
  cbn [fixed_digits]. rewrite digits_only_app, IH. cbn [digits_only andb].
  rewrite digit_value_digit_char_radix by (apply Z.mod_pos_bound; lia).
  reflexivity.
Qed.

Lemma fixed_digits_value_radix n u :
  digits_value radix (fixed_digits radix n u) 0 = u mod radix ^ Z.of_nat n.
Proof.
  revert u. induction n as [|n IH]; intros u.
  - cbn. rewrite Z.mod_1_r. reflexivity.
  - cbn [fixed_digits]. rewrite digits_value_app, IH. cbn [digits_value].
    rewrite digit_value_digit_char_radix by (apply Z.mod_pos_bound; lia).
    change (default 0 (Some (u mod radix))) with (u mod radix).
    rewrite Nat2Z.inj_succ, Z.pow_succ_r by lia.
    assert (Hp : 0 < radix ^ Z.of_nat n) by (apply Z.pow_pos_nonneg; lia).
    rewrite (Z.rem_mul_r u radix (radix ^ Z.of_nat n)) by lia. lia.
Qed.

Lemma digits_of_fixed_radix (n fuel : nat) (z : Z) (acc : string) :
  (1 <= n <= fuel)%nat ->
  0 <= z < radix ^ Z.of_nat n ->
  (n = 1%nat \/ radix ^ (Z.of_nat n - 1) <= z) ->
  digits_of fuel radix z acc = fixed_digits radix n z +:+ acc.
Proof.
  revert fuel z acc. induction n as [|n IH]; intros fuel z acc Hn Hz Hlow; [lia|].
  destruct fuel as [|fuel]; [lia|].
  cbn [digits_of fixed_digits]. rewrite append_assoc, append_cons, append_nil_l.
  destruct n as [|n].
  - rewrite Z.pow_1_r in Hz.
    rewrite (Z.div_small z radix) by lia. reflexivity.
  - assert (Hpow : radix ^ (Z.of_nat (S (S n)) - 1) = radix ^ Z.of_nat (S n))
      by (f_equal; lia).
    destruct Hlow as [Hlow|Hlow]; [lia|]. rewrite Hpow in Hlow.
    assert (Hp : 0 < radix ^ Z.of_nat n) by (apply Z.pow_pos_nonneg; lia).
    assert (E1 : radix ^ Z.of_nat (S n) = radix * radix ^ Z.of_nat n)
      by (rewrite Nat2Z.inj_succ, Z.pow_succ_r by lia; reflexivity).
    assert (E2 : radix ^ Z.of_nat (S (S n)) = radix * radix ^ Z.of_nat (S n))
      by (rewrite (Nat2Z.inj_succ (S n)), Z.pow_succ_r by lia; reflexivity).
    assert (Hq : radix ^ Z.of_nat n <= z / radix < radix ^ Z.of_nat (S n)).
    { split.
      - apply Z.div_le_lower_bound; [lia|]. rewrite <- E1. exact Hlow.
      - apply Z.div_lt_upper_bound; [lia|]. rewrite <- E2. apply Hz. }
    destruct (Z.eqb_spec (z / radix) 0) as [E0|_]; [lia|].
    apply IH.
    + lia.
    + lia.
    + right. replace (Z.of_nat (S n) - 1) with (Z.of_nat n) by lia. lia.
Qed.

Lemma digit_count_bounded_radix (m : nat) (z : Z) :
  0 <= z < radix ^ Z.of_nat m ->
  exists n, (1 <= n <= Nat.max 1 m)%nat /\ z < radix ^ Z.of_nat n
            /\ (n = 1%nat \/ radix ^ (Z.of_nat n - 1) <= z).
Proof.
  induction m as [|m IH]; intros Hz.
  - exists 1%nat. rewrite Z.pow_0_r in Hz. split; [lia|].
    split; [rewrite Z.pow_1_r; lia|left; reflexivity].
  - destruct (Z.lt_ge_cases z (radix ^ Z.of_nat m)) as [Hlt|Hge].
    + destruct (IH ltac:(lia)) as (n & H1 & H2 & H3).
      exists n. split; [lia|]. split; assumption.
    + destruct m as [|m].
      * exists 1%nat. split; [lia|]. split; [lia|left; reflexivity].
      * exists (S (S m)). split; [lia|]. split; [lia|]. right.
        replace (Z.of_nat (S (S m)) - 1) with (Z.of_nat (S m)) by lia. exact Hge.
Qed.

(** [n.toString(radix)] of an integer is its rendering in the radix. *)
Lemma Number_toString_canonical (v : Z) :
  canonical_in radix (Number_toString (Num v) radix) v.
Proof.
  set (z := Z.abs v).
  assert (Hz : 0 <= z) by (unfold z; lia).
  assert (Hm : 0 <= z < radix ^ Z.of_nat (S (Z.to_nat (Z.log2 z)))).
  { split; [exact Hz|].
    destruct (Z.eq_dec z 0) as [->|Hnz]; [cbn; lia|].
    pose proof (Z.log2_spec z ltac:(lia)) as [_ Hup].
    pose proof (Z.log2_nonneg z) as Hl.
    rewrite Nat2Z.inj_succ, Z2Nat.id by lia.
    eapply Z.lt_le_trans; [exact Hup|].
    apply Z.pow_le_mono_l. lia. }
  destruct (digit_count_bounded_radix _ z Hm) as (n & H1 & H2 & H3).
  exists n. fold z. split; [lia|]. split; [exact H2|]. split; [exact H3|].
  unfold Number_toString. fold z.
  rewrite (digits_of_fixed_radix n _ z "") by (try split; lia || assumption).
  rewrite append_nil_r. unfold numeral. destruct (v <? 0); reflexivity.
Qed.

End RadixDigits.

(** X6. [toString(radix)] of a valid value, for a radix from 2 to 36 (10
    by default), is the rendering of the encoded integer in that radix,
    lowercase and without leading zeros, when its magnitude is below
    [2^53], and ["Infinity"] or ["-Infinity"] from [2^53] on. *)
Theorem toString_radix (x : Int64) (radix : Z) :
  valid x -> 2 <= radix <= 36 ->
  let v := int64_value x in
  (Z.abs v < 2 ^ 53 -> canonical_in radix (toString x radix) v)
  /\ (2 ^ 53 <= Z.abs v ->
      toString x radix = if v <? 0 then "-Infinity" else "Infinity").
Proof.
  intros Hv Hr v. unfold toString. rewrite (valueOf_value x Hv). fold v. split.
  - intros Hs. destruct (Z.ltb_spec (Z.abs v) (2 ^ 53)); [|lia].
    apply Number_toString_canonical. exact Hr.
  - intros Hb. destruct (Z.ltb_spec (Z.abs v) (2 ^ 53)); [lia|].
    destruct (v <? 0); reflexivity.
Qed.

Lemma toString_radix_witness :
  let x := mkInt64 [0xff; 0xff; 0xff; 0xff; 0xff; 0xff; 0xfc; 0x18] 0 in
  let y := mkInt64 [0x80; 0; 0; 0; 0; 0; 0; 0] 0 in
  valid x /\ valid y
  /\ toString x 10 = "-1000" /\ canonical_in 10 (toString x 10) (-1000)
  /\ toString x 16 = "-3e8" /\ canonical_in 16 (toString x 16) (-1000)
  /\ toString y 10 = "-Infinity".
Proof.
  intros x y.
  assert (Hx : valid x).
  { split; [cbn; lia|]. repeat (constructor; [unfold is_byte; lia|]). constructor. }
  assert (Hy : valid y).
  { split; [cbn; lia|]. repeat (constructor; [unfold is_byte; lia|]). constructor. }
  split; [exact Hx|]. split; [exact Hy|].
  split; [vm_compute; reflexivity|]. split.
  { apply (proj1 (toString_radix x 10 Hx ltac:(lia))). vm_compute. reflexivity. }
  split; [vm_compute; reflexivity|]. split.
  { apply (proj1 (toString_radix x 16 Hx ltac:(lia))). vm_compute. reflexivity. }
  apply (proj2 (toString_radix y 10 Hy ltac:(lia))). vm_compute. discriminate.
Defined.

(** ** Hexadecimal strings, there and back *)

(** Up to sixteen hexadecimal digits, without a prefix, are stored as
    their value. *)
Lemma setValue_hex_digits (this : Int64) (d : string) :
  valid this -> digits_only 16 d = true -> (String.length d <= 16)%nat ->
  exists r,
    setValue this (Args1 (Str d)) = Ok r
    /\ valid r
    /\ unsigned (logical r) = hex_value d.
Proof.
  intros Hv Hd H16.
  destruct (setValue this (Args1 (Str d))) as [r|e] eqn:Es;
    [|unfold setValue in Es; cbn [mbind result_bind mret result_ret] in Es;
      discriminate Es].
  exists r. split; [reflexivity|].
  split; [exact (setValue_keeps_valid this _ r Hv Es)|].
  destruct (string_form_parts NoPrefix d Hd ltac:(discriminate)) as [Ehi Elo].
  cbv zeta in Ehi, Elo. cbn [with_prefix] in Ehi, Elo.
  unfold setValue in Es. rewrite Ehi, Elo in Es.
  rewrite (parseInt16_digits (hi_digits d)) in Es by (apply digits_only_take; exact Hd).
  rewrite (parseInt16_digits (lo_digits d)) in Es by (apply digits_only_drop; exact Hd).
  fold (hex_value (hi_digits d)) in Es. fold (hex_value (lo_digits d)) in Es.
  pose proof (lo_digits_bound d Hd) as Hlo.
  pose proof (hi_digits_bound d Hd H16) as Hhi.
  cbn [mbind result_bind mret result_ret] in Es.
  assert (Ecopy :
    copy_bytes this
      match hi_digits d with
      | EmptyString => NaN
      | _ => Num (fl (hex_value (hi_digits d)))
      end
      match lo_digits d with
      | EmptyString => NaN
      | _ => Num (fl (hex_value (lo_digits d)))
      end
    = copy_bytes this (Num (hex_value (hi_digits d))) (Num (hex_value (lo_digits d)))).
  { rewrite (fl_small (hex_value (lo_digits d))) by lia.
    rewrite (fl_small (hex_value (hi_digits d))) by lia.
    destruct (hi_digits d) eqn:Eh, (lo_digits d) eqn:El;
      try reflexivity;
      first [ apply copy_bytes_NaN_hi | apply copy_bytes_NaN
            | rewrite copy_bytes_NaN, copy_bytes_NaN_hi; reflexivity ]. }
  rewrite Ecopy in Es. clear Ecopy. injection Es as <-.
  destruct Hv as [Hlen _].
  destruct this as [b o]. cbn [buffer offset] in *.
  destruct (window_split b o Hlen)
    as (pre & w0 & w1 & w2 & w3 & w4 & w5 & w6 & w7 & post & -> & Hpre).
  rewrite (copy_bytes_window _ _ _ _ _ _ _ _ _ _ _ _ _ Hpre).
  rewrite logical_window by (exact Hpre || reflexivity).
  rewrite !Z.mod_small by lia.
  rewrite unsigned_be32_pair by lia.
  rewrite (hex_value_split d Hd).
  destruct (Nat.le_gt_cases (String.length d) 8) as [Hs|Hs].
  - assert (E0 : hi_digits d = "").
    { unfold hi_digits. replace (String.length d - 8)%nat with 0%nat by lia.
      destruct d; reflexivity. }
    rewrite E0. reflexivity.
  - assert (E8 : String.length (lo_digits d) = 8%nat).
    { unfold lo_digits. rewrite str_drop_length. lia. }
    rewrite E8. reflexivity.
Qed.

Lemma fixed_digits_octet (n : nat) (U b : Z) :
  is_byte b ->
  fixed_digits 16 n U +:+ fixed_digits 16 2 b
  = fixed_digits 16 (n + 2) (U * 256 + b).
Proof.
  intros Hb. unfold is_byte in Hb.
  rewrite (fixed_digits_app 16 n 2) by lia.
  change (16 ^ Z.of_nat 2) with 256.
  rewrite Z.div_add_l, (Z.div_small b), Z.add_0_r by lia.
  rewrite Z.add_comm, Z.mod_add, Z.mod_small by lia. reflexivity.
Qed.

(** The sixteen digits of [toOctetString()] are the digits of the unsigned
    value of the eight octets. *)
Lemma octets_hex w0 w1 w2 w3 w4 w5 w6 w7 :
  Forall is_byte [w0; w1; w2; w3; w4; w5; w6; w7] ->
  fixed_digits 16 2 w0 +:+ fixed_digits 16 2 w1 +:+ fixed_digits 16 2 w2
  +:+ fixed_digits 16 2 w3 +:+ fixed_digits 16 2 w4 +:+ fixed_digits 16 2 w5
  +:+ fixed_digits 16 2 w6 +:+ fixed_digits 16 2 w7
  = fixed_digits 16 16 (unsigned [w0; w1; w2; w3; w4; w5; w6; w7]).
Proof.
  intros Hw.
  assert (B0 : is_byte w0) by (octets Hw; unfold is_byte; lia).
  assert (B1 : is_byte w1) by (octets Hw; unfold is_byte; lia).
  assert (B2 : is_byte w2) by (octets Hw; unfold is_byte; lia).
  assert (B3 : is_byte w3) by (octets Hw; unfold is_byte; lia).
  assert (B4 : is_byte w4) by (octets Hw; unfold is_byte; lia).
  assert (B5 : is_byte w5) by (octets Hw; unfold is_byte; lia).
  assert (B6 : is_byte w6) by (octets Hw; unfold is_byte; lia).
  assert (B7 : is_byte w7) by (octets Hw; unfold is_byte; lia).
  rewrite <- !append_assoc.
  rewrite (fixed_digits_octet 2 w0 w1 B1).
  rewrite (fixed_digits_octet _ _ w2 B2).
  rewrite (fixed_digits_octet _ _ w3 B3).
  rewrite (fixed_digits_octet _ _ w4 B4).
  rewrite (fixed_digits_octet _ _ w5 B5).
  rewrite (fixed_digits_octet _ _ w6 B6).
  rewrite (fixed_digits_octet _ _ w7 B7).
  rewrite unsigned_window.
  change (2 + 2 + 2 + 2 + 2 + 2 + 2 + 2)%nat with 16%nat.
  f_equal. ring.
Qed.

Lemma toOctetString_value (x : Int64) :
  valid x ->
  digits_only 16 (toOctetString x "") = true
  /\ String.length (toOctetString x "") = 16%nat
  /\ hex_value (toOctetString x "") = unsigned (logical x).
Proof.
  intros Hv.
  destruct (valid_window x Hv)
    as (pre & w0 & w1 & w2 & w3 & w4 & w5 & w6 & w7 & post & E & Hpre & Hw).
  destruct x as [b o]. cbn [buffer offset] in *. subst b.
  rewrite (toOctetString_window _ _ _ _ _ _ _ _ _ _ _ Hpre Hw).
  rewrite (octets_hex _ _ _ _ _ _ _ _ Hw).
  rewrite logical_window by (assumption || reflexivity).
  split; [apply fixed_digits_only_radix; lia|].
  split; [apply fixed_digits_length|].
  unfold hex_value. rewrite fixed_digits_value_radix by lia.
  apply Z.mod_small. rewrite unsigned_window. octets Hw.
  change (16 ^ Z.of_nat 16) with (2 ^ 64). lia.
Qed.

(** The octets of a valid value, as a list of eight. *)
Lemma logical_octets (x : Int64) :
  valid x ->
  exists w0 w1 w2 w3 w4 w5 w6 w7,
    logical x = [w0; w1; w2; w3; w4; w5; w6; w7]
    /\ Forall is_byte [w0; w1; w2; w3; w4; w5; w6; w7].
Proof.
  intros Hv.
  destruct (valid_window x Hv)
    as (pre & w0 & w1 & w2 & w3 & w4 & w5 & w6 & w7 & post & E & Hpre & Hw).
  destruct x as [b o]. cbn [buffer offset] in *. subst b.
  exists w0, w1, w2, w3, w4, w5, w6, w7.
  split; [apply logical_window; assumption || reflexivity|exact Hw].
Qed.

Lemma logical_unsigned_inj (a b : Int64) :
  valid a -> valid b ->
  unsigned (logical a) = unsigned (logical b) -> logical a = logical b.
Proof.
  intros Ha Hb E.
  destruct (logical_octets a Ha) as (w0 & w1 & w2 & w3 & w4 & w5 & w6 & w7 & Ea & Hw).
  destruct (logical_octets b Hb) as (v0 & v1 & v2 & v3 & v4 & v5 & v6 & v7 & Eb & Hv).
  rewrite Ea, Eb in *. apply unsigned_inj; assumption.
Qed.

(** X7. The sixteen hexadecimal digits that [toOctetString()] returns for
    a valid value, given back to [setValue] (or to the constructor), store
    the same eight octets. *)
Theorem toOctetString_roundtrip (this x : Int64) :
  valid this -> valid x ->
  String.length (toOctetString x "") = 16%nat
  /\ exists r,
       setValue this (Args1 (Str (toOctetString x ""))) = Ok r
       /\ logical r = logical x
       /\ int64_value r = int64_value x.
Proof.
  intros Ht Hx.
  destruct (toOctetString_value x Hx) as (Hd & Hl & Hval).
  split; [exact Hl|].
  destruct (setValue_hex_digits this (toOctetString x "") Ht Hd ltac:(lia))
    as (r & E & Hr & Hu).
  exists r. split; [exact E|].
  assert (EL : logical r = logical x).
  { apply logical_unsigned_inj; [exact Hr|exact Hx|]. rewrite Hu. exact Hval. }
  split; [exact EL|]. unfold int64_value. rewrite EL. reflexivity.
Qed.

Lemma toOctetString_roundtrip_witness :
  let this := mkInt64 (Buffer_alloc 8) 0 in
  let x := mkInt64 [0; 0xff; 0xee; 0xdd; 0xcc; 0xbb; 0xaa; 0x99; 0x88; 0x77] 2 in
  valid this /\ valid x
  /\ toOctetString x "" = "eeddccbbaa998877"
  /\ exists r,
       Construct (Args1 (Str (toOctetString x ""))) = Ok r
       /\ logical r = logical x.
Proof.
  intros this x.
  assert (Ht : valid this).
  { split; [cbn; lia|]. repeat (constructor; [unfold is_byte; lia|]). constructor. }
  assert (Hx : valid x).
  { split; [cbn; lia|]. repeat (constructor; [unfold is_byte; lia|]). constructor. }
  split; [exact Ht|]. split; [exact Hx|]. split; [vm_compute; reflexivity|].
  destruct (toOctetString_roundtrip this x Ht Hx) as (_ & r & E & EL & _).
  exists r. split; [exact E|exact EL].
Defined.

(** X8. For a valid value that is not negative and below [2^53], the
    string [toString(16)] given back to [setValue] (or to the constructor)
    stores the same eight octets. *)
Theorem toString_hex_roundtrip (this x : Int64) :
  valid this -> valid x -> 0 <= int64_value x < 2 ^ 53 ->
  exists r,
    setValue this (Args1 (Str (toString x 16))) = Ok r
    /\ logical r = logical x
    /\ int64_value r = int64_value x.
Proof.
  intros Ht Hx Hv.
  assert (Eu : unsigned (logical x) = int64_value x).
  { unfold int64_value in *.
    destruct (logical_octets x Hx) as (w0 & w1 & w2 & w3 & w4 & w5 & w6 & w7 & E & Hw).
    rewrite E in *. rewrite unsigned_window in *. octets Hw.
    destruct (Z.ltb_spec (w0 * 2 ^ 56 + w1 * 2 ^ 48 + w2 * 2 ^ 40 + w3 * 2 ^ 32
                          + w4 * 2 ^ 24 + w5 * 2 ^ 16 + w6 * 2 ^ 8 + w7) (2 ^ 63));
      lia. }
  unfold toString. rewrite (valueOf_value x Hx).
  destruct (Z.ltb_spec (Z.abs (int64_value x)) (2 ^ 53)); [|lia].
  set (v := int64_value x) in *.
  destruct (Number_toString_canonical 16 ltac:(lia) v) as (n & H1 & H2 & H3 & E).
  rewrite Z.abs_eq in H2, H3, E by lia.
  destruct (Z.ltb_spec v 0); [lia|]. cbn [numeral] in E. rewrite E.
  assert (Hn : (n <= 14)%nat).
  { destruct H3 as [-> | H3]; [lia|].
    destruct (Nat.le_gt_cases n 14) as [Hle | Hgt]; [exact Hle|exfalso].
    assert (16 ^ 14 <= 16 ^ (Z.of_nat n - 1)) by (apply Z.pow_le_mono_r; lia).
    lia. }
  destruct (setValue_hex_digits this (fixed_digits 16 n v) Ht
              ltac:(apply fixed_digits_only_radix; lia)
              ltac:(rewrite fixed_digits_length; lia))
    as (r & Er & Hr & Hu).
  exists r. split; [exact Er|].
  assert (EL : logical r = logical x).
  { apply logical_unsigned_inj; [exact Hr|exact Hx|]. rewrite Hu, Eu.
    unfold hex_value. rewrite fixed_digits_value_radix by lia.
    apply Z.mod_small. lia. }
  split; [exact EL|]. unfold v, int64_value. rewrite EL. reflexivity.
Qed.

Lemma toString_hex_roundtrip_witness :
  let this := mkInt64 (Buffer_alloc 8) 0 in
  let x := mkInt64 [0; 0; 0; 0; 0; 0x12; 0xab; 0xcd] 0 in
  valid this /\ valid x /\ 0 <= int64_value x < 2 ^ 53
  /\ toString x 16 = "12abcd"
  /\ exists r,
       Construct (Args1 (Str "12abcd")) = Ok r /\ logical r = logical x.
Proof.
  intros this x.
  assert (Ht : valid this).
  { split; [cbn; lia|]. repeat (constructor; [unfold is_byte; lia|]). constructor. }
  assert (Hx : valid x).
  { split; [cbn; lia|]. repeat (constructor; [unfold is_byte; lia|]). constructor. }
  assert (Hv : 0 <= int64_value x < 2 ^ 53) by (vm_compute; split; discriminate || reflexivity).
  assert (Es : toString x 16 = "12abcd") by (vm_compute; reflexivity).
  split; [exact Ht|]. split; [exact Hx|]. split; [exact Hv|]. split; [exact Es|].
  destruct (toString_hex_roundtrip this x Ht Hx Hv) as (r & E & EL & _).
  rewrite Es in E. exists r. split; [exact E|exact EL].
Defined.

(** ** [equals] *)

Lemma int64_value_inj (a b : Int64) :
  valid a -> valid b ->
  int64_value a = int64_value b -> logical a = logical b.
Proof.
  intros Ha Hb E. apply logical_unsigned_inj; [assumption|assumption|].
  unfold int64_value in E.
  destruct (logical_octets a Ha) as (w0 & w1 & w2 & w3 & w4 & w5 & w6 & w7 & Ea & Hw).
  destruct (logical_octets b Hb) as (v0 & v1 & v2 & v3 & v4 & v5 & v6 & v7 & Eb & Hv).
  rewrite Ea, Eb in *.
  assert (Bw : 0 <= unsigned [w0; w1; w2; w3; w4; w5; w6; w7] < 2 ^ 64)
    by (rewrite unsigned_window; octets Hw; lia).
  assert (Bv : 0 <= unsigned [v0; v1; v2; v3; v4; v5; v6; v7] < 2 ^ 64)
    by (rewrite unsigned_window; octets Hv; lia).
  destruct (Z.ltb_spec (unsigned [w0; w1; w2; w3; w4; w5; w6; w7]) (2 ^ 63)),
           (Z.ltb_spec (unsigned [v0; v1; v2; v3; v4; v5; v6; v7]) (2 ^ 63)); lia.
Qed.

(** X9. On valid values [equals] compares the eight octets and nothing
    else: it holds exactly when the two windows hold the same octets,
    whatever the offsets and the rest of the two buffers, and exactly when
    [toOctetString()] returns the same string for both; it is symmetric. *)
Theorem equals_same_octets (a b : Int64) :
  valid a -> valid b ->
  (equals a b = true <-> logical a = logical b)
  /\ (equals a b = true <-> toOctetString a "" = toOctetString b "")
  /\ equals a b = equals b a.
Proof.
  intros Ha Hb.
  assert (Heq : forall a b, valid a -> valid b ->
            equals a b = (int64_value a =? int64_value b)).
  { clear a b Ha Hb. intros a b Ha Hb.
    destruct (valid_window a Ha)
      as (pre & w0 & w1 & w2 & w3 & w4 & w5 & w6 & w7 & post & E & Hpre & Hw).
    destruct (valid_window b Hb)
      as (pre' & v0 & v1 & v2 & v3 & v4 & v5 & v6 & v7 & post' & E' & Hpre' & Hv).
    destruct a as [ba oa], b as [bb ob]. cbn [buffer offset] in *. subst ba bb.
    destruct (compare_window pre w0 w1 w2 w3 w4 w5 w6 w7 post oa
                pre' v0 v1 v2 v3 v4 v5 v6 v7 post' ob Hpre Hpre' Hw Hv)
      as (c & Ec & Sc & _).
    unfold equals. rewrite Ec. cbn [js_eq].
    destruct (Z.eqb_spec c 0) as [-> | Hc];
      match goal with |- _ = (?u =? ?v) => destruct (Z.eqb_spec u v) end;
      try reflexivity; lia. }
  assert (L : equals a b = true <-> logical a = logical b).
  { rewrite (Heq a b Ha Hb), Z.eqb_eq. split.
    - apply int64_value_inj; assumption.
    - intros E. unfold int64_value. rewrite E. reflexivity. }
  split; [exact L|]. split.
  - rewrite L. split.
    + intros E.
      destruct (valid_window a Ha)
        as (pre & w0 & w1 & w2 & w3 & w4 & w5 & w6 & w7 & post & Ea & Hpre & Hw).
      destruct (valid_window b Hb)
        as (pre' & v0 & v1 & v2 & v3 & v4 & v5 & v6 & v7 & post' & Eb & Hpre' & Hv).
      destruct a as [ba oa], b as [bb ob]. cbn [buffer offset] in *. subst ba bb.
      rewrite !logical_window in E by (assumption || reflexivity).
      rewrite (toOctetString_window _ _ _ _ _ _ _ _ _ _ _ Hpre Hw).
      rewrite (toOctetString_window _ _ _ _ _ _ _ _ _ _ _ Hpre' Hv).
      injection E as -> -> -> -> -> -> -> ->. reflexivity.
    + intros E. apply logical_unsigned_inj; [assumption|assumption|].
      destruct (toOctetString_value a Ha) as (_ & _ & <-).
      destruct (toOctetString_value b Hb) as (_ & _ & <-).
      rewrite E. reflexivity.
  - rewrite (Heq a b Ha Hb), (Heq b a Hb Ha). apply Z.eqb_sym.
Qed.

Lemma equals_same_octets_witness :
  let a := mkInt64 [9; 9; 1; 2; 3; 4; 5; 6; 7; 8] 2 in
  let b := mkInt64 [1; 2; 3; 4; 5; 6; 7; 8; 0] 0 in
  valid a /\ valid b /\ logical a = logical b /\ equals a b = true.
Proof.
  intros a b.
  assert (Ha : valid a).
  { split; [cbn; lia|]. repeat (constructor; [unfold is_byte; lia|]). constructor. }
  assert (Hb : valid b).
  { split; [cbn; lia|]. repeat (constructor; [unfold is_byte; lia|]). constructor. }
  assert (E : logical a = logical b) by reflexivity.
  split; [exact Ha|]. split; [exact Hb|]. split; [exact E|].
  apply (proj1 (equals_same_octets a b Ha Hb)). exact E.
Defined.

(** ** [toOctetString(sep)] and [inspect()] *)

Lemma join_concat (sep : string) (l : list string) :
  join sep (map Some l) = String.concat sep l.
Proof.
  induction l as [|s [|t l] IH]; [reflexivity|reflexivity|].
  change (join sep (map Some (s :: t :: l)))
    with (s +:+ sep +:+ join sep (map Some (t :: l))).
  rewrite IH. reflexivity.
Qed.

Lemma toOctetString_valid (x : Int64) (sep : string) :
  valid x ->
  toOctetString x sep = String.concat sep (map (fixed_digits 16 2) (logical x)).
Proof.
  intros Hv.
  destruct (valid_window x Hv)
    as (pre & w0 & w1 & w2 & w3 & w4 & w5 & w6 & w7 & post & E & Hpre & Hw).
  destruct x as [b o]. cbn [buffer offset] in *. subst b o.
  rewrite logical_window by reflexivity.
  rewrite <- join_concat. unfold toOctetString, from_0_up_to_7.
  cbn [buffer offset map]. rewrite !lookup_window. cbn [lookup list_lookup app].
  octets Hw.
  rewrite !HEX_byte by (unfold is_byte; lia). reflexivity.
Qed.

(** X10. [toOctetString(sep)] on a buffer of octets prints, for each of
    the eight positions of the window, the two lowercase hexadecimal digits
    of the octet there, or nothing where the window runs past the end of
    the buffer, and joins the eight pieces with the separator.  On a valid
    value these are the eight octets of the value. *)
Theorem toOctetString_separator (x : Int64) (sep : string) :
  Forall is_byte (buffer x) ->
  toOctetString x sep
  = String.concat sep
      (map (fun i : nat =>
              match buffer x !! (offset x + i)%nat with
              | Some w => fixed_digits 16 2 w
              | None => ""
              end)
           (seq 0 8))
  /\ (valid x ->
      toOctetString x sep
      = String.concat sep (map (fixed_digits 16 2) (logical x))).
Proof.
  intros Hall.
  assert (G : toOctetString x sep
    = String.concat sep
        (map (fun i : nat =>
                match buffer x !! (offset x + i)%nat with
                | Some w => fixed_digits 16 2 w
                | None => ""
                end)
             (seq 0 8))).
  { unfold toOctetString, from_0_up_to_7. rewrite <- join_concat.
    cbn [seq map].
    assert (P : forall i,
      _HEX (buffer x !! (offset x + i)%nat)
      = Some match buffer x !! (offset x + i)%nat with
             | Some w => fixed_digits 16 2 w
             | None => ""
             end
      \/ (buffer x !! (offset x + i)%nat = None)).
    { intros i. destruct (buffer x !! (offset x + i)%nat) as [w|] eqn:E;
        [left|right; reflexivity].
      apply HEX_byte. exact (Forall_lookup_1 _ _ _ _ Hall E). }
    assert (Q : forall i rest rest',
      join sep rest = join sep rest' ->
      (rest = [] <-> rest' = []) ->
      join sep (_HEX (buffer x !! (offset x + i)%nat) :: rest)
      = join sep (Some match buffer x !! (offset x + i)%nat with
                       | Some w => fixed_digits 16 2 w
                       | None => ""
                       end :: rest')).
    { intros i rest rest' Er Hn. destruct (P i) as [-> | En].
      - destruct rest as [|r rest], rest' as [|r' rest'];
          [reflexivity|destruct Hn as [Hn _]; discriminate (Hn eq_refl)
          |destruct Hn as [_ Hn]; discriminate (Hn eq_refl)|].
        change (join sep (?a :: r :: rest))
          with (default "" a +:+ sep +:+ join sep (r :: rest)).
        change (join sep (?a :: r' :: rest'))
          with (default "" a +:+ sep +:+ join sep (r' :: rest')).
        rewrite Er. reflexivity.
      - rewrite En. cbn [_HEX].
        destruct rest as [|r rest], rest' as [|r' rest'];
          [reflexivity|destruct Hn as [Hn _]; discriminate (Hn eq_refl)
          |destruct Hn as [_ Hn]; discriminate (Hn eq_refl)|].
        change (join sep (?a :: r :: rest))
          with (default "" a +:+ sep +:+ join sep (r :: rest)).
        change (join sep (?a :: r' :: rest'))
          with (default "" a +:+ sep +:+ join sep (r' :: rest')).
        rewrite Er. reflexivity. }
    repeat (apply Q; [|split; discriminate]).
    apply Q; [reflexivity|split; reflexivity]. }
  split; [exact G|].
  intros Hv. rewrite G.
  destruct (valid_window x Hv)
    as (pre & w0 & w1 & w2 & w3 & w4 & w5 & w6 & w7 & post & E & Hpre & Hw).
  destruct x as [b o]. cbn [buffer offset] in *. subst b o.
  rewrite logical_window by reflexivity.
  cbn [seq map]. rewrite !lookup_window. reflexivity.
Qed.

Lemma toOctetString_separator_witness :
  let x := mkInt64 [0xab; 0x01] 1 in
  let y := mkInt64 [0; 1; 0x23; 0x45; 0x67; 0x89; 0xab; 0xcd; 0xef] 1 in
  Forall is_byte (buffer x) /\ valid y
  /\ toOctetString x ":" = "01:::::::"
  /\ toOctetString y " " = "01 23 45 67 89 ab cd ef".
Proof.
  intros x y.
  assert (Hx : Forall is_byte (buffer x))
    by (repeat (constructor; [unfold is_byte; lia|]); constructor).
  assert (Hy : valid y).
  { split; [cbn; lia|]. repeat (constructor; [unfold is_byte; lia|]). constructor. }
  split; [exact Hx|]. split; [exact Hy|]. split.
  - rewrite (proj1 (toOctetString_separator x ":" Hx)). reflexivity.
  - rewrite (proj2 (toOctetString_separator y " " (proj2 Hy)) Hy). reflexivity.
Defined.

(** X11. [inspect()] of a valid value shows the value as [toString()]
    gives it, the decimal rendering below [2^53] in magnitude and
    ["Infinity"] or ["-Infinity"] from there on, and the eight octets as
    two hexadecimal digits each, separated by spaces: the octets are exact
    where the value is not. *)
Theorem inspect_shape (x : Int64) :
  valid x ->
  let v := int64_value x in
  exists s,
    inspect x
    = "[Int64 value: " +:+ s +:+ " octets: "
      +:+ String.concat " " (map (fixed_digits 16 2) (logical x)) +:+ "]"
    /\ (Z.abs v < 2 ^ 53 -> canonical s v)
    /\ (2 ^ 53 <= Z.abs v -> s = if v <? 0 then "-Infinity" else "Infinity").
Proof.
  intros Hv v. exists (toString x 10). unfold inspect.
  rewrite (toOctetString_valid x " " Hv). split; [reflexivity|].
  unfold toString. rewrite (valueOf_value x Hv). fold v. split.
  - intros Hs. destruct (Z.ltb_spec (Z.abs v) (2 ^ 53)); [|lia].
    apply canonical_String.
  - intros Hb. destruct (Z.ltb_spec (Z.abs v) (2 ^ 53)); [lia|].
    destruct (v <? 0); reflexivity.
Qed.

Lemma inspect_shape_witness :
  let x := mkInt64 [0x7f; 0xff; 0xff; 0xff; 0xff; 0xff; 0xff; 0xff] 0 in
  valid x
  /\ inspect x = "[Int64 value: Infinity octets: 7f ff ff ff ff ff ff ff]".
Proof.
  intros x.
  assert (Hv : valid x).
  { split; [cbn; lia|]. repeat (constructor; [unfold is_byte; lia|]). constructor. }
  split; [exact Hv|].
  destruct (inspect_shape x Hv) as (s & E & _ & Hbig).
  rewrite E, Hbig by (vm_compute; discriminate). reflexivity.
Defined.

(** ** [toBuffer] and [copy] *)

Lemma logical_take_drop (x : Int64) :
  logical x = take 8 (drop (offset x) (buffer x)).
Proof. reflexivity. Qed.

(** X12. [toBuffer()] without [rawBuffer], or at an offset other than 0,
    returns a fresh buffer of exactly eight octets: those of the window,
    followed by zeros where the window runs past the end of the buffer; an
    offset beyond the end of the buffer is a [RangeError].  With
    [rawBuffer] at offset 0 the internal buffer itself is returned, whole.
    In both cases a valid value read back from the result at offset 0 has
    the same eight octets. *)
Theorem toBuffer_octets (x : Int64) (rawBuffer : bool) :
  (rawBuffer && (offset x =? 0)%nat = false ->
   toBuffer x rawBuffer
   = if (length (buffer x) <? offset x)%nat then Throw RangeError
     else Ok (take 8 (drop (offset x) (buffer x) ++ replicate 8 0)))
  /\ (rawBuffer && (offset x =? 0)%nat = true ->
      toBuffer x rawBuffer = Ok (buffer x))
  /\ (valid x ->
      exists out,
        toBuffer x rawBuffer = Ok out
        /\ logical (Construct_buffer out 0) = logical x
        /\ valid (Construct_buffer out 0)).
Proof.
  assert (F : rawBuffer && (offset x =? 0)%nat = false ->
    toBuffer x rawBuffer
    = if (length (buffer x) <? offset x)%nat then Throw RangeError
      else Ok (take 8 (drop (offset x) (buffer x) ++ replicate 8 0))).
  { intros Hraw. unfold toBuffer. rewrite Hraw. unfold Buffer_copy.
    destruct (Nat.ltb_spec (length (buffer x)) (offset x)) as [Hlt|Hge];
      [reflexivity|].
    change (length (Buffer_alloc 8)) with 8%nat.
    destruct (Nat.leb_spec 8 0); [lia|].
    destruct (Nat.leb_spec (offset x + 8) (offset x)); [lia|]. cbn [orb].
    cbv zeta. f_equal. cbn [take app]. rewrite Nat.sub_0_r.
    replace (offset x + 8 - offset x)%nat with 8%nat by lia.
    rewrite Nat.min_id.
    set (k := Nat.min 8 (length (buffer x) - offset x)).
    set (d := drop (offset x) (buffer x)).
    assert (Hd : length d = (length (buffer x) - offset x)%nat)
      by (unfold d; apply length_drop).
    change (take 0 (Buffer_alloc 8)) with (@nil Z). cbn [app].
    destruct (Nat.le_gt_cases 8 (length d)) as [Hfull | Hshort].
    - replace k with 8%nat by (unfold k; lia).
      rewrite (take_app_le d) by lia.
      change (drop (0 + 8) (Buffer_alloc 8)) with (@nil Z). apply app_nil_r.
    - replace k with (length d) by (unfold k; lia).
      rewrite (take_ge d) by lia.
      rewrite (take_app_ge d) by lia. f_equal.
      unfold Buffer_alloc. rewrite drop_replicate, take_replicate. f_equal. lia. }
  split; [exact F|]. split.
  { intros Hraw. unfold toBuffer. rewrite Hraw. reflexivity. }
  intros Hv. pose proof Hv as [Hlen Hall].
  destruct (rawBuffer && (offset x =? 0)%nat) eqn:Hraw.
  - exists (buffer x). unfold toBuffer. rewrite Hraw. split; [reflexivity|].
    apply andb_true_iff in Hraw. destruct Hraw as [_ Ho].
    apply Nat.eqb_eq in Ho. destruct x as [b o]. cbn [buffer offset] in *. subst o.
    split; [reflexivity|exact Hv].
  - rewrite (F eq_refl).
    destruct (Nat.ltb_spec (length (buffer x)) (offset x)); [lia|].
    eexists. split; [reflexivity|].
    assert (E : take 8 (drop (offset x) (buffer x) ++ replicate 8 0) = logical x).
    { rewrite take_app_le by (rewrite length_drop; lia). reflexivity. }
    rewrite E.
    destruct (logical_octets x Hv) as (w0 & w1 & w2 & w3 & w4 & w5 & w6 & w7 & EL & Hw).
    rewrite EL. split; [reflexivity|].
    split; [cbn; lia|exact Hw].
Qed.

Lemma toBuffer_octets_witness :
  let x := mkInt64 [9; 1; 2; 3; 4; 5; 6; 7; 8; 9] 1 in
  valid x
  /\ toBuffer x true = Ok [1; 2; 3; 4; 5; 6; 7; 8]
  /\ toBuffer (mkInt64 [1; 2; 3] 1) false = Ok [2; 3; 0; 0; 0; 0; 0; 0]
  /\ toBuffer (mkInt64 [1; 2; 3] 4) false = Throw RangeError.
Proof.
  intros x.
  assert (Hv : valid x).
  { split; [cbn; lia|]. repeat (constructor; [unfold is_byte; lia|]). constructor. }
  split; [exact Hv|]. split; [|split].
  - destruct (toBuffer_octets x true) as (F & _ & _).
    rewrite (F eq_refl). reflexivity.
  - destruct (toBuffer_octets (mkInt64 [1; 2; 3] 1) false) as (F & _ & _).
    rewrite (F eq_refl). reflexivity.
  - destruct (toBuffer_octets (mkInt64 [1; 2; 3] 4) false) as (F & _ & _).
    rewrite (F eq_refl). reflexivity.
Defined.

Lemma logical_length (x : Int64) : valid x -> length (logical x) = 8%nat.
Proof.
  intros [Hlen _]. unfold logical. rewrite length_take, length_drop. lia.
Qed.

(** X13. [copy(target, targetOffset)] of a valid value writes the octets
    of the value into the target from [targetOffset] on, as many of the
    eight as fit before the end of the target, and leaves the rest of the
    target as it is; the target never grows, and nothing is written when
    [targetOffset] is at or beyond its end.  When all eight fit, a value
    read from the target at [targetOffset] has the same octets. *)
Theorem copy_octets (x : Int64) (target : list Z) (targetOffset : nat) :
  valid x ->
  let k := Nat.min 8 (length target - targetOffset) in
  exists target',
    copy x target targetOffset = Ok target'
    /\ target' = take targetOffset target ++ take k (logical x)
                 ++ drop (targetOffset + k) target
    /\ length target' = length target
    /\ ((targetOffset + 8 <= length target)%nat ->
        logical (Construct_buffer target' targetOffset) = logical x).
Proof.
  intros Hv k. pose proof Hv as [Hlen _].
  pose proof (logical_length x Hv) as HL.
  assert (E : copy x target targetOffset
              = Ok (take targetOffset target ++ take k (logical x)
                    ++ drop (targetOffset + k) target)).
  { unfold copy, Buffer_copy.
    destruct (Nat.ltb_spec (length (buffer x)) (offset x)); [lia|].
    destruct (Nat.leb_spec (length target) targetOffset) as [Hout | Hin].
    - cbn [orb]. f_equal. replace k with 0%nat by (unfold k; lia).
      rewrite take_ge, drop_ge by lia. cbn [take app]. rewrite app_nil_r.
      reflexivity.
    - destruct (Nat.leb_spec (offset x + 8) (offset x)); [lia|]. cbn [orb].
      cbv zeta. f_equal. f_equal.
      replace (Nat.min (Nat.min (offset x + 8 - offset x)
                                (length target - targetOffset))
                       (length (buffer x) - offset x)) with k by (unfold k; lia).
      f_equal. unfold logical. rewrite take_take. f_equal. unfold k. lia. }
  eexists. split; [exact E|]. split; [reflexivity|]. split.
  - rewrite !length_app, !length_take, length_drop, HL. unfold k. lia.
  - intros Hfit. replace k with 8%nat by (unfold k; lia).
    rewrite (take_ge (logical x)) by lia.
    unfold logical at 1, Construct_buffer. cbn [buffer offset].
    rewrite drop_app_length' by (rewrite length_take; lia).
    rewrite take_app_length' by exact (eq_sym HL). reflexivity.
Qed.

Lemma copy_octets_witness :
  let x := mkInt64 [9; 1; 2; 3; 4; 5; 6; 7; 8; 9] 1 in
  valid x
  /\ copy x [0; 0; 0; 0; 0; 0; 0; 0; 0; 0] 1 = Ok [0; 1; 2; 3; 4; 5; 6; 7; 8; 0]
  /\ copy x [0; 0; 0; 0] 2 = Ok [0; 0; 1; 2]
  /\ copy x [0; 0; 0; 0] 4 = Ok [0; 0; 0; 0].
Proof.
  intros x.
  assert (Hv : valid x).
  { split; [cbn; lia|]. repeat (constructor; [unfold is_byte; lia|]). constructor. }
  split; [exact Hv|]. split; [|split].
  - destruct (copy_octets x [0; 0; 0; 0; 0; 0; 0; 0; 0; 0] 1 Hv) as (t & E & -> & _).
    exact E.
  - destruct (copy_octets x [0; 0; 0; 0] 2 Hv) as (t & E & -> & _). exact E.
  - destruct (copy_octets x [0; 0; 0; 0] 4 Hv) as (t & E & -> & _). exact E.
Defined.

(** ** Decimal strings, value by value *)

(** X14. [fromDecimalString] of an optional minus sign and one to
    nineteen decimal digits, leading zeros allowed, whose value is in the
    signed 64-bit range, returns a fresh value at offset 0 that holds
    exactly that integer (a minus sign before zeros only is left out). *)
Theorem fromDecimalString_exact (neg : bool) (ds : string) :
  digits_only 10 ds = true ->
  (1 <= String.length ds <= 19)%nat ->
  let M := digits_value 10 ds 0 in
  let v := if neg then - M else M in
  (neg = true -> 0 < M) ->
  - 2 ^ 63 <= v < 2 ^ 63 ->
  exists c,
    fromDecimalString (numeral neg ds) = Ok c
    /\ valid c /\ offset c = 0%nat /\ length (buffer c) = 8%nat
    /\ int64_value c = v.
Proof.
  intros Hd Hn M v Hpos Hv.
  destruct (fromDecimalString_value neg ds Hd Hn Hpos Hv)
    as (w0 & w1 & w2 & w3 & w4 & w5 & w6 & w7 & E & Hb & Ev).
  eexists. split; [exact E|]. split.
  { split; [cbn; lia|exact Hb]. }
  split; [reflexivity|]. split; [reflexivity|exact Ev].
Qed.

Lemma fromDecimalString_exact_witness :
  digits_only 10 "0000000000000001234" = true
  /\ (1 <= String.length "0000000000000001234" <= 19)%nat
  /\ exists c,
       fromDecimalString "-0000000000000001234" = Ok c
       /\ int64_value c = - 1234.
Proof.
  assert (Hd : digits_only 10 "0000000000000001234" = true) by reflexivity.
  assert (Hn : (1 <= String.length "0000000000000001234" <= 19)%nat) by (cbn; lia).
  split; [exact Hd|]. split; [exact Hn|].
  destruct (fromDecimalString_exact true "0000000000000001234" Hd Hn)
    as (c & E & _ & _ & _ & Ev).
  - intros _. vm_compute. reflexivity.
  - vm_compute. split; [discriminate|reflexivity].
  - exists c. split; [exact E|]. rewrite Ev. vm_compute. reflexivity.
Defined.

(** X15. A minus sign before zeros only: up to fifteen zeros are the
    value 0, but sixteen to nineteen zeros are decoded as the minimum
    [-2^63], because the two's complement taken on the two halves turns a
    zero magnitude into the sign bit alone. *)
Theorem fromDecimalString_minus_zeros (ds : string) :
  digits_only 10 ds = true -> digits_value 10 ds 0 = 0 ->
  (1 <= String.length ds <= 19)%nat ->
  exists c,
    fromDecimalString (String "-" ds) = Ok c
    /\ int64_value c = if (String.length ds <? 16)%nat then 0 else - 2 ^ 63.
Proof.
  intros Hd HM Hn.
  change (String "-" ds) with (numeral true ds).
  destruct (Nat.ltb_spec (String.length ds) 16) as [Hs | Hm].
  - unfold fromDecimalString.
    rewrite numeral_negative by exact Hd. rewrite numeral_length.
    destruct (Nat.ltb_spec (String.length ds + 1) 17); [|lia].
    cbn [numeral]. rewrite StringToNumber_minus_digits by exact Hd.
    destruct ds as [|c r]; [cbn in Hn; lia|].
    rewrite HM. eexists. split; [vm_compute; reflexivity|]. vm_compute. reflexivity.
  - pose proof (fromDecimalString_mid_form true ds Hd ltac:(lia)) as E.
    cbv zeta in E. rewrite HM in E. rewrite E.
    eexists. split; [vm_compute; reflexivity|]. vm_compute. reflexivity.
Qed.

Lemma fromDecimalString_minus_zeros_witness :
  digits_only 10 "0000000000000000" = true
  /\ digits_value 10 "0000000000000000" 0 = 0
  /\ exists c,
       fromDecimalString "-0000000000000000" = Ok c
       /\ buffer c = [128; 0; 0; 0; 0; 0; 0; 0]
       /\ int64_value c = - 2 ^ 63.
Proof.
  assert (Hd : digits_only 10 "0000000000000000" = true) by reflexivity.
  assert (HM : digits_value 10 "0000000000000000" 0 = 0) by reflexivity.
  split; [exact Hd|]. split; [exact HM|].
  destruct (fromDecimalString_minus_zeros "0000000000000000" Hd HM ltac:(cbn; lia))
    as (c & E & Ev).
  exists c. split; [exact E|]. split; [|exact Ev].
  assert (E' : fromDecimalString "-0000000000000000"
               = Ok (mkInt64 [128; 0; 0; 0; 0; 0; 0; 0] 0)) by (vm_compute; reflexivity).
  rewrite E' in E. injection E as <-. reflexivity.
Defined.

(** X16. [toDecimalString()] is exact where [toString()] is not: for a
    valid value that is not negative, at any offset, and for a value of
    [-10^11] or less held at offset 0, it is the canonical decimal
    rendering of the encoded integer, whatever its magnitude. *)
Theorem toDecimalString_exact (x : Int64) :
  valid x ->
  0 <= int64_value x \/ (int64_value x <= - 10 ^ 11 /\ offset x = 0%nat) ->
  canonical (toDecimalString x) (int64_value x).
Proof.
  intros Hv [Hpos | [Hneg Ho]].
  - rewrite toDecimalString_nonnegative by assumption. apply canonical_String.
  - rewrite toDecimalString_negative_large by assumption. apply canonical_String.
Qed.

Lemma toDecimalString_exact_witness :
  let x := mkInt64 [0; 0x7f; 0xff; 0xff; 0xff; 0xff; 0xff; 0xff; 0xff] 1 in
  let y := mkInt64 [0x80; 0; 0; 0; 0; 0; 0; 0] 0 in
  valid x /\ valid y
  /\ toDecimalString x = "9223372036854775807"
  /\ canonical (toDecimalString x) (2 ^ 63 - 1)
  /\ toDecimalString y = "-9223372036854775808"
  /\ canonical (toDecimalString y) (- 2 ^ 63).
Proof.
  intros x y.
  assert (Hx : valid x).
  { split; [cbn; lia|]. repeat (constructor; [unfold is_byte; lia|]). constructor. }
  assert (Hy : valid y).
  { split; [cbn; lia|]. repeat (constructor; [unfold is_byte; lia|]). constructor. }
  split; [exact Hx|]. split; [exact Hy|].
  split; [vm_compute; reflexivity|]. split.
  { apply (toDecimalString_exact x Hx). left. vm_compute. discriminate. }
  split; [vm_compute; reflexivity|].
  apply (toDecimalString_exact y Hy). right. split; [vm_compute; discriminate|reflexivity].
Defined.

(** X17. Whatever [toDecimalString()] prints for a valid value held at
    offset 0, or for one that is not negative at any offset,
    [fromDecimalString] reads back as the same eight octets; this includes
    the values between [-10^11] and 0, whose zero-padded rendering is read
    back as the value. *)
Theorem fromDecimalString_toDecimalString (x : Int64) :
  valid x ->
  0 <= int64_value x \/ offset x = 0%nat ->
  exists c,
    fromDecimalString (toDecimalString x) = Ok c
    /\ int64_value c = int64_value x
    /\ logical c = logical x.
Proof.
  intros Hv Hcase.
  set (v := int64_value x).
  assert (Bv : - 2 ^ 63 <= v < 2 ^ 63).
  { unfold v, int64_value.
    destruct (logical_octets x Hv) as (w0 & w1 & w2 & w3 & w4 & w5 & w6 & w7 & E & Hw).
    rewrite E, unsigned_window. octets Hw.
    destruct (Z.ltb_spec (w0 * 2 ^ 56 + w1 * 2 ^ 48 + w2 * 2 ^ 40 + w3 * 2 ^ 32
                          + w4 * 2 ^ 24 + w5 * 2 ^ 16 + w6 * 2 ^ 8 + w7) (2 ^ 63));
      lia. }
  assert (G : exists (neg : bool) ds,
            toDecimalString x = numeral neg ds
            /\ digits_only 10 ds = true
            /\ (1 <= String.length ds <= 19)%nat
            /\ (if neg then - digits_value 10 ds 0 else digits_value 10 ds 0) = v
            /\ (neg = true -> 0 < digits_value 10 ds 0)).
  { assert (Hcanon : forall s, canonical s v ->
              exists (neg : bool) ds,
                s = numeral neg ds
                /\ digits_only 10 ds = true
                /\ (1 <= String.length ds <= 19)%nat
                /\ (if neg then - digits_value 10 ds 0 else digits_value 10 ds 0) = v
                /\ (neg = true -> 0 < digits_value 10 ds 0)).
    { intros s (n & H1 & H2 & H3 & ->).
      exists (v <? 0), (fixed_digits 10 n (Z.abs v)).
      assert (Hn : (n <= 19)%nat).
      { destruct H3 as [-> | H3]; [lia|].
        destruct (Nat.le_gt_cases n 19) as [Hle | Hgt]; [exact Hle|exfalso].
        assert (10 ^ 19 <= 10 ^ (Z.of_nat n - 1)) by (apply Z.pow_le_mono_r; lia).
        lia. }
      rewrite fixed_digits_value, fixed_digits_length, Z.mod_small by lia.
      split; [reflexivity|]. split; [apply fixed_digits_only|]. split; [lia|].
      destruct (Z.ltb_spec v 0); split; try lia; intros; try discriminate; lia. }
    destruct (Z.le_gt_cases 0 v) as [Hpos | Hneg].
    - apply Hcanon. unfold v. rewrite toDecimalString_nonnegative by assumption.
      apply canonical_String.
    - destruct Hcase as [Hc | Ho]; [unfold v in Hneg; lia|].
      destruct (Z.le_gt_cases v (- 10 ^ 11)) as [Hlarge | Hsmall].
      + apply Hcanon. unfold v.
        rewrite toDecimalString_negative_large by assumption.
        apply canonical_String.
      + destruct (toDecimalString_negative_small x Hv ltac:(fold v; lia) Ho)
          as [E _].
        fold v in E. exists true, (fixed_digits 10 12 (- v)).
        split.
        { rewrite E. cbn [numeral].
          rewrite (fixed_digits_app 10 1 11 (- v) ltac:(lia)
                   : fixed_digits 10 12 (- v) = _).
          change (10 ^ Z.of_nat 11) with (10 ^ 11).
          rewrite Z.div_small, Z.mod_small by lia. reflexivity. }
        rewrite fixed_digits_value, fixed_digits_length.
        change (10 ^ Z.of_nat 12) with (10 ^ 12).
        rewrite Z.mod_small by lia.
        split; [apply fixed_digits_only|]. split; [lia|]. split; [lia|].
        intros _. lia. }
  destruct G as (neg & ds & Es & Hd & Hn & EM & Hp).
  rewrite Es.
  destruct (fromDecimalString_value neg ds Hd Hn Hp ltac:(rewrite EM; exact Bv))
    as (w0 & w1 & w2 & w3 & w4 & w5 & w6 & w7 & E & Hb & Ev).
  rewrite EM in Ev.
  eexists. split; [exact E|]. split; [exact Ev|].
  apply int64_value_inj; [split; [cbn; lia|exact Hb]|exact Hv|exact Ev].
Qed.

Lemma fromDecimalString_toDecimalString_witness :
  let x := mkInt64 [255; 255; 255; 255; 255; 255; 255; 255] 0 in
  valid x
  /\ toDecimalString x = "-000000000001"
  /\ exists c, fromDecimalString "-000000000001" = Ok c /\ logical c = logical x.
Proof.
  intros x.
  assert (Hv : valid x).
  { split; [cbn; lia|]. repeat (constructor; [unfold is_byte; lia|]). constructor. }
  assert (Es : toDecimalString x = "-000000000001") by (vm_compute; reflexivity).
  split; [exact Hv|]. split; [exact Es|].
  destruct (fromDecimalString_toDecimalString x Hv (or_intror eq_refl))
    as (c & E & _ & EL).
  rewrite Es in E. exists c. split; [exact E|exact EL].
Defined.

(** X18. For the canonical decimal rendering [s] of a signed 64-bit
    integer [v] that is not negative, or is [-10^11] or less,
    [fromDecimalString(s)] holds [v] and its [toDecimalString()] is [s]
    again. *)
Theorem decimal_roundtrip_holds (s : string) (v : Z) :
  canonical s v -> - 2 ^ 63 <= v < 2 ^ 63 ->
  0 <= v \/ v <= - 10 ^ 11 ->
  exists c,
    fromDecimalString s = Ok c
    /\ int64_value c = v
    /\ toDecimalString c = s.
Proof.
  intros Hc Hv Hcase.
  destruct (decimal_roundtrip_extent s v Hc Hv) as (c & E & _ & _ & Ev & Hrt & _).
  exists c. split; [exact E|]. split; [exact Ev|]. apply Hrt. exact Hcase.
Qed.

Lemma decimal_roundtrip_holds_witness :
  canonical "-123456789012" (- 123456789012)
  /\ - 2 ^ 63 <= - 123456789012 < 2 ^ 63
  /\ exists c,
       fromDecimalString "-123456789012" = Ok c
       /\ toDecimalString c = "-123456789012".
Proof.
  assert (Hc : canonical "-123456789012" (- 123456789012)).
  { exists 12%nat. split; [lia|]. split; [vm_compute; reflexivity|].
    split; [right; vm_compute; discriminate|reflexivity]. }
  assert (Hv : - 2 ^ 63 <= - 123456789012 < 2 ^ 63) by lia.
  split; [exact Hc|]. split; [exact Hv|].
  destruct (decimal_roundtrip_holds _ _ Hc Hv ltac:(right; lia)) as (c & E & _ & Hrt).
  exists c. split; [exact E|exact Hrt].
Defined.

(** ** A minus sign in a hexadecimal string *)

Lemma parseInt16_minus (s : string) :
  digits_only 16 s = true ->
  parseInt16 (String "-" s)
  = match s with
    | EmptyString => NaN
    | _ => Num (- fl (digits_value 16 s 0))
    end.
Proof.
  intros H. destruct s as [|c r]; [reflexivity|].
  assert (Hr : digits_only 16 r = true).
  { cbn [digits_only] in H. destruct (digit_value 16 c); [exact H|discriminate]. }
  assert (Hgen :
    (let '(v, count) := read_digits 16 (String c r) 0 0 in
     match count with
     | O => NaN
     | _ => Num (-1 * fl v)
     end) = Num (- fl (digits_value 16 (String c r) 0))).
  { rewrite read_digits_digits by (lia || exact H).
    cbn [String.length Nat.add]. f_equal; lia. }
  rewrite <- Hgen. clear Hgen.
  unfold parseInt16.
  destruct c as [[] [] [] [] [] [] [] []];
    try (cbn in H; discriminate H); try reflexivity.
  destruct r as [|c2 r2]; [reflexivity|].
  destruct c2 as [[] [] [] [] [] [] [] []];
    try (cbn in Hr; discriminate Hr); reflexivity.
Qed.

(** X19. A minus sign before one to seven hexadecimal digits is not a
    64-bit negation: [parseInt] negates the low word only and the high
    word, parsed from the empty string, is stored as 0.  The value is never
    negative: it is [2^32 - m] for the digits' value [m > 0]. *)
Theorem setValue_hex_minus (this : Int64) (ds : string) :
  valid this -> digits_only 16 ds = true ->
  (1 <= String.length ds <= 7)%nat ->
  let m := hex_value ds in
  exists r,
    setValue this (Args1 (Str (String "-" ds))) = Ok r
    /\ int64_value r = (- m) mod 2 ^ 32
    /\ (0 < m -> int64_value r = 2 ^ 32 - m).
Proof.
  intros Hv Hd Hn m.
  pose proof (digits_value_bound 16 ltac:(lia) ds Hd) as Hm. fold (hex_value ds) in Hm.
  fold m in Hm.
  assert (Hp : 16 ^ Z.of_nat (String.length ds) <= 16 ^ 7)
    by (apply Z.pow_le_mono_r; lia).
  unfold setValue.
  change (replace_0x (String "-" ds)) with (String "-" ds).
  rewrite js_substr_last8.
  cbn [String.length].
  destruct (Nat.ltb_spec 8 (S (String.length ds))); [lia|].
  replace (S (String.length ds) - 8)%nat with 0%nat by lia.
  change (str_drop 0 (String "-" ds)) with (String "-" ds).
  assert (Ep : parseInt16 (String "-" ds) = Num (- m)).
  { rewrite parseInt16_minus by exact Hd.
    destruct ds as [|c r]; [cbn in Hn; lia|].
    unfold m, hex_value in *. rewrite fl_small by lia. reflexivity. }
  rewrite Ep. change (parseInt16 "") with NaN.
  cbn [mbind result_bind mret result_ret].
  rewrite copy_bytes_NaN_hi.
  destruct Hv as [Hlen _].
  destruct this as [b o]. cbn [buffer offset] in *.
  destruct (window_split b o Hlen)
    as (pre & w0 & w1 & w2 & w3 & w4 & w5 & w6 & w7 & post & -> & Hpre).
  destruct (copy_bytes_window_unsigned pre w0 w1 w2 w3 w4 w5 w6 w7 post o 0 (- m) Hpre)
    as (b0 & b1 & b2 & b3 & b4 & b5 & b6 & b7 & E & Hb & Hu).
  rewrite E. eexists. split; [reflexivity|].
  unfold int64_value. rewrite logical_window by (assumption || reflexivity).
  rewrite Hu. change (0 mod 2 ^ 32 * 2 ^ 32) with 0. rewrite Z.add_0_l.
  pose proof (Z.mod_pos_bound (- m) (2 ^ 32) ltac:(lia)) as Hmod.
  destruct (Z.ltb_spec ((- m) mod 2 ^ 32) (2 ^ 63)); [|lia].
  split; [reflexivity|].
  intros Hpos. symmetry. apply Z.mod_unique_pos with (q := -1); lia.
Qed.

Lemma setValue_hex_minus_witness :
  let this := mkInt64 (Buffer_alloc 8) 0 in
  valid this /\ digits_only 16 "ff" = true
  /\ exists r,
       Construct (Args1 (Str "-ff")) = Ok r
       /\ buffer r = [0; 0; 0; 0; 255; 255; 255; 1]
       /\ int64_value r = 2 ^ 32 - 255.
Proof.
  intros this.
  assert (Hv : valid this).
  { split; [cbn; lia|]. repeat (constructor; [unfold is_byte; lia|]). constructor. }
  assert (Hd : digits_only 16 "ff" = true) by reflexivity.
  split; [exact Hv|]. split; [exact Hd|].
  destruct (setValue_hex_minus this "ff" Hv Hd ltac:(cbn; lia)) as (r & E & _ & Ev).
  exists r. split; [exact E|]. split.
  - assert (E' : setValue this (Args1 (Str "-ff"))
                 = Ok (mkInt64 [0; 0; 0; 0; 255; 255; 255; 1] 0))
      by (vm_compute; reflexivity).
    rewrite E' in E. injection E as <-. reflexivity.
  - rewrite Ev by (vm_compute; reflexivity). reflexivity.
Defined.
